(** * Event Intelligence Data Warehouse: ingestion and orchestration

    A shallow embedding of the Python sources

      - [src/ingestion/api_ingestor.py]  (class [TicketmasterIngestor])
      - [src/csv_ingestor.py]            (class [CsvIngestor])
      - [src/scripts/run_pipeline.py]    (the steps, the summary and [main])

    Python objects are dynamically typed, so the values that flow through
    the ingestors (decoded JSON documents, CSV cells, the fields of a row
    dictionary) are modelled by one type [pyval].  Exceptions are values of
    [Exn]; a computation that may raise returns a [result]; code with side
    effects (database, network, console) is a state-passing function in the
    monad [M].

    What lies outside the sources is a parameter of the model, the record
    [Env]: the process environment, the remote API, the file system (with
    what pandas makes of a CSV file) and the meaning of the SQL scripts.  The console is modelled for the
    orchestrator only; the log lines of the two ingestors are left out.
    Connecting to the database and the statements of the ingestors always
    succeed. *)

From Stdlib Require Import List String Ascii ZArith Bool Arith Lia DecimalString.
Import ListNotations.
Open Scope string_scope.
Set Warnings "-register-all".

(** ** Python values *)

Module Py.

(** A float is kept by its [repr]: Python prints the shortest literal that
    reads back as the same float, so the literal identifies the value. *)
Inductive pyval : Type :=
| PNone
| PBool (b : bool)
| PInt (z : Z)
| PFloat (repr : string)
| PStr (s : string)
| PList (l : list pyval)
| PDict (d : list (string * pyval)).

Fixpoint pyval_eq_dec (a b : pyval) {struct a} : {a = b} + {a <> b}.
Proof.
  decide equality;
    try apply string_dec; try apply Z.eq_dec; try apply bool_dec.
  - apply list_eq_dec, pyval_eq_dec.
  - apply list_eq_dec. intros [k1 v1] [k2 v2].
    destruct (string_dec k1 k2) as [->|Hk]; [|right; congruence].
    destruct (pyval_eq_dec v1 v2) as [->|Hv]; [left; reflexivity|right; congruence].
Defined.

(** An exception instance: its class name and [str(e)].  [RetryError] is
    tenacity's wrapper around the exception of the last attempt. *)
Inductive Exn : Type :=
| Exc (cls : string) (msg : string)
| RetryError (last : Exn).

Definition exn_class (e : Exn) : string :=
  match e with
  | Exc cls _ => cls
  | RetryError _ => "RetryError"
  end.

(** [str(e)].  For a [RetryError] Python prints
    [RetryError[<Future at 0x... state=finished raised C>]]; the object
    address is left out. *)
Definition exn_str (e : Exn) : string :=
  match e with
  | Exc _ msg => msg
  | RetryError last =>
      "RetryError[<Future state=finished raised " ++ exn_class last ++ ">]"
  end.

Inductive result (A : Type) : Type :=
| Ok (a : A)
| Raise (e : Exn).
Arguments Ok {A} a.
Arguments Raise {A} e.

Definition rbind {A B} (r : result A) (k : A -> result B) : result B :=
  match r with
  | Ok a => k a
  | Raise e => Raise e
  end.

Definition is_ok {A} (r : result A) : bool :=
  match r with Ok _ => true | Raise _ => false end.

(** [type(v).__name__], as it appears in error messages. *)
Definition type_name (v : pyval) : string :=
  match v with
  | PNone => "NoneType"
  | PBool _ => "bool"
  | PInt _ => "int"
  | PFloat _ => "float"
  | PStr _ => "str"
  | PList _ => "list"
  | PDict _ => "dict"
  end.

(** Truth value testing: [None], [False], zero, and empty containers are
    false. *)
Definition truthy (v : pyval) : bool :=
  match v with
  | PNone => false
  | PBool b => b
  | PInt z => negb (z =? 0)%Z
  | PFloat r => negb (String.eqb r "0.0" || String.eqb r "-0.0")
  | PStr s => negb (String.eqb s "")
  | PList l => match l with [] => false | _ => true end
  | PDict d => match d with [] => false | _ => true end
  end.

Fixpoint lookup (k : string) (d : list (string * pyval)) : option pyval :=
  match d with
  | [] => None
  | (k', v) :: d' => if String.eqb k k' then Some v else lookup k d'
  end.

Definition no_attribute (v : pyval) (attr : string) : Exn :=
  Exc "AttributeError"
      ("'" ++ type_name v ++ "' object has no attribute '" ++ attr ++ "'").

(** [v.get(k, default)]: only a dict has [get]. *)
Definition get (v : pyval) (k : string) (default : pyval) : result pyval :=
  match v with
  | PDict d => Ok (match lookup k d with Some x => x | None => default end)
  | _ => Raise (no_attribute v "get")
  end.

(** [v[0]]. *)
Definition index0 (v : pyval) : result pyval :=
  match v with
  | PList (x :: _) => Ok x
  | PList [] => Raise (Exc "IndexError" "list index out of range")
  | PStr (String c _) => Ok (PStr (String c EmptyString))
  | PStr EmptyString => Raise (Exc "IndexError" "string index out of range")
  | PDict _ => Raise (Exc "KeyError" "0")
  | _ => Raise (Exc "TypeError"
                    ("'" ++ type_name v ++ "' object is not subscriptable"))
  end.

(** [v[0] if v else {}], the idiom of [parse_event]. *)
Definition first_or_empty (v : pyval) : result pyval :=
  if truthy v then index0 v else Ok (PDict []).

Fixpoint chars (s : string) : list pyval :=
  match s with
  | EmptyString => []
  | String c s' => PStr (String c EmptyString) :: chars s'
  end.

(** The elements a [for] loop or a comprehension draws from [v]. *)
Definition iter (v : pyval) : result (list pyval) :=
  match v with
  | PList l => Ok l
  | PStr s => Ok (chars s)
  | PDict d => Ok (map (fun kv => PStr (fst kv)) d)
  | _ => Raise (Exc "TypeError"
                    ("'" ++ type_name v ++ "' object is not iterable"))
  end.

(** [str(z)] for an int. *)
Definition str_int (z : Z) : string := NilZero.string_of_int (Z.to_int z).

(** [str(v)].  The text of a list or a dict is its [repr], which quotes and
    escapes the strings inside; that printer is a parameter. *)
Definition str (repr_container : pyval -> string) (v : pyval) : string :=
  match v with
  | PNone => "None"
  | PBool true => "True"
  | PBool false => "False"
  | PInt z => str_int z
  | PFloat r => r
  | PStr s => s
  | PList _ | PDict _ => repr_container v
  end.

End Py.
Export Py.

Notation "'let?' x ':=' r 'in' k" := (rbind r (fun x => k))
  (at level 10, x name, r at level 100, k at level 200).

(** ** Rows, tables and the storage model *)

(** The row dictionary both ingestors build: the eighteen named parameters
    of the [INSERT INTO raw.events] statement. *)
Record Row : Type := mkRow {
  source : pyval;
  raw_event_id : pyval;
  raw_payload : pyval;
  event_name : pyval;
  event_date : pyval;
  event_time : pyval;
  venue_name : pyval;
  venue_city : pyval;
  venue_country : pyval;
  venue_lat : pyval;
  venue_lon : pyval;
  category : pyval;
  subcategory : pyval;
  price_min : pyval;
  price_max : pyval;
  currency : pyval;
  url : pyval;
  status : pyval
}.

Inductive RunStatus : Type := running | success | failed.

(** One row of [raw.ingestion_log], with the columns the ingestors write. *)
Record RunRecord : Type := mkRun {
  log_run_id : string;
  log_source : string;
  log_records_fetched : option nat;
  log_records_loaded : option nat;
  log_status : RunStatus;
  log_error_message : option string;
  log_finished_at : option Z
}.

(** The database: the two tables the ingestors write, and every other
    table (transform, warehouse, reporting, quality log) by name. *)
Record DB : Type := mkDB {
  events : list Row;
  ingestion_log : list RunRecord;
  tables : list (string * list (list pyval))
}.

Definition empty_db : DB := mkDB [] [] [].

(** The canonical id pair of a row. *)
Definition key (r : Row) : pyval * pyval := (source r, raw_event_id r).

Definition key_eq_dec (k1 k2 : pyval * pyval) : {k1 = k2} + {k1 <> k2}.
Proof. decide equality; apply pyval_eq_dec. Defined.

Definition has_key (k : pyval * pyval) (t : list Row) : bool :=
  existsb (fun r => if key_eq_dec k (key r) then true else false) t.

(** Modelled from the spec: the declaration of the table [raw.events] is not
    part of the sources, so the conflict that [ON CONFLICT DO NOTHING]
    reacts to is taken from the storage interface of the specification, "a
    staging table keyed by (source, source-native id) supporting
    insert-or-skip-on-conflict semantics": a row whose key is already in the
    table is skipped, any other row is appended.  A statement never fails. *)
Definition insert_on_conflict_do_nothing (t : list Row) (r : Row) : list Row :=
  if has_key (key r) t then t else t ++ [r].

(** psycopg2's [_paginate]: consecutive pages of [page_size] items, the
    last one shorter.  Both callers pass a positive [page_size] (100 and
    50), for which one unit of fuel per item is enough. *)
Fixpoint paginate_fuel {A} (fuel : nat) (page_size : nat) (l : list A)
  : list (list A) :=
  match fuel, l with
  | _, [] => []
  | O, _ => [l]
  | S f, _ => firstn page_size l :: paginate_fuel f page_size (skipn page_size l)
  end.

Definition paginate {A} (page_size : nat) (l : list A) : list (list A) :=
  paginate_fuel (List.length l) page_size l.

(** [psycopg2.extras.execute_batch(cur, insert_sql, rows, page_size)] on
    the table: each page is sent as one command, its statements run in
    order. *)
Definition execute_batch (t : list Row) (rows : list Row) (page_size : nat)
  : list Row :=
  fold_left (fun t page => fold_left insert_on_conflict_do_nothing page t)
            (paginate page_size rows) t.

(** [UPDATE raw.ingestion_log SET ... WHERE run_id = %s]. *)
Definition update_where_run_id (run_id : string) (f : RunRecord -> RunRecord)
           (log : list RunRecord) : list RunRecord :=
  map (fun r => if String.eqb (log_run_id r) run_id then f r else r) log.

(** ** The environment and the machine state *)

(** The query parameters of one [requests.get] (the [params] dict of
    [fetch_events]). *)
Record Request : Type := mkRequest {
  apikey : string;
  countryCode : string;
  size : Z;
  page : nat;
  sort : string
}.

(** What one [requests.get] does: it raises (connection error, timeout),
    or it returns a response with a status code and a body, [json] being
    what [response.json()] gives on that body. *)
Inductive http_outcome : Type :=
| GetRaises (e : Exn)
| Response (status_code : Z) (json : result pyval).

(** A pandas frame: the column labels and the cells of each row, in the
    order of [df.iterrows()]. *)
Record DataFrame : Type := mkFrame {
  columns : list string;
  data : list (list pyval)
}.

(** The stages of [main], named after the functions that run them. *)
Inductive Stage : Type :=
| Transform          (* step_transform *)
| LoadFacts          (* step_load_facts *)
| QualityChecks      (* step_quality_checks *)
| CreateKpiViews     (* step_create_kpi_views *)
| Summary.           (* print_pipeline_summary *)

(** The lines the orchestrator writes through [logger], one constructor per
    call site of [run_pipeline.py]. *)
Inductive Event : Type :=
| PipelineStarting (src : string)        (* lines 154-155 *)
| ExtractLoad (src : string)             (* line 94: "STEP 1-2" *)
| RecordsIngested (n : nat)              (* line 164 *)
| StepStarted (s : Stage)                (* lines 108, 118, 126, 134; line 77 *)
| Executed (sql_path : string)           (* line 54 *)
| StepDone (s : Stage)                   (* lines 113, 121, 129, 137 *)
| Rule                                   (* lines 76, 78, 87: "=" * 55 *)
| SummaryLine (label : string) (v : pyval)   (* line 84 *)
| SummaryError (label : string) (e : Exn)    (* line 86 *)
| PipelineCompleted                      (* line 174 *)
| PipelineFailed (e : Exn).              (* line 176 *)

(** Everything outside the program: process environment, remote API,
    file system, the database's reading of SQL text, and the parts of the
    Python runtime that are left abstract. *)
Record Env : Type := mkEnv {
  env_api_key : option string;    (* os.getenv("TICKETMASTER_API_KEY") *)
  env_batch_size : result Z;      (* int(os.getenv("BATCH_SIZE", 100)) *)
  requests_get : list Request -> Request -> http_outcome;
                                  (* the reply, given the requests so far *)
  read_csv : string -> result DataFrame;
                                  (* pd.read_csv(path) followed by
                                     df.where(pd.notnull(df), None), as
                                     df.iterrows() yields it: see
                                     CsvIngestor.build_rows *)
  read_text : string -> result string;      (* open(path).read() *)
  sql : string -> DB -> result (list (list pyval)) * DB;
                                  (* cur.execute(text): the rows it returns
                                     or the error, and the session after *)
  uuid4 : nat -> string;          (* the n-th str(uuid.uuid4()) *)
  json_dumps : pyval -> string;
  repr_container : pyval -> string;
  float_pred_le : string -> Z -> bool       (* f - 1 <= n, f a float *)
}.

(** The state the program acts on.  [committed] is what the database holds
    durably; [session] is the view of the open connection, with the
    statements not yet committed; [commits] keeps every database that was
    committed, oldest first.  Only a sleep moves the clock. *)
Record State : Type := mkState {
  committed : DB;
  session : DB;
  requests : list Request;
  sleeps : list Z;
  clock : Z;
  uuid_calls : nat;
  console : list Event;
  commits : list DB
}.

Definition initial_state (d : DB) : State := mkState d d [] [] 0 0 [] [].

Definition set_session (d : DB) (st : State) : State :=
  mkState (committed st) d (requests st) (sleeps st) (clock st)
          (uuid_calls st) (console st) (commits st).

Definition set_events (t : list Row) (d : DB) : DB :=
  mkDB t (ingestion_log d) (tables d).

Definition set_ingestion_log (l : list RunRecord) (d : DB) : DB :=
  mkDB (events d) l (tables d).

(** ** Computations with state and exceptions *)

Definition M (A : Type) : Type := State -> result A * State.

Definition ret {A} (a : A) : M A := fun st => (Ok a, st).

Definition bind {A B} (m : M A) (k : A -> M B) : M B :=
  fun st =>
    match m st with
    | (Ok a, st') => k a st'
    | (Raise e, st') => (Raise e, st')
    end.

Definition raise {A} (e : Exn) : M A := fun st => (Raise e, st).

Definition lift {A} (r : result A) : M A := fun st => (r, st).

Definition gets {A} (f : State -> A) : M A := fun st => (Ok (f st), st).

Definition modify (f : State -> State) : M unit := fun st => (Ok tt, f st).

(** [try: body  except Exception as e: handler(e)] *)
Definition try_except {A} (body : M A) (handler : Exn -> M A) : M A :=
  fun st =>
    match body st with
    | (Ok a, st') => (Ok a, st')
    | (Raise e, st') => handler e st'
    end.

(** [try: body  finally: cleanup] *)
Definition finally {A} (body : M A) (cleanup : M unit) : M A :=
  fun st =>
    match body st with
    | (r, st') =>
        match cleanup st' with
        | (Ok _, st'') => (r, st'')
        | (Raise e, st'') => (Raise e, st'')
        end
    end.

Notation "x <- m ;; k" := (bind m (fun x => k))
  (at level 61, m at next level, right associativity).
Notation "m ;; k" := (bind m (fun _ => k))
  (at level 61, right associativity).

(** *** The connection *)

(** [get_db_connection()]: a fresh session on the committed data. *)
Definition get_db_connection : M unit :=
  modify (fun st => set_session (committed st) st).

(** [conn.commit()] *)
Definition commit : M unit :=
  modify (fun st =>
    mkState (session st) (session st) (requests st) (sleeps st) (clock st)
            (uuid_calls st) (console st) (commits st ++ [session st])).

(** [conn.close()]: what was not committed is dropped. *)
Definition close : M unit :=
  modify (fun st => set_session (committed st) st).

(** A statement of the ingestors, as a function on the session. *)
Definition statement (f : DB -> DB) : M unit :=
  modify (fun st => set_session (f (session st)) st).

(** [NOW()] *)
Definition NOW : M Z := gets clock.

(** [time.sleep(seconds)] *)
Definition sleep (seconds : Z) : M unit :=
  modify (fun st =>
    mkState (committed st) (session st) (requests st)
            (sleeps st ++ [seconds]) (clock st + seconds)
            (uuid_calls st) (console st) (commits st)).

Definition logger (ev : Event) : M unit :=
  modify (fun st =>
    mkState (committed st) (session st) (requests st) (sleeps st) (clock st)
            (uuid_calls st) (console st ++ [ev]) (commits st)).

(** [str(uuid.uuid4())] *)
Definition new_uuid (env : Env) : M string :=
  fun st =>
    (Ok (uuid4 env (uuid_calls st)),
     mkState (committed st) (session st) (requests st) (sleeps st) (clock st)
             (S (uuid_calls st)) (console st) (commits st)).

Fixpoint traverse {A B} (f : A -> result B) (l : list A) : result (list B) :=
  match l with
  | [] => Ok []
  | x :: l' =>
      let? y := f x in
      let? ys := traverse f l' in
      Ok (y :: ys)
  end.

(** ** api_ingestor.py *)

Module TicketmasterIngestor.

(** The attributes [__init__] sets. *)
Record Ingestor : Type := mkIngestor {
  api_key : string;
  batch_size : Z
}.

(** tenacity's [wait_exponential(multiplier=1, max, exp_base=2, min)]:
    [max(max(0, min), min(multiplier * exp_base ** (attempt_number - 1), max))]. *)
Definition wait_exponential (min_ max_ : Z) (attempt_number : Z) : Z :=
  Z.max (Z.max 0 min_) (Z.min (1 * 2 ^ (attempt_number - 1)) max_).

(** [response.raise_for_status()]: an [HTTPError] for a 4xx or 5xx status.
    The reason phrase and the URL of the message are left out. *)
Definition raise_for_status (status_code : Z) : result unit :=
  if (400 <=? status_code)%Z && (status_code <? 500)%Z then
    Raise (Exc "HTTPError" (str_int status_code ++ " Client Error"))
  else if (500 <=? status_code)%Z && (status_code <? 600)%Z then
    Raise (Exc "HTTPError" (str_int status_code ++ " Server Error"))
  else Ok tt.

Section WithEnv.
Variable env : Env.

(** [__init__]: the batch size is read before the key is checked. *)
Definition init : result Ingestor :=
  let key := env_api_key env in
  let? size := env_batch_size env in
  match key with
  | Some k =>
      if String.eqb k "" then
        Raise (Exc "ValueError" "TICKETMASTER_API_KEY not set in .env")
      else Ok (mkIngestor k size)
  | None => Raise (Exc "ValueError" "TICKETMASTER_API_KEY not set in .env")
  end.

(** The body of [fetch_events]: one attempt. *)
Definition fetch_events_body (self : Ingestor) (country_code : string)
           (page : nat) : M pyval :=
  fun st =>
    let params := mkRequest (api_key self) country_code (batch_size self)
                            page "date,asc" in
    let st' := mkState (committed st) (session st) (requests st ++ [params])
                       (sleeps st) (clock st) (uuid_calls st) (console st)
                       (commits st) in
    match requests_get env (requests st) params with
    | GetRaises e => (Raise e, st')
    | Response status_code json =>
        match raise_for_status status_code with
        | Raise e => (Raise e, st')
        | Ok _ => (json, st')
        end
    end.

(** tenacity's loop for [@retry(stop=stop_after_attempt(n), wait=w)]: an
    attempt that raises any exception is followed, after [w] seconds, by
    another one, until attempt [n] has raised; then [RetryError] is raised
    (tenacity's default, [reraise=False]).  [remaining] counts the attempts
    still allowed after this one. *)
Fixpoint retry_loop {A} (wait : Z -> Z) (remaining : nat) (attempt_number : Z)
         (body : M A) : M A :=
  fun st =>
    match body st with
    | (Ok a, st') => (Ok a, st')
    | (Raise e, st') =>
        match remaining with
        | O => (Raise (RetryError e), st')
        | S r =>
            (sleep (wait attempt_number) ;;
             retry_loop wait r (attempt_number + 1) body) st'
        end
    end.

Definition retry {A} (stop_after_attempt : nat) (wait : Z -> Z) (body : M A)
  : M A :=
  retry_loop wait (stop_after_attempt - 1) 1 body.

(** [@retry(stop=stop_after_attempt(3), wait=wait_exponential(min=2, max=10))]
    [def fetch_events(self, country_code, page)] *)
Definition fetch_events (self : Ingestor) (country_code : string) (page : nat)
  : M pyval :=
  retry 3 (wait_exponential 2 10) (fetch_events_body self country_code page).

Definition empty_dict : pyval := PDict [].
Definition one_empty_dict : pyval := PList [PDict []].

(** [parse_event]: the lookups in the order Python evaluates them. *)
Definition parse_event (event : pyval) : result Row :=
  let? embedded := get event "_embedded" empty_dict in
  let? venues := get embedded "venues" one_empty_dict in
  let? venue := first_or_empty venues in
  let? classifications := get event "classifications" one_empty_dict in
  let? classification := first_or_empty classifications in
  let? price_ranges := get event "priceRanges" one_empty_dict in
  let? price := first_or_empty price_ranges in
  let? dates0 := get event "dates" empty_dict in
  let? dates := get dates0 "start" empty_dict in
  let? location := get venue "location" empty_dict in
  let? r_id := get event "id" PNone in
  let r_payload := PStr (json_dumps env event) in
  let? r_name := get event "name" PNone in
  let? r_date := get dates "localDate" PNone in
  let? r_time := get dates "localTime" PNone in
  let? r_venue := get venue "name" PNone in
  let? city := get venue "city" empty_dict in
  let? r_city := get city "name" PNone in
  let? country := get venue "country" empty_dict in
  let? r_country := get country "name" PNone in
  let? r_lat := get location "latitude" PNone in
  let? r_lon := get location "longitude" PNone in
  let? segment := get classification "segment" empty_dict in
  let? r_category := get segment "name" PNone in
  let? genre := get classification "genre" empty_dict in
  let? r_subcategory := get genre "name" PNone in
  let? pmin := get price "min" (PStr "") in
  let r_price_min := PStr (str (repr_container env) pmin) in
  let? pmax := get price "max" (PStr "") in
  let r_price_max := PStr (str (repr_container env) pmax) in
  let? r_currency := get price "currency" PNone in
  let? r_url := get event "url" PNone in
  let? dates1 := get event "dates" empty_dict in
  let? status0 := get dates1 "status" empty_dict in
  let? r_status := get status0 "code" PNone in
  Ok (mkRow (PStr "ticketmaster") r_id r_payload r_name r_date r_time
            r_venue r_city r_country r_lat r_lon r_category r_subcategory
            r_price_min r_price_max r_currency r_url r_status).

(** [load_to_raw(conn, rows, run_id)] *)
Definition load_to_raw (rows : list Row) (run_id : string) : M nat :=
  match rows with
  | [] => ret 0
  | _ =>
      statement (fun d => set_events (execute_batch (events d) rows 50) d) ;;
      commit ;;
      ret (List.length rows)
  end.

(** [page >= total_pages - 1] *)
Definition at_last_page (page : nat) (total_pages : pyval) : result bool :=
  match total_pages with
  | PInt t => Ok (t - 1 <=? Z.of_nat page)%Z
  | PBool b => Ok ((if b then 1 else 0) - 1 <=? Z.of_nat page)%Z
  | PFloat f => Ok (float_pred_le env f (Z.of_nat page))
  | v => Raise (Exc "TypeError"
                    ("unsupported operand type(s) for -: '" ++ type_name v
                     ++ "' and 'int'"))
  end.

(** The [for page in range(max_pages)] loop of [run], [pages] being the
    indexes still to come; the result is [total_loaded]. *)
Fixpoint page_loop (self : Ingestor) (country_code run_id : string)
         (pages : list nat) (total_loaded : nat) : M nat :=
  match pages with
  | [] => ret total_loaded
  | page :: rest =>
      data <- fetch_events self country_code page ;;
      embedded <- lift (get data "_embedded" empty_dict) ;;
      events <- lift (get embedded "events" (PList [])) ;;
      if negb (truthy events) then ret total_loaded       (* break *)
      else
        items <- lift (iter events) ;;
        rows <- lift (traverse parse_event items) ;;
        loaded <- load_to_raw rows run_id ;;
        let total_loaded := total_loaded + loaded in
        page_info <- lift (get data "page" empty_dict) ;;
        total_pages <- lift (get page_info "totalPages" (PInt 1)) ;;
        last <- lift (at_last_page page total_pages) ;;
        if last then ret total_loaded                     (* break *)
        else page_loop self country_code run_id rest total_loaded
  end.

(** [range(n)] *)
Definition range (n : Z) : list nat := seq 0 (Z.to_nat n).

Definition log_start (run_id : string) : DB -> DB :=
  fun d => set_ingestion_log
             (ingestion_log d ++
              [mkRun run_id "ticketmaster" None None running None None]) d.

Definition log_success (run_id : string) (now : Z) (total_loaded : nat)
  : DB -> DB :=
  fun d => set_ingestion_log
             (update_where_run_id run_id
                (fun r => mkRun (log_run_id r) (log_source r)
                                (log_records_fetched r) (Some total_loaded)
                                success (log_error_message r) (Some now))
                (ingestion_log d)) d.

Definition log_failed (run_id : string) (now : Z) (message : string)
  : DB -> DB :=
  fun d => set_ingestion_log
             (update_where_run_id run_id
                (fun r => mkRun (log_run_id r) (log_source r)
                                (log_records_fetched r) (log_records_loaded r)
                                failed (Some message) (Some now))
                (ingestion_log d)) d.

(** [run(self, country_code, max_pages)] *)
Definition run (self : Ingestor) (country_code : string) (max_pages : Z)
  : M nat :=
  run_id <- new_uuid env ;;
  get_db_connection ;;
  statement (log_start run_id) ;;
  commit ;;
  finally
    (try_except
       (total_loaded <- page_loop self country_code run_id (range max_pages) 0 ;;
        now <- NOW ;;
        statement (log_success run_id now total_loaded) ;;
        commit ;;
        ret total_loaded)
       (fun e =>
          now <- NOW ;;
          statement (log_failed run_id now (exn_str e)) ;;
          commit ;;
          raise e))
    close.

End WithEnv.
End TicketmasterIngestor.

(** ** csv_ingestor.py *)

Module CsvIngestor.

(** [row.get(label, default)] on the row of [df.iterrows()] whose cells are
    [cells]: the cell under [label], or [default] when the frame has no
    such column. *)
Definition row_get (cols : list string) (cells : list pyval)
           (label : string) (default : pyval) : pyval :=
  match lookup label (combine cols cells) with
  | Some v => v
  | None => default
  end.

Section WithEnv.
Variable env : Env.

Definition str_ (v : pyval) : pyval := PStr (str (repr_container env) v).

(** The dictionary appended to [rows] for one row of the frame
    (lines 98-117). *)
Definition row_dict (cols : list string) (cells : list pyval) : Row :=
  let row_get := row_get cols cells in
  mkRow (PStr "csv")
        (str_ (row_get "event_id" (PStr "")))
        PNone
        (row_get "event_name" PNone)
        (str_ (row_get "event_date" (PStr "")))
        (str_ (row_get "event_time" (PStr "")))
        (row_get "venue_name" PNone)
        (row_get "venue_city" PNone)
        (row_get "venue_country" PNone)
        (row_get "venue_lat" PNone)
        (row_get "venue_lon" PNone)
        (row_get "category" PNone)
        (row_get "subcategory" PNone)
        (str_ (row_get "price_min" (PStr "")))
        (str_ (row_get "price_max" (PStr "")))
        (row_get "currency" PNone)
        (row_get "url" PNone)
        (row_get "status" PNone).

(** Lines 93-117: read the file and build [rows].  Lines 93-97 are calls
    into pandas: [pd.read_csv], [df.where(pd.notnull(df), None)] and
    [df.iterrows()].  What they yield is taken as given: the frame [df] of
    [read_csv env] holds, row by row, the cells as [row.get] finds them in
    the loop.  Which types the cells have, and which null cells line 94
    has turned into [None] and which it has left NaN (it leaves NaN in the
    columns pandas types as numbers, whatever the comment on that line
    says), is decided by pandas and not by this code. *)
Definition build_rows (csv_path : string) : result (list Row) :=
  let? df := read_csv env csv_path in
  Ok (map (row_dict (columns df)) (data df)).

Definition log_run (run_id : string) (now : Z) (n : nat) : DB -> DB :=
  fun d => set_ingestion_log
             (ingestion_log d ++
              [mkRun run_id "csv" (Some n) (Some n) success None (Some now)]) d.

(** [CsvIngestor(csv_path).run()] *)
Definition run (csv_path : string) : M nat :=
  run_id <- new_uuid env ;;
  rows <- lift (build_rows csv_path) ;;
  get_db_connection ;;
  statement (fun d => set_events (execute_batch (events d) rows 100) d) ;;
  now <- NOW ;;
  statement (log_run run_id now (List.length rows)) ;;
  commit ;;
  close ;;
  ret (List.length rows).

End WithEnv.
End CsvIngestor.

(** ** run_pipeline.py *)

Module Pipeline.

(** The command line of [main].  [--generate-sample], which rewrites the
    CSV file from random data before anything else, is not modelled. *)
Record Args : Type := mkArgs {
  arg_source : string;
  arg_csv_path : string;
  arg_skip_ingest : bool
}.

(** The [queries] dict of [print_pipeline_summary], in insertion order. *)
Definition queries : list (string * string) :=
  [ ("Total raw events", "SELECT COUNT(*) FROM raw.events");
    ("Unprocessed raw events",
     "SELECT COUNT(*) FROM raw.events WHERE is_processed = FALSE");
    ("Fact events loaded", "SELECT COUNT(*) FROM warehouse.fact_events");
    ("Unique venues", "SELECT COUNT(*) FROM warehouse.dim_venue");
    ("Unique categories", "SELECT COUNT(*) FROM warehouse.dim_category");
    ("Quality checks run", "SELECT COUNT(*) FROM raw.quality_log");
    ("Failed quality checks",
     "SELECT COUNT(*) FROM raw.quality_log WHERE status = 'failed'") ].

(** [cur.fetchone()[0]] on the rows a query returned. *)
Definition fetchone_0 (rows : list (list pyval)) : result pyval :=
  match rows with
  | [] => Raise (Exc "TypeError" "'NoneType' object is not subscriptable")
  | [] :: _ => Raise (Exc "IndexError" "tuple index out of range")
  | (v :: _) :: _ => Ok v
  end.

(** The format [{result:>10,}] accepts a number only. *)
Definition format_count (v : pyval) : result pyval :=
  match v with
  | PInt _ | PBool _ | PFloat _ => Ok v
  | PStr _ => Raise (Exc "ValueError" "Cannot specify ',' with 's'.")
  | _ => Raise (Exc "TypeError"
                    ("unsupported format string passed to " ++ type_name v
                     ++ ".__format__"))
  end.

Section WithEnv.
Variable env : Env.

(** [cur.execute(text)] of an arbitrary SQL text. *)
Definition execute (text : string) : M (list (list pyval)) :=
  fun st =>
    match sql env text (session st) with
    | (r, d) => (r, set_session d st)
    end.

(** [run_sql_file(conn, sql_path)] *)
Definition run_sql_file (sql_path : string) : M unit :=
  text <- lift (read_text env sql_path) ;;
  execute text ;;
  commit ;;
  logger (Executed sql_path).

(** [create_transform_schema(conn)] *)
Definition create_transform_schema : M unit :=
  execute "CREATE SCHEMA IF NOT EXISTS transform;" ;;
  execute "CREATE SCHEMA IF NOT EXISTS reporting;" ;;
  commit.

(** One pass of the loop of [print_pipeline_summary] (lines 81-86). *)
Definition summary_query (label query : string) : M unit :=
  try_except
    (rows <- execute query ;;
     result <- lift (fetchone_0 rows) ;;
     shown <- lift (format_count result) ;;
     logger (SummaryLine label shown))
    (fun e => logger (SummaryError label e)).

Fixpoint summary_loop (qs : list (string * string)) : M unit :=
  match qs with
  | [] => ret tt
  | (label, query) :: rest => summary_query label query ;; summary_loop rest
  end.

(** [print_pipeline_summary(conn)] *)
Definition print_pipeline_summary : M unit :=
  logger Rule ;;
  logger (StepStarted Summary) ;;
  logger Rule ;;
  summary_loop queries ;;
  logger Rule.

(** [step_extract_load(source, csv_path)] *)
Definition step_extract_load (source csv_path : string) : M nat :=
  logger (ExtractLoad source) ;;
  if String.eqb source "api" then
    ingestor <- lift (TicketmasterIngestor.init env) ;;
    TicketmasterIngestor.run env ingestor "DE" 5
  else if String.eqb source "csv" then
    CsvIngestor.run env csv_path
  else raise (Exc "ValueError" ("Unknown source: " ++ source)).

Definition step_transform : M unit :=
  logger (StepStarted Transform) ;;
  create_transform_schema ;;
  run_sql_file "transform/transform_events.sql" ;;
  logger (StepDone Transform).

Definition step_load_facts : M unit :=
  logger (StepStarted LoadFacts) ;;
  run_sql_file "files/load_facts.sql" ;;
  logger (StepDone LoadFacts).

Definition step_quality_checks : M unit :=
  logger (StepStarted QualityChecks) ;;
  run_sql_file "files/data_quality.sql" ;;
  logger (StepDone QualityChecks).

Definition step_create_kpi_views : M unit :=
  logger (StepStarted CreateKpiViews) ;;
  run_sql_file "kpi_queries.sql" ;;
  logger (StepDone CreateKpiViews).

(** Lines 166-179 of [main]: the stages on one connection. *)
Definition run_stages : M unit :=
  get_db_connection ;;
  finally
    (try_except
       (step_transform ;;
        step_load_facts ;;
        step_quality_checks ;;
        step_create_kpi_views ;;
        print_pipeline_summary ;;
        logger PipelineCompleted)
       (fun e => logger (PipelineFailed e) ;; raise e))
    close.

(** [main()] *)
Definition main (args : Args) : M unit :=
  logger (PipelineStarting (arg_source args)) ;;
  (if negb (arg_skip_ingest args) then
     records <- step_extract_load (arg_source args) (arg_csv_path args) ;;
     logger (RecordsIngested records)
   else ret tt) ;;
  run_stages.

End WithEnv.
End Pipeline.

(** ** Sequences of ingestion runs *)

Inductive Job : Type :=
| CsvJob (csv_path : string)
| ApiJob (self : TicketmasterIngestor.Ingestor) (country_code : string)
         (max_pages : Z).

Definition run_job (env : Env) (j : Job) : M nat :=
  match j with
  | CsvJob csv_path => CsvIngestor.run env csv_path
  | ApiJob self country_code max_pages =>
      TicketmasterIngestor.run env self country_code max_pages
  end.

(** The state after the jobs have run one after the other, whether they
    returned or raised. *)
Definition run_jobs (env : Env) (jobs : list Job) (st : State) : State :=
  fold_left (fun st j => snd (run_job env j st)) jobs st.

(** ** Concrete environments for the examples *)

Module Examples.

Definition no_file (path : string) : result DataFrame :=
  Raise (Exc "FileNotFoundError"
             ("[Errno 2] No such file or directory: '" ++ path ++ "'")).

(** An environment with the given remote API and files; every SQL text
    runs and returns one row with a zero count. *)
Definition example_env (server : list Request -> Request -> http_outcome)
           (files : string -> result DataFrame) : Env :=
  mkEnv (Some "k3y") (Ok 100%Z) server files
        (fun _ => Ok "SELECT 1;")
        (fun _ d => (Ok [[PInt 0]], d))
        (fun n => "run-" ++ str_int (Z.of_nat n))
        (fun _ => "<json>")
        (fun _ => "<repr>")
        (fun _ _ => true).

Definition ingestor : TicketmasterIngestor.Ingestor :=
  TicketmasterIngestor.mkIngestor "k3y" 100.

(** A server that answers 503 to everything. *)
Definition unavailable : list Request -> Request -> http_outcome :=
  fun _ _ => Response 503 (Raise (Exc "JSONDecodeError" "Expecting value")).

(** A server that answers 302 with an empty JSON object as body. *)
Definition redirecting : list Request -> Request -> http_outcome :=
  fun _ _ => Response 302 (Ok (PDict [])).

(** The body of a page: its events and the reported number of pages. *)
Definition page_of (evs : list pyval) (total_pages : Z) : pyval :=
  PDict [("_embedded", PDict [("events", PList evs)]);
         ("page", PDict [("totalPages", PInt total_pages)])].

Definition event_E1 : pyval := PDict [("id", PStr "E1"); ("name", PStr "Concert")].
Definition event_E2 : pyval := PDict [("id", PStr "E2"); ("name", PStr "Match")].

(** A server that serves page 0 of 3 and then answers 503. *)
Definition fails_after_first : list Request -> Request -> http_outcome :=
  fun _ req =>
    if Nat.eqb (page req) 0 then Response 200 (Ok (page_of [event_E1] 3))
    else Response 503 (Raise (Exc "JSONDecodeError" "Expecting value")).

(** A server with two pages of one event each. *)
Definition two_pages : list Request -> Request -> http_outcome :=
  fun _ req =>
    match page req with
    | 0 => Response 200 (Ok (page_of [event_E1] 2))
    | 1 => Response 200 (Ok (page_of [event_E2] 2))
    | _ => Response 200 (Ok (page_of [] 2))
    end.

(** A server that reports ten pages but has events on page 0 only, and
    whose first reply to any request is a timeout. *)
Definition flaky_one_page : list Request -> Request -> http_outcome :=
  fun history req =>
    match history with
    | [] => GetRaises (Exc "ReadTimeout" "Read timed out.")
    | _ =>
        match page req with
        | 0 => Response 200 (Ok (page_of [event_E1] 10))
        | _ => Response 200 (Ok (page_of [] 10))
        end
    end.

End Examples.

(** * Properties *)

Open Scope list_scope.

(** ** The staging table *)

Section Staging.

Definition insert_all (t : list Row) (rows : list Row) : list Row :=
  fold_left insert_on_conflict_do_nothing rows t.

Lemma paginate_fuel_concat {A} (page_size : nat) :
  0 < page_size ->
  forall fuel (l : list A),
    List.length l <= fuel -> List.concat (paginate_fuel fuel page_size l) = l.
Proof.
  intros Hp fuel; induction fuel as [|f IH]; intros l Hl.
  - destruct l; simpl in *; [reflexivity|lia].
  - destruct l as [|x l']; [reflexivity|].
    cbn [paginate_fuel List.concat].
    rewrite IH.
    + apply firstn_skipn.
    + rewrite length_skipn. simpl in *.
      destruct page_size; [lia|]. simpl. lia.
Qed.

Lemma paginate_concat {A} (page_size : nat) (l : list A) :
  0 < page_size -> List.concat (paginate page_size l) = l.
Proof. intros Hp. apply paginate_fuel_concat; auto. Qed.

Lemma fold_left_concat {A B} (f : A -> B -> A) (ls : list (list B)) :
  forall a, fold_left (fun a page => fold_left f page a) ls a
            = fold_left f (List.concat ls) a.
Proof.
  induction ls as [|p ls IH]; intros a; simpl; [reflexivity|].
  rewrite fold_left_app. apply IH.
Qed.

(** Paging does not change what a batch does to the table. *)
Lemma execute_batch_insert_all (t rows : list Row) (page_size : nat) :
  0 < page_size -> execute_batch t rows page_size = insert_all t rows.
Proof.
  intros Hp. unfold execute_batch, insert_all.
  rewrite fold_left_concat, paginate_concat; auto.
Qed.

Lemma has_key_In (k : pyval * pyval) (t : list Row) :
  has_key k t = true <-> In k (map key t).
Proof.
  unfold has_key. rewrite existsb_exists, in_map_iff. split.
  - intros [r [Hin Hk]]. exists r. destruct (key_eq_dec k (key r)); [auto|discriminate].
  - intros [r [Hk Hin]]. exists r. split; [assumption|].
    destruct (key_eq_dec k (key r)); congruence.
Qed.

Lemma insert_keeps_key (k : pyval * pyval) (t : list Row) (r : Row) :
  has_key k t = true -> has_key k (insert_on_conflict_do_nothing t r) = true.
Proof.
  unfold insert_on_conflict_do_nothing. intros H.
  destruct (has_key (key r) t); [assumption|].
  apply has_key_In. rewrite map_app, in_app_iff. left. apply has_key_In, H.
Qed.

Lemma insert_has_key (t : list Row) (r : Row) :
  has_key (key r) (insert_on_conflict_do_nothing t r) = true.
Proof.
  unfold insert_on_conflict_do_nothing.
  destruct (has_key (key r) t) eqn:E; [assumption|].
  apply has_key_In. rewrite map_app, in_app_iff. right. simpl. auto.
Qed.

Lemma insert_all_keeps_key (k : pyval * pyval) (rows : list Row) :
  forall t, has_key k t = true -> has_key k (insert_all t rows) = true.
Proof.
  induction rows as [|r rows IH]; intros t H; simpl; [assumption|].
  apply IH, insert_keeps_key, H.
Qed.

Lemma insert_all_has_keys (rows : list Row) :
  forall t, Forall (fun r => has_key (key r) (insert_all t rows) = true) rows.
Proof.
  induction rows as [|r rows IH]; intros t; constructor.
  - simpl. apply insert_all_keeps_key, insert_has_key.
  - apply IH.
Qed.

(** Rows whose keys are all present leave the table as it is. *)
Lemma insert_all_present (rows : list Row) :
  forall t, Forall (fun r => has_key (key r) t = true) rows ->
            insert_all t rows = t.
Proof.
  induction rows as [|r rows IH]; intros t H; [reflexivity|].
  inversion H as [|? ? Hr Hrest]; subst.
  change (insert_all (insert_on_conflict_do_nothing t r) rows = t).
  unfold insert_on_conflict_do_nothing. rewrite Hr. apply IH, Hrest.
Qed.

Lemma insert_all_twice (t rows : list Row) :
  insert_all (insert_all t rows) rows = insert_all t rows.
Proof. apply insert_all_present, insert_all_has_keys. Qed.

Definition unique_keys (t : list Row) : Prop := NoDup (map key t).

Lemma insert_unique (t : list Row) (r : Row) :
  unique_keys t -> unique_keys (insert_on_conflict_do_nothing t r).
Proof.
  unfold unique_keys, insert_on_conflict_do_nothing. intros H.
  destruct (has_key (key r) t) eqn:E; [assumption|].
  rewrite map_app. simpl.
  apply NoDup_rev in H. rewrite <- (rev_involutive (map key t ++ [key r])).
  apply NoDup_rev. rewrite rev_app_distr. simpl. constructor; [|assumption].
  rewrite <- in_rev. intros Hin. apply has_key_In in Hin. congruence.
Qed.

Lemma insert_all_unique (rows : list Row) :
  forall t, unique_keys t -> unique_keys (insert_all t rows).
Proof.
  induction rows as [|r rows IH]; intros t H; simpl; [assumption|].
  apply IH, insert_unique, H.
Qed.

Lemma execute_batch_unique (t rows : list Row) (page_size : nat) :
  0 < page_size -> unique_keys t -> unique_keys (execute_batch t rows page_size).
Proof.
  intros Hp H. rewrite execute_batch_insert_all by assumption.
  apply insert_all_unique, H.
Qed.

End Staging.

(** ** Invariants of computations *)

Section Preservation.

(** [m] keeps [I]: it holds in the state [m] leaves, whether [m] returns
    or raises. *)
Definition preserves {A} (I : State -> Prop) (m : M A) : Prop :=
  forall st, I st -> I (snd (m st)).

Variable I : State -> Prop.

Lemma preserves_ret {A} (a : A) : preserves I (ret a).
Proof. intros st H; exact H. Qed.

Lemma preserves_lift {A} (r : result A) : preserves I (lift r).
Proof. intros st H; exact H. Qed.

Lemma preserves_bind {A B} (m : M A) (k : A -> M B) :
  preserves I m -> (forall a, preserves I (k a)) -> preserves I (bind m k).
Proof.
  intros Hm Hk st H. unfold bind. specialize (Hm st H).
  destruct (m st) as [[a|e] st']; simpl in *; [apply Hk, Hm|exact Hm].
Qed.

Lemma preserves_if {A} (b : bool) (m1 m2 : M A) :
  preserves I m1 -> preserves I m2 -> preserves I (if b then m1 else m2).
Proof. destruct b; auto. Qed.

End Preservation.

(** ** One page fetch and its retries *)

Section Fetch.
Variable env : Env.
Variable self : TicketmasterIngestor.Ingestor.
Variable country_code : string.

Import TicketmasterIngestor.

Definition params (page : nat) : Request :=
  mkRequest (api_key self) country_code (batch_size self) page "date,asc".

(** What the attempt made after the requests [history] gives. *)
Definition attempt (history : list Request) (page : nat) : result pyval :=
  match requests_get env history (params page) with
  | GetRaises e => Raise e
  | Response status_code json =>
      match raise_for_status status_code with
      | Raise e => Raise e
      | Ok _ => json
      end
  end.

(** The state after some requests and sleeps, the database untouched. *)
Definition after_io (reqs : list Request) (naps : list Z) (st : State) : State :=
  mkState (committed st) (session st) (requests st ++ reqs)
          (sleeps st ++ naps) (clock st + fold_right Z.add 0%Z naps)%Z
          (uuid_calls st) (console st) (commits st).

Lemma after_io_after_io (r1 r2 : list Request) (n1 n2 : list Z) (st : State) :
  after_io r2 n2 (after_io r1 n1 st) = after_io (r1 ++ r2) (n1 ++ n2) st.
Proof.
  unfold after_io. simpl. rewrite <- !app_assoc. f_equal.
  induction n1 as [|x n1 IH]; simpl; lia.
Qed.

Lemma fetch_events_body_eq (page : nat) (st : State) :
  fetch_events_body env self country_code page st
  = (attempt (requests st) page, after_io [params page] [] st).
Proof.
  unfold fetch_events_body, attempt, after_io, params. simpl.
  rewrite app_nil_r, Z.add_0_r.
  destruct (requests_get env _ _) as [e|code body]; [reflexivity|].
  destruct (raise_for_status code); reflexivity.
Qed.

(** The waits after attempts [n], [n+1], ..., [k] of them. *)
Definition waits (wait : Z -> Z) (n : Z) (k : nat) : list Z :=
  map (fun i => wait (n + Z.of_nat i)%Z) (seq 0 k).

Lemma waits_S (wait : Z -> Z) (n : Z) (k : nat) :
  waits wait n (S k) = wait n :: waits wait (n + 1) k.
Proof.
  unfold waits. simpl. rewrite Z.add_0_r. f_equal.
  rewrite <- seq_shift, map_map. apply map_ext. intros i. f_equal. lia.
Qed.

(** The retry loop makes [k] attempts, [1 <= k <= remaining + 1], all for
    the same page, sleeping between them and touching nothing else; every
    attempt but the last one raised; it returns what the last attempt
    returned, or, when that raised too, [k = remaining + 1] and the
    exception is a [RetryError] around the last one. *)
Lemma retry_loop_attempts (wait : Z -> Z) (page : nat) :
  forall remaining n st,
  exists k,
    1 <= k <= S remaining
    /\ snd (retry_loop wait remaining n
              (fetch_events_body env self country_code page) st)
       = after_io (repeat (params page) k) (waits wait n (k - 1)) st
    /\ (forall i, i < k - 1 ->
          is_ok (attempt (requests st ++ repeat (params page) i) page) = false)
    /\ match attempt (requests st ++ repeat (params page) (k - 1)) page with
       | Ok data =>
           fst (retry_loop wait remaining n
                  (fetch_events_body env self country_code page) st) = Ok data
       | Raise last =>
           k = S remaining
           /\ fst (retry_loop wait remaining n
                     (fetch_events_body env self country_code page) st)
              = Raise (RetryError last)
       end.
Proof.
  induction remaining as [|r IH]; intros n st.
  - exists 1. cbn [retry_loop]. rewrite fetch_events_body_eq.
    cbn [repeat Nat.sub app]. rewrite app_nil_r.
    destruct (attempt (requests st) page) as [data|e]; cbn [fst snd];
      (repeat split; [lia|lia|intros i Hi; lia|..]); auto.
  - cbn [retry_loop]. rewrite fetch_events_body_eq.
    destruct (attempt (requests st) page) as [data|e] eqn:E.
    + exists 1. cbn [repeat Nat.sub app fst snd]. rewrite app_nil_r, E.
      repeat split; [lia|lia|intros i Hi; lia].
    + unfold bind, sleep, modify.
      set (st1 := mkState _ _ _ _ _ _ _ _).
      destruct (IH (n + 1)%Z st1) as [k [Hk [Hst [Hfail Hlast]]]].
      exists (S k).
      assert (Hreq : requests st1 = (requests st ++ [params page])%list)
        by reflexivity.
      assert (Hst1 : st1 = after_io [params page] [wait n] st).
      { unfold st1, after_io. simpl. rewrite app_nil_r, !Z.add_0_r.
        reflexivity. }
      split; [lia|]. split.
      { rewrite Hst, Hst1, after_io_after_io.
        replace (S k - 1) with (S (k - 1)) by lia. rewrite waits_S.
        reflexivity. }
      split.
      { intros i Hi. destruct i as [|i].
        - simpl. rewrite app_nil_r, E. reflexivity.
        - specialize (Hfail i ltac:(lia)). rewrite Hreq in Hfail.
          rewrite <- app_assoc in Hfail. exact Hfail. }
      replace (S k - 1) with (S (k - 1)) by lia.
      rewrite Hreq, <- app_assoc in Hlast. cbn [repeat app] in *.
      destruct (attempt (requests st ++ params page :: repeat (params page) (k - 1))%list page);
        [exact Hlast|].
      destruct Hlast as [Hk' Hr]. split; [lia|exact Hr].
Qed.

End Fetch.

(** ** Invariants of the page loop and of the runs *)

Section RunInvariants.
Variable env : Env.
Import TicketmasterIngestor.

(** [I] does not look at the requests, the sleeps or the clock. *)
Definition data_only (I : State -> Prop) : Prop :=
  forall st st',
    committed st' = committed st -> session st' = session st ->
    commits st' = commits st -> console st' = console st ->
    uuid_calls st' = uuid_calls st -> I st -> I st'.

Lemma fetch_events_preserves (I : State -> Prop) self country_code page :
  data_only I -> preserves I (fetch_events env self country_code page).
Proof.
  intros HI st H. unfold fetch_events, retry.
  destruct (retry_loop_attempts env self country_code (wait_exponential 2 10)
              page (3 - 1) 1 st) as [k [_ [-> _]]].
  revert H. apply HI; reflexivity.
Qed.

Lemma preserves_bind_lift (I : State -> Prop) {A B} (r : result A)
      (k : A -> M B) :
  (forall a, r = Ok a -> preserves I (k a)) -> preserves I (bind (lift r) k).
Proof.
  intros Hk st H. unfold bind, lift. destruct r as [a|e]; [|exact H].
  apply (Hk a eq_refl), H.
Qed.

(** An invariant of the loads of parsed pages is an invariant of the
    loop; [P] is any property that the rows of [parse_event] have. *)
Lemma page_loop_preserves_rows (I : State -> Prop) (P : list Row -> Prop)
      self country_code run_id :
  data_only I ->
  (forall items rows, traverse (parse_event env) items = Ok rows -> P rows) ->
  (forall rows, P rows -> preserves I (load_to_raw rows run_id)) ->
  forall pages total,
    preserves I (page_loop env self country_code run_id pages total).
Proof.
  intros HI HP Hload pages.
  induction pages as [|p rest IH]; intros total; simpl.
  - apply preserves_ret.
  - apply preserves_bind; [apply fetch_events_preserves, HI|intros data].
    apply preserves_bind; [apply preserves_lift|intros embedded].
    apply preserves_bind; [apply preserves_lift|intros evs].
    apply preserves_if; [apply preserves_ret|].
    apply preserves_bind; [apply preserves_lift|intros items].
    apply preserves_bind_lift. intros rows Hrows.
    apply preserves_bind; [apply Hload, (HP items), Hrows|intros loaded].
    apply preserves_bind; [apply preserves_lift|intros page_info].
    apply preserves_bind; [apply preserves_lift|intros total_pages].
    apply preserves_bind; [apply preserves_lift|intros last].
    apply preserves_if; [apply preserves_ret|apply IH].
Qed.

Lemma page_loop_preserves (I : State -> Prop) self country_code run_id :
  data_only I ->
  (forall rows, preserves I (load_to_raw rows run_id)) ->
  forall pages total,
    preserves I (page_loop env self country_code run_id pages total).
Proof.
  intros HI Hload.
  apply (page_loop_preserves_rows I (fun _ => True)); auto.
Qed.

(** The state in which the page loop starts: the run has drawn its id,
    opened its connection and committed its record, in status running. *)
Definition started (st : State) : State :=
  let d := log_start (uuid4 env (uuid_calls st)) (committed st) in
  mkState d d (requests st) (sleeps st) (clock st) (S (uuid_calls st))
          (console st) (commits st ++ [d]).

(** The state a run leaves: the statement [f] on the log, committed, and
    the connection closed. *)
Definition finished (f : DB -> DB) (st : State) : State :=
  let d := f (session st) in
  mkState d d (requests st) (sleeps st) (clock st) (uuid_calls st)
          (console st) (commits st ++ [d]).

(** [run] is the page loop between [started] and [finished]. *)
Lemma run_eq self country_code max_pages (st : State) :
  run env self country_code max_pages st
  = let run_id := uuid4 env (uuid_calls st) in
    match page_loop env self country_code run_id (range max_pages) 0
                    (started st) with
    | (Ok total_loaded, st1) =>
        (Ok total_loaded,
         finished (log_success run_id (clock st1) total_loaded) st1)
    | (Raise e, st1) =>
        (Raise e, finished (log_failed run_id (clock st1) (exn_str e)) st1)
    end.
Proof.
  unfold run, bind at 1, new_uuid. cbn [fst snd].
  unfold bind at 1, get_db_connection, modify.
  unfold bind at 1, statement, modify.
  unfold bind at 1, commit, modify.
  unfold finally, try_except. unfold bind at 1.
  cbn [committed session requests sleeps clock uuid_calls console commits
       set_session].
  fold (started st).
  destruct (page_loop env self country_code _ (range max_pages) 0 (started st))
    as [[total|e] st1]; reflexivity.
Qed.

(** *** Unique keys *)

(** The key invariant, on the open session and on the committed data. *)
Definition staging_unique (st : State) : Prop :=
  unique_keys (events (session st)) /\ unique_keys (events (committed st)).

Lemma staging_unique_data_only : data_only staging_unique.
Proof. intros st st' Hc Hs _ _ _ H. unfold staging_unique. rewrite Hc, Hs. exact H. Qed.

Lemma unique_load_to_raw rows run_id :
  preserves staging_unique (load_to_raw rows run_id).
Proof.
  intros st [Hs Hc]. destruct rows as [|r rows]; [split; assumption|].
  unfold load_to_raw, bind, statement, commit, modify, ret, staging_unique.
  cbn [snd session committed set_session events set_events].
  split; apply execute_batch_unique; auto; lia.
Qed.

Lemma unique_api_run self country_code max_pages :
  preserves staging_unique (run env self country_code max_pages).
Proof.
  intros st [_ Hc]. rewrite run_eq. cbv zeta.
  assert (H0 : staging_unique (started st)) by (split; exact Hc).
  pose proof (page_loop_preserves staging_unique self country_code
                (uuid4 env (uuid_calls st)) staging_unique_data_only
                (fun rows => unique_load_to_raw rows _)
                (range max_pages) 0 (started st) H0) as [Hs1 _].
  destruct (page_loop env self country_code _ _ 0 (started st))
    as [[total|e] st1]; split; exact Hs1.
Qed.

Lemma unique_csv_run csv_path :
  preserves staging_unique (CsvIngestor.run env csv_path).
Proof.
  intros st [Hs Hc]. unfold CsvIngestor.run, bind, new_uuid, lift.
  destruct (CsvIngestor.build_rows env csv_path) as [rows|e];
    [|split; assumption].
  split; apply execute_batch_unique; auto; lia.
Qed.

Lemma unique_run_jobs (jobs : list Job) :
  forall st, staging_unique st -> staging_unique (run_jobs env jobs st).
Proof.
  induction jobs as [|j jobs IH]; intros st H; simpl; [exact H|].
  apply IH. destruct j; [apply unique_csv_run|apply unique_api_run]; exact H.
Qed.

(** *** Durability *)

(** Every database committed since the [n]-th commit is contained, row by
    row, in the one committed now, and the session has lost none of the
    committed rows. *)
Definition durable (n : nat) (st : State) : Prop :=
  n <= List.length (commits st)
  /\ Forall (fun d => incl (events d) (events (committed st)))
            (skipn n (commits st))
  /\ incl (events (committed st)) (events (session st)).

Lemma durable_data_only n : data_only (durable n).
Proof. intros st st' Hc Hs Hh _ _ H. unfold durable. rewrite Hc, Hs, Hh. exact H. Qed.

Lemma insert_all_incl (rows : list Row) :
  forall t, incl t (insert_all t rows).
Proof.
  induction rows as [|r rows IH]; intros t; simpl; [apply incl_refl|].
  apply incl_tran with (insert_on_conflict_do_nothing t r); [|apply IH].
  unfold insert_on_conflict_do_nothing.
  destruct (has_key (key r) t); [apply incl_refl|apply incl_appl, incl_refl].
Qed.

Lemma durable_commit n (st : State) (d : DB) :
  durable n st -> incl (events (session st)) (events d) ->
  durable n (mkState d d (requests st) (sleeps st) (clock st) (uuid_calls st)
                     (console st) (commits st ++ [d])).
Proof.
  intros [Hn [Hall Hs]] Hd. unfold durable. cbn [commits committed session].
  split; [rewrite length_app; lia|]. split; [|apply incl_refl].
  rewrite skipn_app. replace (n - List.length (commits st)) with 0 by lia.
  apply Forall_app. split.
  - eapply Forall_impl; [|exact Hall]. intros d' Hd'.
    eapply incl_tran; [exact Hd'|]. eapply incl_tran; [exact Hs|exact Hd].
  - simpl. constructor; [apply incl_refl|constructor].
Qed.

Lemma durable_load_to_raw n rows run_id :
  preserves (durable n) (load_to_raw rows run_id).
Proof.
  intros st H. destruct rows as [|r rows]; [exact H|].
  unfold load_to_raw, bind, statement, commit, modify, ret.
  cbn [snd session committed set_session requests sleeps clock uuid_calls
       console commits].
  apply durable_commit; [exact H|]. cbn [events set_events].
  rewrite execute_batch_insert_all by lia. apply insert_all_incl.
Qed.

(** The rows [R] are in the committed table and in the session. *)
Definition keeps (R : list Row) (st : State) : Prop :=
  incl R (events (committed st)) /\ incl R (events (session st)).

Lemma keeps_data_only R : data_only (keeps R).
Proof. intros st st' Hc Hs _ _ _ H. unfold keeps. rewrite Hc, Hs. exact H. Qed.

Lemma keeps_load_to_raw R rows run_id :
  preserves (keeps R) (load_to_raw rows run_id).
Proof.
  intros st [Hc Hs]. destruct rows as [|r rows]; [split; assumption|].
  unfold load_to_raw, bind, statement, commit, modify, ret, keeps.
  cbn [snd session committed set_session events set_events].
  rewrite execute_batch_insert_all by lia.
  split; (eapply incl_tran; [exact Hs|apply insert_all_incl]).
Qed.

(** *** Nothing pending, and the log during the loop *)

Definition nothing_pending (st : State) : Prop := session st = committed st.

Lemma nothing_pending_data_only : data_only nothing_pending.
Proof. intros st st' Hc Hs _ _ _ H. unfold nothing_pending. rewrite Hc, Hs. exact H. Qed.

Lemma nothing_pending_load_to_raw rows run_id :
  preserves nothing_pending (load_to_raw rows run_id).
Proof. intros st H. destruct rows; [exact H|reflexivity]. Qed.

Definition log_is (l : list RunRecord) (st : State) : Prop :=
  ingestion_log (session st) = l.

Lemma log_is_data_only l : data_only (log_is l).
Proof. intros st st' _ Hs _ _ _ H. unfold log_is. rewrite Hs. exact H. Qed.

Lemma log_is_load_to_raw l rows run_id :
  preserves (log_is l) (load_to_raw rows run_id).
Proof. intros st H. destruct rows; exact H. Qed.

(** What holds when the page loop of a run ends, one way or the other. *)
Lemma page_loop_end self country_code max_pages (st : State) :
  let run_id := uuid4 env (uuid_calls st) in
  let st1 := snd (page_loop env self country_code run_id (range max_pages) 0
                            (started st)) in
  durable (List.length (commits st)) st1
  /\ keeps (events (committed st)) st1
  /\ nothing_pending st1
  /\ log_is (ingestion_log (committed st) ++
             [mkRun run_id "ticketmaster" None None running None None]) st1.
Proof.
  cbv zeta. split; [|split; [|split]].
  - apply page_loop_preserves.
    + apply durable_data_only.
    + intros rows. apply durable_load_to_raw.
    + unfold durable, started. cbn [commits committed session].
      split; [rewrite length_app; lia|]. split; [|apply incl_refl].
      rewrite skipn_app, skipn_all, Nat.sub_diag. simpl.
      constructor; [apply incl_refl|constructor].
  - apply page_loop_preserves.
    + apply keeps_data_only.
    + intros rows. apply keeps_load_to_raw.
    + split; apply incl_refl.
  - apply page_loop_preserves.
    + apply nothing_pending_data_only.
    + intros rows. apply nothing_pending_load_to_raw.
    + reflexivity.
  - apply page_loop_preserves.
    + apply log_is_data_only.
    + intros rows. apply log_is_load_to_raw.
    + reflexivity.
Qed.

End RunInvariants.

(** ** What one run of the file ingestor does *)

Section CsvRun.
Variable env : Env.

(** The database a successful run commits. *)
Definition csv_committed (st : State) (rows : list Row) : DB :=
  CsvIngestor.log_run (uuid4 env (uuid_calls st)) (clock st) (List.length rows)
    (set_events (execute_batch (events (committed st)) rows 100) (committed st)).

Lemma csv_run_ok {csv_path : string} {rows : list Row} (st : State) :
  CsvIngestor.build_rows env csv_path = Ok rows ->
  CsvIngestor.run env csv_path st
  = (Ok (List.length rows),
     mkState (csv_committed st rows) (csv_committed st rows) (requests st)
             (sleeps st) (clock st) (S (uuid_calls st)) (console st)
             (commits st ++ [csv_committed st rows])).
Proof.
  intros H. unfold CsvIngestor.run, bind, new_uuid, lift. rewrite H.
  reflexivity.
Qed.

Lemma csv_run_raise {csv_path : string} {e : Exn} (st : State) :
  CsvIngestor.build_rows env csv_path = Raise e ->
  CsvIngestor.run env csv_path st
  = (Raise e,
     mkState (committed st) (session st) (requests st) (sleeps st) (clock st)
             (S (uuid_calls st)) (console st) (commits st)).
Proof.
  intros H. unfold CsvIngestor.run, bind, new_uuid, lift. rewrite H.
  reflexivity.
Qed.

Lemma csv_run_twice (csv_path : string) (st : State) :
  let once := snd (CsvIngestor.run env csv_path st) in
  let twice := snd (CsvIngestor.run env csv_path once) in
  events (committed twice) = events (committed once).
Proof.
  destruct (CsvIngestor.build_rows env csv_path) as [rows|e] eqn:E; cbv zeta.
  - rewrite (csv_run_ok st E). cbn [snd].
    rewrite (csv_run_ok _ E). unfold csv_committed, CsvIngestor.log_run.
    cbn [snd committed events set_ingestion_log set_events].
    rewrite !execute_batch_insert_all by lia. apply insert_all_twice.
  - rewrite (csv_run_raise st E). cbn [snd].
    rewrite (csv_run_raise _ E). reflexivity.
Qed.

End CsvRun.

Lemma load_to_raw_twice (rows : list Row) (run_id run_id' : string) (st : State) :
  let once := snd (TicketmasterIngestor.load_to_raw rows run_id st) in
  let twice := snd (TicketmasterIngestor.load_to_raw rows run_id' once) in
  events (committed twice) = events (committed once)
  /\ events (session twice) = events (session once).
Proof.
  destruct rows as [|r rows]; cbv zeta; [split; reflexivity|].
  unfold TicketmasterIngestor.load_to_raw, bind, statement, commit, modify, ret.
  cbn [snd committed session set_session events set_events].
  rewrite !execute_batch_insert_all by lia.
  split; apply insert_all_twice.
Qed.

(** C1.  Ingestion is idempotent on the staging table.  Running the file
    ingestor twice on one file leaves the same committed rows, hence the
    same row count, as running it once; so does loading one parsed API page
    twice; a batch whose rows are all in the table already changes nothing
    (rows with a present canonical id pair are skipped); and after any
    sequence of ingestion runs, from the empty database or from any
    database whose pairs are unique, no two rows of the staging table share
    their pair (source, source-native event id). *)
Theorem ingestion_idempotent (env : Env) :
  (forall csv_path st,
      let once := snd (CsvIngestor.run env csv_path st) in
      let twice := snd (CsvIngestor.run env csv_path once) in
      events (committed twice) = events (committed once)
      /\ List.length (events (committed twice))
         = List.length (events (committed once)))
  /\ (forall rows run_id run_id' st,
      let once := snd (TicketmasterIngestor.load_to_raw rows run_id st) in
      let twice := snd (TicketmasterIngestor.load_to_raw rows run_id' once) in
      events (committed twice) = events (committed once)
      /\ List.length (events (committed twice))
         = List.length (events (committed once)))
  /\ (forall t rows,
      execute_batch (execute_batch t rows 100) rows 100 = execute_batch t rows 100
      /\ execute_batch (execute_batch t rows 50) rows 50 = execute_batch t rows 50)
  /\ (forall jobs,
      NoDup (map key (events (committed
                                (run_jobs env jobs (initial_state empty_db))))))
  /\ (forall jobs st,
      NoDup (map key (events (session st))) ->
      NoDup (map key (events (committed st))) ->
      NoDup (map key (events (committed (run_jobs env jobs st))))).
Proof.
  repeat split.
  - apply csv_run_twice.
  - cbv zeta. f_equal. apply csv_run_twice.
  - apply load_to_raw_twice.
  - cbv zeta. f_equal. apply load_to_raw_twice.
  - rewrite !execute_batch_insert_all by lia. apply insert_all_twice.
  - rewrite !execute_batch_insert_all by lia. apply insert_all_twice.
  - intros jobs.
    apply (unique_run_jobs env jobs (initial_state empty_db)).
    split; constructor.
  - intros jobs st Hs Hc. apply (unique_run_jobs env jobs st). split; assumption.
Qed.

(** The same file twice, then the same two API pages twice: three rows
    after the first file run and still three after the second (two of the
    four lines of the file share an event id), five after each API run;
    every run adds its own record to the log. *)
Example ingest_twice_example :
  let file :=
    mkFrame ["event_id"; "event_name"]
            [[PStr "A1"; PStr "Concert"]; [PStr "A2"; PStr "Match"];
             [PStr "A1"; PStr "Concert"]; [PStr "A3"; PStr "Play"]] in
  let env := Examples.example_env Examples.two_pages (fun _ => Ok file) in
  let jobs := [CsvJob "events.csv"; CsvJob "events.csv";
               ApiJob Examples.ingestor "DE" 5;
               ApiJob Examples.ingestor "DE" 5] in
  let rows n :=
    List.length (events (committed (run_jobs env (firstn n jobs)
                                             (initial_state empty_db)))) in
  (rows 1, rows 2, rows 3, rows 4) = (3, 3, 5, 5)
  /\ map log_records_loaded
         (ingestion_log (committed (run_jobs env jobs (initial_state empty_db))))
     = [Some 4; Some 4; Some 2; Some 2].
Proof. cbv zeta. split; reflexivity. Qed.

Section FetchClaims.
Import TicketmasterIngestor.

Lemma wait_exponential_bounds (n : nat) :
  wait_exponential 2 10 (Z.of_nat (S n)) = Z.max 2 (Z.min (2 ^ Z.of_nat n) 10)
  /\ (2 <= wait_exponential 2 10 (Z.of_nat (S n)) <= 10)%Z.
Proof.
  unfold wait_exponential.
  replace (Z.of_nat (S n) - 1)%Z with (Z.of_nat n) by lia.
  rewrite Z.mul_1_l. split; [reflexivity|lia].
Qed.

Lemma waits_bounds (k : nat) :
  Forall (fun w => 2 <= w <= 10)%Z (waits (wait_exponential 2 10) 1 k).
Proof.
  unfold waits. apply Forall_forall. intros w Hw.
  apply in_map_iff in Hw. destruct Hw as [i [<- _]].
  replace (1 + Z.of_nat i)%Z with (Z.of_nat (S i)) by lia.
  apply wait_exponential_bounds.
Qed.

Lemma attempt_cases env self country_code history page :
  attempt env self country_code history page
  = match requests_get env history (params self country_code page) with
    | GetRaises e => Raise e
    | Response status_code json =>
        if (400 <=? status_code)%Z && (status_code <? 600)%Z then
          Raise (Exc "HTTPError"
                     (str_int status_code ++
                      (if (status_code <? 500)%Z then " Client Error"
                       else " Server Error")))
        else json
    end.
Proof.
  unfold attempt, raise_for_status.
  destruct (requests_get env history _) as [e|c json]; [reflexivity|].
  destruct (400 <=? c)%Z eqn:E1, (c <? 500)%Z eqn:E2, (500 <=? c)%Z eqn:E3,
           (c <? 600)%Z eqn:E4; simpl; try reflexivity; lia.
Qed.

(** C7, as the code has it.  A page fetch makes between one and three
    attempts, all for the same page.  An attempt fails when [requests.get]
    raises, when the status is 4xx or 5xx, or when the body does not decode;
    every failed attempt but the third is followed by another one, after a
    wait of [max(2, min(2^(n-1), 10))] time units after attempt [n], which
    lies between 2 and 10.  The fetch returns what the first successful
    attempt returned; when the third attempt fails too it raises tenacity's
    [RetryError] around the last exception, and the page loop of the run
    stops with that error. *)
Theorem fetch_events_retries env self country_code page st :
  let fetch := fetch_events env self country_code page st in
  (exists k,
      1 <= k <= 3
      /\ snd fetch
         = after_io (repeat (params self country_code page) k)
                    (waits (wait_exponential 2 10) 1 (k - 1)) st
      /\ (forall i, i < k - 1 ->
            is_ok (attempt env self country_code
                     (requests st ++ repeat (params self country_code page) i)
                     page) = false)
      /\ match attempt env self country_code
                 (requests st ++ repeat (params self country_code page) (k - 1))
                 page with
         | Ok data => fst fetch = Ok data
         | Raise last => k = 3 /\ fst fetch = Raise (RetryError last)
         end
      /\ Forall (fun w => 2 <= w <= 10)%Z
                (waits (wait_exponential 2 10) 1 (k - 1)))
  /\ (forall history,
        attempt env self country_code history page
        = match requests_get env history (params self country_code page) with
          | GetRaises e => Raise e
          | Response status_code json =>
              if (400 <=? status_code)%Z && (status_code <? 600)%Z then
                Raise (Exc "HTTPError"
                           (str_int status_code ++
                            (if (status_code <? 500)%Z then " Client Error"
                             else " Server Error")))
              else json
          end)
  /\ (forall n : nat,
        wait_exponential 2 10 (Z.of_nat (S n))
        = Z.max 2 (Z.min (2 ^ Z.of_nat n) 10)
        /\ (2 <= wait_exponential 2 10 (Z.of_nat (S n)) <= 10)%Z)
  /\ (forall run_id rest total,
        match fetch with
        | (Raise e, st') =>
            page_loop env self country_code run_id (page :: rest) total st
            = (Raise e, st')
        | (Ok _, _) => True
        end).
Proof.
  cbv zeta. split; [|split; [|split]].
  - destruct (retry_loop_attempts env self country_code (wait_exponential 2 10)
                page 2 1 st) as [k H].
    exists k. destruct H as [H1 [H2 [H3 H4]]].
    repeat split; try assumption; try apply H1. apply waits_bounds.
  - intros history. apply attempt_cases.
  - apply wait_exponential_bounds.
  - intros run_id rest total. cbn [page_loop]. unfold bind at 1.
    destruct (fetch_events env self country_code page st) as [[data|e] st'];
      [exact Logic.I|reflexivity].
Qed.

(** C7 as stated does not hold.  When the server answers 503 three times,
    the fetch raises an exception of class [RetryError], which is not the
    class the claim names; and a reply with the non-2xx status 302 and a
    JSON body is returned after a single request, without a retry. *)
Lemma fetch_events_not_as_stated :
  (let env := Examples.example_env Examples.unavailable Examples.no_file in
   let fetch := fetch_events env Examples.ingestor "DE" 0
                             (initial_state empty_db) in
   fst fetch = Raise (RetryError (Exc "HTTPError" "503 Server Error"))
   /\ List.length (requests (snd fetch)) = 3
   /\ sleeps (snd fetch) = [2; 2]%Z
   /\ forall e, fst fetch = Raise e -> exn_class e <> "SourceUnavailableError")
  /\ (let env := Examples.example_env Examples.redirecting Examples.no_file in
      let fetch := fetch_events env Examples.ingestor "DE" 0
                                (initial_state empty_db) in
      fst fetch = Ok (PDict [])
      /\ List.length (requests (snd fetch)) = 1).
Proof.
  cbv zeta. split; [|split; reflexivity].
  split; [reflexivity|]. split; [reflexivity|]. split; [reflexivity|].
  intros e He. vm_compute in He. injection He as <-. discriminate.
Qed.

End FetchClaims.

(** ** A run that fails *)

(** ** The pages a run requests *)

Section Pages.
Variable env : Env.
Variable self : TicketmasterIngestor.Ingestor.
Variable country_code : string.
Import TicketmasterIngestor.

(** [data.get("_embedded", {}).get("events", [])] *)
Definition page_events (data : pyval) : result pyval :=
  let? embedded := get data "_embedded" empty_dict in
  get embedded "events" (PList []).

(** [[self.parse_event(e) for e in events]] *)
Definition page_rows (events : pyval) : result (list Row) :=
  let? items := iter events in
  traverse (parse_event env) items.

(** [page >= data.get("page", {}).get("totalPages", 1) - 1] *)
Definition last_page (page : nat) (data : pyval) : result bool :=
  let? page_info := get data "page" empty_dict in
  let? total_pages := get page_info "totalPages" (PInt 1) in
  at_last_page env page total_pages.

(** The page has zero records. *)
Definition zero_records (data : pyval) : bool :=
  match page_events data with
  | Ok events => negb (truthy events)
  | Raise _ => false
  end.

(** The page index has reached the last page the server reports. *)
Definition reached_last_page (page : nat) (data : pyval) : bool :=
  match last_page page data with
  | Ok b => b
  | Raise _ => false
  end.

Lemma load_to_raw_ok rows run_id st :
  fst (load_to_raw rows run_id st) = Ok (List.length rows)
  /\ requests (snd (load_to_raw rows run_id st)) = requests st.
Proof. destruct rows; split; reflexivity. Qed.

(** One turn of the loop. *)
Lemma page_loop_cons run_id page rest total st :
  page_loop env self country_code run_id (page :: rest) total st
  = match fetch_events env self country_code page st with
    | (Raise e, st1) => (Raise e, st1)
    | (Ok data, st1) =>
        match page_events data with
        | Raise e => (Raise e, st1)
        | Ok events =>
            if negb (truthy events) then (Ok total, st1)
            else
              match page_rows events with
              | Raise e => (Raise e, st1)
              | Ok rows =>
                  let st2 := snd (load_to_raw rows run_id st1) in
                  match last_page page data with
                  | Raise e => (Raise e, st2)
                  | Ok true => (Ok (total + List.length rows), st2)
                  | Ok false =>
                      page_loop env self country_code run_id rest
                                (total + List.length rows) st2
                  end
              end
        end
    end.
Proof.
  cbn [page_loop]. unfold bind at 1.
  destruct (fetch_events env self country_code page st) as [[data|e] st1];
    [|reflexivity].
  unfold page_events, page_rows, last_page, bind, lift, rbind.
  destruct (get data "_embedded" empty_dict) as [embedded|e]; [|reflexivity].
  destruct (get embedded "events" (PList [])) as [events|e]; [|reflexivity].
  destruct (negb (truthy events)); [reflexivity|].
  destruct (iter events) as [items|e]; [|reflexivity].
  destruct (traverse (parse_event env) items) as [rows|e]; [|reflexivity].
  destruct (load_to_raw_ok rows run_id st1) as [Hr _].
  destruct (load_to_raw rows run_id st1) as [r st2]. cbn [fst snd] in *.
  subst r.
  destruct (get data "page" empty_dict) as [page_info|e]; [|reflexivity].
  destruct (get page_info "totalPages" (PInt 1)) as [total_pages|e];
    [|reflexivity].
  destruct (at_last_page env page total_pages) as [[|]|e]; reflexivity.
Qed.

(** The loop stops after a page whose last attempt gave [a]. *)
Definition stops (page : nat) (a : result pyval) : bool :=
  match a with
  | Raise _ => true
  | Ok data => zero_records data || reached_last_page page data
  end.

(** The requests of a trace that starts at page [s]: each entry [(k, a)]
    stands for [k] attempts for one page, the last of which gave [a]. *)
Fixpoint requests_of (s : nat) (tr : list (nat * result pyval))
  : list Request :=
  match tr with
  | [] => []
  | (k, _) :: tr' => repeat (params self country_code s) k ++ requests_of (S s) tr'
  end.

(** [tr] is what the loop does from page [s] on, after the requests
    [history]: one to three attempts per page, each but the last a failure,
    and no page after one that makes the loop stop. *)
Fixpoint trace_ok (history : list Request) (s : nat)
         (tr : list (nat * result pyval)) : Prop :=
  match tr with
  | [] => True
  | (k, a) :: tr' =>
      1 <= k <= 3
      /\ (forall j, j < k - 1 ->
            is_ok (attempt env self country_code
                     (history ++ repeat (params self country_code s) j) s)
            = false)
      /\ a = attempt env self country_code
                     (history ++ repeat (params self country_code s) (k - 1)) s
      /\ (stops s a = true -> tr' = [])
      /\ trace_ok (history ++ repeat (params self country_code s) k) (S s) tr'
  end.

Lemma page_loop_trace run_id :
  forall n s total st,
  exists tr,
    Nat.min 1 n <= List.length tr <= n
    /\ requests (snd (page_loop env self country_code run_id (seq s n) total st))
       = requests st ++ requests_of s tr
    /\ trace_ok (requests st) s tr.
Proof.
  induction n as [|n IH]; intros s total st.
  - exists []. simpl. rewrite app_nil_r. repeat split; lia.
  - cbn [seq]. rewrite page_loop_cons.
    destruct (retry_loop_attempts env self country_code
                (wait_exponential 2 10) s 2 1 st)
      as [k [Hk [Hst [Hfail Hlast]]]].
    change (retry_loop (wait_exponential 2 10) 2 1
                       (fetch_events_body env self country_code s))
      with (fetch_events env self country_code s) in Hst, Hlast.
    remember (attempt env self country_code
                (requests st ++ repeat (params self country_code s) (k - 1)) s)
      as a eqn:Ea.
    assert (Hone : forall st1,
               requests st1 = requests st ++ repeat (params self country_code s) k ->
               exists tr,
                 Nat.min 1 (S n) <= List.length tr <= S n
                 /\ requests st1 = requests st ++ requests_of s tr
                 /\ trace_ok (requests st) s tr).
    { intros st1 Hreq. exists [(k, a)]. cbn [requests_of trace_ok].
      rewrite app_nil_r. simpl List.length.
      repeat split; auto; lia. }
    destruct (fetch_events env self country_code s st) as [[data|e] st1];
      cbn [fst snd] in *; [|apply Hone; rewrite Hst; reflexivity].
    assert (Ha : a = Ok data).
    { destruct a as [d|last]; [congruence|]. destruct Hlast; discriminate. }
    assert (Hreq : requests st1
                   = requests st ++ repeat (params self country_code s) k).
    { rewrite Hst. reflexivity. }
    destruct (page_events data) as [events|e] eqn:Eev; [|apply Hone, Hreq].
    destruct (negb (truthy events)) eqn:Etr; [apply Hone, Hreq|].
    destruct (page_rows events) as [rows|e]; [|apply Hone, Hreq].
    destruct (load_to_raw_ok rows run_id st1) as [_ Hreq2].
    cbv zeta. rewrite <- Hreq2 in Hreq.
    destruct (last_page s data) as [[|]|e] eqn:Elast; try (apply Hone, Hreq).
    destruct (IH (S s) (total + List.length rows)
                 (snd (load_to_raw rows run_id st1))) as [tr [Hlen [Hr Ht]]].
    exists ((k, a) :: tr). cbn [requests_of trace_ok List.length].
    split; [simpl; lia|]. split.
    { rewrite Hr, Hreq, <- app_assoc. reflexivity. }
    split; [exact Hk|]. split; [exact Hfail|]. split; [exact Ea|].
    split; [|rewrite <- Hreq; exact Ht].
    rewrite Ha. unfold stops, zero_records, reached_last_page.
    rewrite Eev, Etr, Elast. discriminate.
Qed.

(** The requests of a trace, in order: page [s] some times, then page
    [s + 1], and so on. *)
Lemma requests_of_pages (tr : list (nat * result pyval)) :
  forall s,
    map page (requests_of s tr)
    = List.concat (map (fun ia => repeat (fst ia) (fst (snd ia)))
                       (combine (seq s (List.length tr)) tr)).
Proof.
  induction tr as [|[k a] tr IH]; intros s; [reflexivity|].
  cbn [requests_of List.length seq combine map List.concat fst snd].
  rewrite map_app, IH. f_equal.
  induction k as [|k IHk]; [reflexivity|]. simpl. f_equal. exact IHk.
Qed.

Lemma requests_of_length (tr : list (nat * result pyval)) :
  forall history s,
    trace_ok history s tr ->
    List.length (requests_of s tr) <= 3 * List.length tr.
Proof.
  induction tr as [|[k a] tr IH]; intros history s H; [simpl; lia|].
  destruct H as [Hk [_ [_ [_ Ht]]]].
  cbn [requests_of List.length]. rewrite length_app, repeat_length.
  specialize (IH _ _ Ht). lia.
Qed.

(** ** The loop, turn by turn *)

(** What one turn of the loop does, given what the last attempt for its
    page gave: it raises, it breaks out of the loop, or it goes on to the
    next page; [rows] are the rows the turn has loaded by then. *)
Inductive Turn : Type :=
| Aborted (e : Exn) (rows : list Row)
| Stopped (rows : list Row)
| Next (rows : list Row).

Definition turn_of (page : nat) (a : result pyval) : Turn :=
  match a with
  | Raise e => Aborted (RetryError e) []
  | Ok data =>
      match page_events data with
      | Raise e => Aborted e []
      | Ok events =>
          if negb (truthy events) then Stopped []
          else
            match page_rows events with
            | Raise e => Aborted e []
            | Ok rows =>
                match last_page page data with
                | Raise e => Aborted e rows
                | Ok true => Stopped rows
                | Ok false => Next rows
                end
            end
      end
  end.

Definition loaded (t : Turn) : list Row :=
  match t with
  | Aborted _ rows | Stopped rows | Next rows => rows
  end.

(** The rows loaded page by page along a trace that starts at page [s]. *)
Fixpoint loads (s : nat) (tr : list (nat * result pyval)) : list (list Row) :=
  match tr with
  | [] => []
  | (_, a) :: tr' => loaded (turn_of s a) :: loads (S s) tr'
  end.

(** What the loop gives along a trace: the exception of the turn that
    raised, or the number of rows loaded. *)
Fixpoint outcome (s total : nat) (tr : list (nat * result pyval))
  : result nat :=
  match tr with
  | [] => Ok total
  | (_, a) :: tr' =>
      match turn_of s a with
      | Aborted e _ => Raise e
      | Stopped rows => Ok (total + List.length rows)
      | Next rows => outcome (S s) (total + List.length rows) tr'
      end
  end.

(** [tr] is exactly what the loop over [n] pages from page [s] does after
    the requests [history]: the attempts of each page as in [trace_ok], a
    next page whenever the turn goes on and a page is left, and none
    otherwise. *)
Fixpoint follows (history : list Request) (s n : nat)
         (tr : list (nat * result pyval)) : Prop :=
  match tr with
  | [] => n = 0
  | (k, a) :: tr' =>
      0 < n
      /\ 1 <= k <= 3
      /\ (forall j, j < k - 1 ->
            is_ok (attempt env self country_code
                     (history ++ repeat (params self country_code s) j) s)
            = false)
      /\ a = attempt env self country_code
                     (history ++ repeat (params self country_code s) (k - 1)) s
      /\ (is_ok a = false -> k = 3)
      /\ match turn_of s a with
         | Next _ =>
             follows (history ++ repeat (params self country_code s) k) (S s)
                     (n - 1) tr'
         | _ => tr' = []
         end
  end.

(** A batch is committed as soon as it is loaded. *)
Lemma load_to_raw_staged rows run_id st :
  session st = committed st ->
  let st' := snd (load_to_raw rows run_id st) in
  session st' = committed st'
  /\ events (committed st') = insert_all (events (committed st)) rows
  /\ requests st' = requests st.
Proof.
  intros H. cbv zeta. destruct rows as [|r rows].
  - cbn [load_to_raw ret snd]. auto.
  - unfold load_to_raw, bind, statement, commit, modify, ret.
    cbn [snd session committed set_session events set_events requests].
    rewrite execute_batch_insert_all by lia. rewrite H. auto.
Qed.

(** One turn: the attempts of the fetch, then the load, then the next
    page or the end. *)
Lemma page_loop_turn run_id page rest total st :
  exists k,
    1 <= k <= 3
    /\ (forall j, j < k - 1 ->
          is_ok (attempt env self country_code
                   (requests st ++ repeat (params self country_code page) j)
                   page) = false)
    /\ let a := attempt env self country_code
                  (requests st ++ repeat (params self country_code page) (k - 1))
                  page in
       let st1 := after_io (repeat (params self country_code page) k)
                           (waits (wait_exponential 2 10) 1 (k - 1)) st in
       let st2 := snd (load_to_raw (loaded (turn_of page a)) run_id st1) in
       (is_ok a = false -> k = 3)
       /\ page_loop env self country_code run_id (page :: rest) total st
          = match turn_of page a with
            | Aborted e _ => (Raise e, st2)
            | Stopped rows => (Ok (total + List.length rows), st2)
            | Next rows =>
                page_loop env self country_code run_id rest
                          (total + List.length rows) st2
            end.
Proof.
  destruct (retry_loop_attempts env self country_code (wait_exponential 2 10)
              page 2 1 st) as [k [Hk [Hst [Hfail Hlast]]]].
  change (retry_loop (wait_exponential 2 10) 2 1
                     (fetch_events_body env self country_code page))
    with (fetch_events env self country_code page) in Hst, Hlast.
  exists k. split; [exact Hk|]. split; [exact Hfail|]. cbv zeta.
  rewrite page_loop_cons.
  destruct (fetch_events env self country_code page st) as [r st1].
  cbn [fst snd] in Hst, Hlast. subst st1.
  destruct (attempt env self country_code _ page) as [data|last].
  - subst r. split; [discriminate|]. unfold turn_of.
    destruct (page_events data) as [events|e]; [|reflexivity].
    destruct (negb (truthy events));
      [cbn [loaded load_to_raw ret snd List.length];
       rewrite Nat.add_0_r; reflexivity|].
    destruct (page_rows events) as [rows|e]; [|reflexivity].
    cbv zeta. destruct (last_page page data) as [[|]|e]; reflexivity.
  - destruct Hlast as [Hk3 ->]. split; [intros _; exact Hk3|]. reflexivity.
Qed.

(** The whole loop: the trace it follows, what it gives, and the state in
    which each page is first requested. *)
Lemma page_loop_follows run_id :
  forall n s total st,
    session st = committed st ->
    exists tr,
      follows (requests st) s n tr
      /\ fst (page_loop env self country_code run_id (seq s n) total st)
         = outcome s total tr
      /\ requests (snd (page_loop env self country_code run_id (seq s n)
                                  total st))
         = requests st ++ requests_of s tr
      /\ session (snd (page_loop env self country_code run_id (seq s n)
                                 total st))
         = committed (snd (page_loop env self country_code run_id (seq s n)
                                     total st))
      /\ events (committed (snd (page_loop env self country_code run_id
                                           (seq s n) total st)))
         = fold_left insert_all (loads s tr) (events (committed st))
      /\ forall j, j < List.length tr ->
           exists st_j total_j,
             requests st_j = requests st ++ requests_of s (firstn j tr)
             /\ session st_j = committed st_j
             /\ events (committed st_j)
                = fold_left insert_all (loads s (firstn j tr))
                            (events (committed st))
             /\ page_loop env self country_code run_id (seq s n) total st
                = page_loop env self country_code run_id
                            (seq (s + j) (n - j)) total_j st_j.
Proof.
  induction n as [|n IH]; intros s total st Hst.
  - exists []. cbn [seq page_loop ret fst snd follows outcome requests_of
                    loads fold_left List.length].
    rewrite app_nil_r. repeat split; auto. intros j Hj. lia.
  - cbn [seq].
    destruct (page_loop_turn run_id s (seq (S s) n) total st)
      as [k [Hk [Hfail H]]].
    cbv zeta in H. destruct H as [Hk3 Heq].
    set (a := attempt env self country_code
                (requests st ++ repeat (params self country_code s) (k - 1)) s)
      in *.
    set (st1 := after_io (repeat (params self country_code s) k)
                         (waits (wait_exponential 2 10) 1 (k - 1)) st) in *.
    assert (Hst1 : session st1 = committed st1) by exact Hst.
    destruct (load_to_raw_staged (loaded (turn_of s a)) run_id st1 Hst1)
      as [Hpend [Hev Hreq]].
    cbv zeta in Hpend, Hev, Hreq.
    set (st2 := snd (load_to_raw (loaded (turn_of s a)) run_id st1)) in *.
    change (requests st1)
      with (requests st ++ repeat (params self country_code s) k) in Hreq.
    change (events (committed st1)) with (events (committed st)) in Hev.
    assert (Hzero : exists st_j total_j,
               requests st_j = requests st ++ []
               /\ session st_j = committed st_j
               /\ events (committed st_j) = events (committed st)
               /\ page_loop env self country_code run_id (s :: seq (S s) n)
                            total st
                  = page_loop env self country_code run_id
                              (seq (s + 0) (S n - 0)) total_j st_j).
    { exists st, total. rewrite app_nil_r, Nat.add_0_r.
      repeat split; auto. }
    assert (Hone : forall r,
               page_loop env self country_code run_id (s :: seq (S s) n)
                         total st = (r, st2) ->
               r = outcome s total [(k, a)] ->
               match turn_of s a with Next _ => False | _ => True end ->
               exists tr,
                 follows (requests st) s (S n) tr
                 /\ fst (r, st2) = outcome s total tr
                 /\ requests (snd (r, st2)) = requests st ++ requests_of s tr
                 /\ session (snd (r, st2)) = committed (snd (r, st2))
                 /\ events (committed (snd (r, st2)))
                    = fold_left insert_all (loads s tr) (events (committed st))
                 /\ forall j, j < List.length tr ->
                      exists st_j total_j,
                        requests st_j
                        = requests st ++ requests_of s (firstn j tr)
                        /\ session st_j = committed st_j
                        /\ events (committed st_j)
                           = fold_left insert_all (loads s (firstn j tr))
                                       (events (committed st))
                        /\ (r, st2)
                           = page_loop env self country_code run_id
                                       (seq (s + j) (S n - j)) total_j st_j).
    { intros r Hr Hout Hturn. exists [(k, a)].
      cbn [follows requests_of loads fold_left List.length fst snd].
      rewrite app_nil_r.
      split.
      { repeat split; auto; try lia.
        destruct (turn_of s a); [reflexivity|reflexivity|destruct Hturn]. }
      split; [exact Hout|]. split; [exact Hreq|]. split; [exact Hpend|].
      split; [exact Hev|].
      intros j Hj. assert (j = 0) as -> by lia. rewrite <- Hr.
      exact Hzero. }
    destruct (turn_of s a) as [e rows|rows|rows] eqn:Eturn.
    + rewrite Heq. apply Hone; auto. cbn [outcome]. rewrite Eturn.
      reflexivity.
    + rewrite Heq. apply Hone; auto. cbn [outcome]. rewrite Eturn.
      reflexivity.
    + destruct (IH (S s) (total + List.length rows) st2 Hpend)
        as [tr [Hf [Hout [Hr [Hp [He Hs]]]]]].
      exists ((k, a) :: tr). rewrite Heq.
      cbn [follows outcome requests_of loads fold_left List.length].
      rewrite Eturn. cbn [loaded] in *.
      split.
      { repeat split; auto; try lia.
        rewrite Hreq in Hf. replace (S n - 1) with n by lia. exact Hf. }
      split; [exact Hout|]. split.
      { rewrite Hr, Hreq, <- app_assoc. reflexivity. }
      split; [exact Hp|]. split; [rewrite He, Hev; reflexivity|].
      intros [|j] Hj.
      * rewrite <- Heq. exact Hzero.
      * destruct (Hs j ltac:(lia)) as [st_j [total_j [H1 [H2 [H3 H4]]]]].
        exists st_j, total_j.
        cbn [firstn requests_of loads fold_left]. rewrite Eturn.
        cbn [loaded].
        split; [rewrite H1, Hreq, <- app_assoc; reflexivity|].
        split; [exact H2|]. split; [rewrite H3, Hev; reflexivity|].
        rewrite H4. replace (s + S j) with (S s + j) by lia.
        reflexivity.
Qed.

Lemma follows_length (tr : list (nat * result pyval)) :
  forall history s n,
    follows history s n tr ->
    Nat.min 1 n <= List.length tr <= n.
Proof.
  induction tr as [|[k a] tr IH]; intros history s n H.
  - cbn [follows] in H. subst n. simpl. lia.
  - cbn [follows] in H. destruct H as [Hn [_ [_ [_ [_ H]]]]].
    cbn [List.length].
    destruct (turn_of s a).
    + subst tr. cbn [List.length]. lia.
    + subst tr. cbn [List.length]. lia.
    + specialize (IH _ _ _ H). lia.
Qed.

(** The entry for page [s + i]: after it the trace ends unless the turn
    goes on, and then it only ends when no page is left. *)
Lemma follows_nth (tr : list (nat * result pyval)) :
  forall history s n i k a,
    follows history s n tr ->
    nth_error tr i = Some (k, a) ->
    (is_ok a = false -> k = 3)
    /\ match turn_of (s + i) a with
       | Next _ => S i < n -> S i < List.length tr
       | _ => List.length tr = S i
       end.
Proof.
  induction tr as [|[k0 a0] tr IH]; intros history s n i k a H Hnth.
  - destruct i; discriminate.
  - cbn [follows] in H. destruct H as [Hn [_ [_ [_ [Hk3 H]]]]].
    destruct i as [|i].
    + injection Hnth as <- <-. rewrite Nat.add_0_r. split; [exact Hk3|].
      destruct (turn_of s a0).
      * subst tr. reflexivity.
      * subst tr. reflexivity.
      * intros Hlt. pose proof (follows_length _ _ _ _ H). simpl. lia.
    + cbn [nth_error] in Hnth.
      destruct (turn_of s a0).
      * subst tr. destruct i; discriminate.
      * subst tr. destruct i; discriminate.
      * destruct (IH _ _ _ _ _ _ H Hnth) as [H1 H2]. split; [exact H1|].
        replace (s + S i) with (S s + i) by lia.
        destruct (turn_of (S s + i) a); cbn [List.length]; lia.
Qed.

Lemma turn_of_stops page a :
  stops page a = true ->
  match turn_of page a with Next _ => False | _ => True end.
Proof.
  unfold stops, turn_of, zero_records, reached_last_page.
  destruct a as [data|e]; [|auto].
  destruct (page_events data) as [events|e]; [|auto].
  destruct (negb (truthy events)); [auto|].
  destruct (page_rows events) as [rows|e]; [|auto].
  destruct (last_page page data) as [[|]|e]; auto. discriminate.
Qed.

Lemma follows_trace_ok (tr : list (nat * result pyval)) :
  forall history s n, follows history s n tr -> trace_ok history s tr.
Proof.
  induction tr as [|[k a] tr IH]; intros history s n H; [exact I|].
  cbn [follows] in H. destruct H as [_ [Hk [Hfail [Ha [_ H]]]]].
  cbn [trace_ok]. split; [exact Hk|]. split; [exact Hfail|].
  split; [exact Ha|].
  pose proof (turn_of_stops s a) as Hs.
  destruct (turn_of s a).
  - subst tr. split; [reflexivity|exact I].
  - subst tr. split; [reflexivity|exact I].
  - split; [|eapply IH, H]. intros Hstop. destruct (Hs Hstop).
Qed.

(** ** The rule of the spec for the end of the loop *)

(** The records of a page: the list under [_embedded.events], none when
    the body has no such entry. *)
Definition records (data : pyval) : option (list pyval) :=
  match data with
  | PDict d =>
      match lookup "_embedded" d with
      | None => Some []
      | Some (PDict embedded) =>
          match lookup "events" embedded with
          | None => Some []
          | Some (PList items) => Some items
          | Some _ => None
          end
      | Some _ => None
      end
  | _ => None
  end.

(** The number of pages the server reports under [page.totalPages]; one
    page when it reports none. *)
Definition reported_total_pages (data : pyval) : option Z :=
  match data with
  | PDict d =>
      match lookup "page" d with
      | None => Some 1%Z
      | Some (PDict info) =>
          match lookup "totalPages" info with
          | None => Some 1%Z
          | Some (PInt t) => Some t
          | Some _ => None
          end
      | Some _ => None
      end
  | _ => None
  end.

(** No page is to follow page [page], whose last attempt gave [a]: the
    fetch failed, or the page returned zero records, or the index has
    reached the last page the server reports,
    [page >= totalPages - 1]. *)
Definition halts (page : nat) (a : result pyval) : Prop :=
  match a with
  | Raise _ => True
  | Ok data =>
      records data = Some []
      \/ exists t, reported_total_pages data = Some t
                   /\ (Z.of_nat page >= t - 1)%Z
  end.

(** Page [page] came with records, all of which the normalizer takes, and
    the server reports more pages after it. *)
Definition goes_on (page : nat) (a : result pyval) : Prop :=
  exists data items t,
    a = Ok data
    /\ records data = Some items /\ items <> []
    /\ Forall (fun event => is_ok (parse_event env event) = true) items
    /\ reported_total_pages data = Some t
    /\ (Z.of_nat page < t - 1)%Z.

Lemma records_page_events data items :
  records data = Some items -> page_events data = Ok (PList items).
Proof.
  unfold records, page_events. destruct data as [| | | | | |d]; try discriminate.
  cbn [get rbind].
  destruct (lookup "_embedded" d) as [[| | | | | |embedded]|];
    try discriminate.
  - cbn [get]. destruct (lookup "events" embedded) as [[| | | | |l|]|];
      try discriminate; intros H; injection H as <-; reflexivity.
  - intros H. injection H as <-. reflexivity.
Qed.

Lemma reported_last_page page data t :
  reported_total_pages data = Some t ->
  last_page page data = Ok (t - 1 <=? Z.of_nat page)%Z.
Proof.
  unfold reported_total_pages, last_page.
  destruct data as [| | | | | |d]; try discriminate. cbn [get rbind].
  destruct (lookup "page" d) as [[| | | | | |info]|]; try discriminate.
  - cbn [get rbind].
    destruct (lookup "totalPages" info) as [[| |z| | | |]|]; try discriminate;
      intros H; injection H as <-; reflexivity.
  - intros H. injection H as <-. reflexivity.
Qed.

Lemma traverse_all {A B} (f : A -> result B) (l : list A) :
  Forall (fun x => is_ok (f x) = true) l -> exists l', traverse f l = Ok l'.
Proof.
  induction 1 as [|x l Hx _ [l' IH]]; [exists []; reflexivity|].
  simpl. destruct (f x) as [y|e]; [|discriminate]. rewrite IH.
  exists (y :: l'). reflexivity.
Qed.

Lemma halts_turn page a :
  halts page a -> match turn_of page a with Next _ => False | _ => True end.
Proof.
  destruct a as [data|e]; [|intros _; exact I].
  intros [H|[t [H Ht]]]; unfold turn_of.
  - rewrite (records_page_events _ _ H). exact I.
  - destruct (page_events data) as [events|e]; [|exact I].
    destruct (negb (truthy events)); [exact I|].
    destruct (page_rows events) as [rows|e]; [|exact I].
    rewrite (reported_last_page page _ _ H).
    replace (t - 1 <=? Z.of_nat page)%Z with true; [exact I|].
    symmetry. apply Z.leb_le. lia.
Qed.

Lemma goes_on_turn page a :
  goes_on page a -> exists rows, turn_of page a = Next rows.
Proof.
  intros [data [items [t [-> [Hrec [Hne [Hall [Htot Hlt]]]]]]]].
  unfold turn_of. rewrite (records_page_events _ _ Hrec).
  destruct items as [|x items]; [congruence|]. cbn [truthy negb].
  unfold page_rows. cbn [iter rbind].
  destruct (traverse_all (parse_event env) _ Hall) as [rows ->].
  rewrite (reported_last_page page _ _ Htot).
  replace (t - 1 <=? Z.of_nat page)%Z with false;
    [exists rows; reflexivity|].
  symmetry. apply Z.leb_gt. lia.
Qed.

(** C4.  A run of the API ingestor requests the pages in ascending order
    from page 0: its requests are those of a trace [tr] with one entry per
    page fetched, at most [max_pages] entries (and at least one when
    [max_pages >= 1]), each entry one to three attempts for its page.  The
    trace ends exactly where the spec says: no page is requested after a
    page whose fetch failed, or that returned zero records, or whose index
    has reached the last page the server reports
    ([page >= totalPages - 1]); and after a page with records that the
    normalizer takes, with more pages reported after it, the next page is
    requested as long as its index is below [max_pages].  So when no page
    ends the loop, the pages requested are 0 to [max_pages - 1]. *)
Theorem pages_requested_in_order max_pages st :
  exists tr : list (nat * result pyval),
    Nat.min 1 (Z.to_nat max_pages) <= List.length tr <= Z.to_nat max_pages
    /\ requests (snd (run env self country_code max_pages st))
       = requests st ++ requests_of 0 tr
    /\ map page (requests_of 0 tr)
       = List.concat (map (fun ia => repeat (fst ia) (fst (snd ia)))
                          (combine (seq 0 (List.length tr)) tr))
    /\ List.length (requests_of 0 tr) <= 3 * Z.to_nat max_pages
    /\ trace_ok (requests st) 0 tr
    /\ (forall i k a,
          nth_error tr i = Some (k, a) ->
          (halts i a -> List.length tr = S i)
          /\ (goes_on i a ->
              S i < Z.to_nat max_pages -> S i < List.length tr))
    /\ ((forall i k a, nth_error tr i = Some (k, a) -> goes_on i a) ->
        List.length tr = Z.to_nat max_pages).
Proof.
  destruct (page_loop_follows (uuid4 env (uuid_calls st)) (Z.to_nat max_pages)
              0 0 (started env st) eq_refl)
    as [tr [Hf [_ [Hreq _]]]].
  change (requests (started env st)) with (requests st) in Hf, Hreq.
  pose proof (follows_length _ _ _ _ Hf) as Hlen.
  pose proof (follows_trace_ok _ _ _ _ Hf) as Ht.
  assert (Hrule : forall i k a,
             nth_error tr i = Some (k, a) ->
             (halts i a -> List.length tr = S i)
             /\ (goes_on i a ->
                 S i < Z.to_nat max_pages -> S i < List.length tr)).
  { intros i k a Hnth.
    destruct (follows_nth _ _ _ _ _ _ _ Hf Hnth) as [_ Hturn].
    cbn [Nat.add] in Hturn. split.
    - intros Hh. apply halts_turn in Hh.
      destruct (turn_of i a); [exact Hturn|exact Hturn|destruct Hh].
    - intros Hg. destruct (goes_on_turn _ _ Hg) as [rows Hr].
      rewrite Hr in Hturn. exact Hturn. }
  exists tr. split; [exact Hlen|]. split.
  { rewrite run_eq. cbv zeta. unfold range.
    destruct (page_loop env self country_code _ (seq 0 (Z.to_nat max_pages))
                        0 (started env st)) as [[total|e] st1];
      exact Hreq. }
  split; [apply requests_of_pages|]. split.
  { pose proof (requests_of_length tr _ _ Ht). lia. }
  split; [exact Ht|]. split; [exact Hrule|].
  intros Hall.
  destruct (Nat.eq_dec (List.length tr) (Z.to_nat max_pages)) as [E|E];
    [exact E|exfalso].
  destruct tr as [|p tr'] eqn:Etr using rev_ind.
  - cbn [List.length] in *. lia.
  - clear IHtr'. destruct p as [k a].
    assert (Hnth : nth_error (tr' ++ [(k, a)]) (List.length tr')
                   = Some (k, a)).
    { rewrite nth_error_app2 by lia. rewrite Nat.sub_diag. reflexivity. }
    destruct (Hrule _ _ _ Hnth) as [_ Hgo].
    specialize (Hgo (Hall _ _ _ Hnth)).
    rewrite length_app in *. cbn [List.length] in *. lia.
Qed.

End Pages.

(** With [max_pages = 5] and a server of two pages, pages 0 and 1 are
    requested, once each; with a server that has events on page 0 only,
    page 0 is requested twice (the first attempt times out), page 1 once,
    and nothing after it. *)
Example pages_requested_examples :
  let run server :=
    TicketmasterIngestor.run (Examples.example_env server Examples.no_file)
                             Examples.ingestor "DE" 5 (initial_state empty_db) in
  (fst (run Examples.two_pages) = Ok 2
   /\ map page (requests (snd (run Examples.two_pages))) = [0; 1])
  /\ (fst (run Examples.flaky_one_page) = Ok 1
      /\ map page (requests (snd (run Examples.flaky_one_page))) = [0; 0; 1]).
Proof. repeat split; reflexivity. Qed.

(** ** A failed run *)

Section FailedRun.
Variable env : Env.
Variable self : TicketmasterIngestor.Ingestor.
Variable country_code : string.
Import TicketmasterIngestor.

(** What the handler of [run] leaves when the loop has raised. *)
Lemma run_raises_record max_pages st e :
  fst (run env self country_code max_pages st) = Raise e ->
  let run_id := uuid4 env (uuid_calls st) in
  let loop := page_loop env self country_code run_id (range max_pages) 0
                        (started env st) in
  let final := snd (run env self country_code max_pages st) in
  fst loop = Raise e
  /\ ingestion_log (committed final)
     = update_where_run_id run_id
         (fun r => mkRun (log_run_id r) (log_source r) (log_records_fetched r)
                         (log_records_loaded r) failed (Some (exn_str e))
                         (Some (clock (snd loop))))
         (ingestion_log (committed st))
       ++ [mkRun run_id "ticketmaster" None None failed (Some (exn_str e))
                 (Some (clock (snd loop)))]
  /\ session (snd loop) = committed (snd loop)
  /\ events (committed final) = events (committed (snd loop))
  /\ Forall (fun d => incl (events d) (events (committed final)))
            (skipn (List.length (commits st)) (commits final)).
Proof.
  intros Hraise. cbv zeta.
  destruct (page_loop_end env self country_code max_pages st)
    as [[Hn [Hall Hsub]] [_ [Hpend Hlog]]].
  rewrite run_eq in *. cbv zeta in *.
  destruct (page_loop env self country_code _ (range max_pages) 0
                      (started env st)) as [[total|e'] st1];
    cbn [fst snd] in *; [discriminate|].
  injection Hraise as ->. unfold nothing_pending, log_is in *.
  split; [reflexivity|].
  unfold finished, log_failed.
  cbn [committed commits events ingestion_log set_ingestion_log].
  split.
  { rewrite Hlog. unfold update_where_run_id. rewrite map_app. cbn [map].
    cbn [log_run_id]. rewrite String.eqb_refl. reflexivity. }
  split; [exact Hpend|]. split; [rewrite Hpend; reflexivity|].
  assert (Hkeep : Forall (fun d => incl (events d) (events (session st1)))
                         (skipn (List.length (commits st)) (commits st1))).
  { eapply Forall_impl; [|exact Hall]. intros d Hd.
    eapply incl_tran; [exact Hd|exact Hsub]. }
  rewrite skipn_app. apply Forall_app. split; [exact Hkeep|].
  replace (List.length (commits st) - List.length (commits st1)) with 0 by lia.
  simpl. constructor; [apply incl_refl|constructor].
Qed.

Lemma fold_insert_all_incl (ls : list (list Row)) :
  forall t, incl t (fold_left insert_all ls t).
Proof.
  induction ls as [|rows ls IH]; intros t; [apply incl_refl|].
  simpl. eapply incl_tran; [apply insert_all_incl|apply IH].
Qed.

Lemma fold_insert_all_keeps_key (k : pyval * pyval) (ls : list (list Row)) :
  forall t, has_key k t = true -> has_key k (fold_left insert_all ls t) = true.
Proof.
  induction ls as [|rows ls IH]; intros t H; [exact H|].
  simpl. apply IH, insert_all_keeps_key, H.
Qed.

(** Every row of every batch is in the table after the batches. *)
Lemma fold_insert_all_present (ls : list (list Row)) :
  forall t i rows,
    nth_error ls i = Some rows ->
    Forall (fun r => has_key (key r) (fold_left insert_all ls t) = true) rows.
Proof.
  induction ls as [|rows0 ls IH]; intros t i rows H; [destruct i; discriminate|].
  destruct i as [|i].
  - injection H as <-. simpl.
    eapply Forall_impl; [|apply (insert_all_has_keys rows0 t)].
    intros r Hr. apply fold_insert_all_keeps_key, Hr.
  - simpl. eapply IH, H.
Qed.

Lemma loads_nth (tr : list (nat * result pyval)) :
  forall s i k a,
    nth_error tr i = Some (k, a) ->
    nth_error (loads env s tr) i = Some (loaded (turn_of env (s + i) a)).
Proof.
  induction tr as [|[k0 a0] tr IH]; intros s i k a H; [destruct i; discriminate|].
  destruct i as [|i].
  - injection H as _ <-. rewrite Nat.add_0_r. reflexivity.
  - cbn [loads nth_error]. replace (s + S i) with (S s + i) by lia.
    eapply IH, H.
Qed.

(** The rows a turn loads from a page that came with records, all of
    which the normalizer took. *)
Lemma loaded_page page data evs rows :
  page_events data = Ok evs -> truthy evs = true ->
  page_rows env evs = Ok rows ->
  loaded (turn_of env page (Ok data)) = rows.
Proof.
  intros H1 H2 H3. unfold turn_of. rewrite H1, H2, H3. cbn [negb].
  destruct (last_page env page data) as [[|]|e]; reflexivity.
Qed.

(** The turn that raised is the last one, and its exception is what the
    loop gives. *)
Lemma outcome_aborted (tr : list (nat * result pyval)) :
  forall history s n total i k a e rows,
    follows env self country_code history s n tr ->
    nth_error tr i = Some (k, a) ->
    turn_of env (s + i) a = Aborted e rows ->
    outcome env s total tr = Raise e.
Proof.
  induction tr as [|[k0 a0] tr IH];
    intros history s n total i k a e rows Hf Hnth Hturn;
    [destruct i; discriminate|].
  cbn [follows] in Hf. destruct Hf as [_ [_ [_ [_ [_ Hf]]]]].
  destruct i as [|i].
  - injection Hnth as <- <-. rewrite Nat.add_0_r in Hturn.
    cbn [outcome]. rewrite Hturn. reflexivity.
  - cbn [nth_error] in Hnth. cbn [outcome].
    destruct (turn_of env s a0).
    + subst tr. destruct i; discriminate.
    + subst tr. destruct i; discriminate.
    + replace (s + S i) with (S s + i) in Hturn by lia.
      eapply IH; eauto.
Qed.

Lemma outcome_raise (tr : list (nat * result pyval)) :
  forall history s n total e,
    follows env self country_code history s n tr ->
    outcome env s total tr = Raise e ->
    exists k a rows,
      nth_error tr (List.length tr - 1) = Some (k, a)
      /\ turn_of env (s + (List.length tr - 1)) a = Aborted e rows.
Proof.
  induction tr as [|[k0 a0] tr IH]; intros history s n total e Hf Hout;
    [discriminate|].
  cbn [follows] in Hf. destruct Hf as [_ [_ [_ [_ [_ Hf]]]]].
  cbn [outcome] in Hout. cbn [List.length].
  destruct (turn_of env s a0) as [e0 rows0|rows0|rows0] eqn:Eturn.
  - subst tr. injection Hout as ->. exists k0, a0, rows0.
    cbn [List.length Nat.sub nth_error]. rewrite Nat.add_0_r. auto.
  - discriminate.
  - destruct (IH _ _ _ _ _ Hf Hout) as [k [a [rows [Hnth Hturn]]]].
    assert (Hlen : 0 < List.length tr).
    { destruct tr; [discriminate|simpl; lia]. }
    exists k, a, rows.
    replace (S (List.length tr) - 1) with (S (List.length tr - 1)) by lia.
    cbn [nth_error]. split; [exact Hnth|].
    replace (s + S (List.length tr - 1)) with (S s + (List.length tr - 1))
      by lia.
    exact Hturn.
Qed.

(** C3.  A run of the API ingestor requests its pages along a trace [tr],
    one entry per page.  A page fetch that fails after its three attempts
    makes the run raise (the [RetryError] of the fetch), and whenever the
    run raises, the exception is the one the last turn of the loop
    raised, unchanged; the record of the run is then committed with
    status failed, the text of the exception as error message and a
    finish time, and nothing is left pending.  Whatever the outcome, the
    committed staging table at the end is the table before the run with
    the rows of every page loaded along the trace inserted, page after
    page: the rows that were there and every row of every page fetched
    and normalized before the failure are present.  Each page is
    committed before the next is requested: in the state from which the
    loop goes on with the first request for page [j], only the pages
    before [j] have been requested, and their rows are committed. *)
Theorem failed_run_is_recorded max_pages st :
  let run_id := uuid4 env (uuid_calls st) in
  let loop := page_loop env self country_code run_id (range max_pages) 0
                        (started env st) in
  let out := run env self country_code max_pages st in
  let final := snd out in
  exists tr : list (nat * result pyval),
    requests final = requests st ++ requests_of self country_code 0 tr
    /\ trace_ok env self country_code (requests st) 0 tr
    /\ (forall i k last,
          nth_error tr i = Some (k, Raise last) ->
          k = 3 /\ fst out = Raise (RetryError last))
    /\ (forall e,
          fst out = Raise e ->
          (exists k a rows,
              nth_error tr (List.length tr - 1) = Some (k, a)
              /\ turn_of env (List.length tr - 1) a = Aborted e rows)
          /\ fst loop = Raise e
          /\ ingestion_log (committed final)
             = update_where_run_id run_id
                 (fun r => mkRun (log_run_id r) (log_source r)
                                 (log_records_fetched r) (log_records_loaded r)
                                 failed (Some (exn_str e))
                                 (Some (clock (snd loop))))
                 (ingestion_log (committed st))
               ++ [mkRun run_id "ticketmaster" None None failed
                         (Some (exn_str e)) (Some (clock (snd loop)))]
          /\ session (snd loop) = committed (snd loop)
          /\ session final = committed final
          /\ Forall (fun d => incl (events d) (events (committed final)))
                    (skipn (List.length (commits st)) (commits final)))
    /\ events (committed final)
       = fold_left insert_all (loads env 0 tr) (events (committed st))
    /\ incl (events (committed st)) (events (committed final))
    /\ (forall i k data evs rows,
          nth_error tr i = Some (k, Ok data) ->
          page_events data = Ok evs -> truthy evs = true ->
          page_rows env evs = Ok rows ->
          nth_error (loads env 0 tr) i = Some rows
          /\ Forall (fun r => has_key (key r) (events (committed final)) = true)
                    rows)
    /\ (forall j,
          j < List.length tr ->
          exists st_j total_j,
            requests st_j
            = requests st ++ requests_of self country_code 0 (firstn j tr)
            /\ session st_j = committed st_j
            /\ events (committed st_j)
               = fold_left insert_all (loads env 0 (firstn j tr))
                           (events (committed st))
            /\ loop = page_loop env self country_code run_id
                                (seq j (Z.to_nat max_pages - j)) total_j st_j).
Proof.
  cbv zeta.
  destruct (page_loop_follows env self country_code (uuid4 env (uuid_calls st))
              (Z.to_nat max_pages) 0 0 (started env st) eq_refl)
    as [tr [Hf [Hout [Hreq [Hpend [Hev Hstates]]]]]].
  change (requests (started env st)) with (requests st) in Hf, Hreq, Hstates.
  change (events (committed (started env st))) with (events (committed st))
    in Hev, Hstates.
  fold (range max_pages) in Hout, Hreq, Hpend, Hev, Hstates.
  assert (Hfst : fst (run env self country_code max_pages st)
                 = fst (page_loop env self country_code
                          (uuid4 env (uuid_calls st)) (range max_pages) 0
                          (started env st))).
  { rewrite run_eq. cbv zeta.
    destruct (page_loop env self country_code _ (range max_pages) 0
                        (started env st)) as [[total|e] st1]; reflexivity. }
  assert (Hfin : requests (snd (run env self country_code max_pages st))
                 = requests st ++ requests_of self country_code 0 tr
                 /\ session (snd (run env self country_code max_pages st))
                    = committed (snd (run env self country_code max_pages st))
                 /\ events (committed
                              (snd (run env self country_code max_pages st)))
                    = fold_left insert_all (loads env 0 tr)
                                (events (committed st))).
  { rewrite run_eq. cbv zeta.
    destruct (page_loop env self country_code _ (range max_pages) 0
                        (started env st)) as [[total|e] st1];
      cbn [fst snd] in *; unfold finished, log_success, log_failed;
      cbn [requests session committed events set_ingestion_log];
      rewrite Hpend; auto. }
  destruct Hfin as [Hreqs [Hsess Hevs]].
  exists tr. split; [exact Hreqs|].
  split; [eapply follows_trace_ok, Hf|]. split.
  { intros i k last Hnth.
    destruct (follows_nth env self country_code _ _ _ _ _ _ _ Hf Hnth)
      as [Hk3 _].
    split; [apply Hk3; reflexivity|].
    rewrite Hfst, Hout.
    eapply outcome_aborted; [exact Hf|exact Hnth|reflexivity]. }
  split.
  { intros e He.
    destruct (run_raises_record max_pages st e He)
      as [Hloop [Hlog [Hp [_ Hkept]]]].
    split.
    { rewrite Hfst, Hout in He.
      destruct (outcome_raise _ _ _ _ _ _ Hf He) as [k [a [rows H]]].
      exists k, a, rows. exact H. }
    split; [exact Hloop|]. split; [exact Hlog|]. split; [exact Hp|].
    split; [exact Hsess|exact Hkept]. }
  split; [exact Hevs|]. split.
  { rewrite Hevs. apply fold_insert_all_incl. }
  split.
  { intros i k data evs rows Hnth H1 H2 H3.
    pose proof (loads_nth tr 0 i k (Ok data) Hnth) as Hl.
    rewrite (loaded_page _ _ _ _ H1 H2 H3) in Hl.
    split; [exact Hl|]. rewrite Hevs.
    eapply fold_insert_all_present, Hl. }
  intros j Hj. destruct (Hstates j Hj) as [st_j [total_j H]].
  exists st_j, total_j. exact H.
Qed.

End FailedRun.

(** Page 0 is loaded, then the server answers 503 to the three attempts
    for page 1: the run raises, its record is failed, and the row of
    page 0 is in the committed table. *)
Example failed_run_example :
  let env := Examples.example_env Examples.fails_after_first Examples.no_file in
  let out := TicketmasterIngestor.run env Examples.ingestor "DE" 5
               (initial_state empty_db) in
  fst out = Raise (RetryError (Exc "HTTPError" "503 Server Error"))
  /\ map page (requests (snd out)) = [0; 1; 1; 1]
  /\ ingestion_log (committed (snd out))
     = [mkRun "run-0" "ticketmaster" None None failed
              (Some "RetryError[<Future state=finished raised HTTPError>]")
              (Some 4%Z)]
  /\ map key (events (committed (snd out)))
     = [(PStr "ticketmaster", PStr "E1")].
Proof. cbv zeta. repeat split; reflexivity. Qed.

(** ** The file ingestor *)

Section CsvClaims.
Variable env : Env.
Import CsvIngestor.

(** C5, as the code has it.  When the file is read, a run of the file
    ingestor returns the number of rows of the file and commits, in its one
    commit, exactly one new record in the log: status success, fetched and
    loaded counts both equal to that number, a finish time and no error
    message.  When [pd.read_csv] raises, the run raises the same
    exception. *)
Theorem csv_run_record csv_path st :
  let final := snd (run env csv_path st) in
  match read_csv env csv_path with
  | Ok df =>
      let n := List.length (data df) in
      fst (run env csv_path st) = Ok n
      /\ ingestion_log (committed final)
         = ingestion_log (committed st)
           ++ [mkRun (uuid4 env (uuid_calls st)) "csv" (Some n) (Some n)
                     success None (Some (clock st))]
      /\ commits final = commits st ++ [committed final]
  | Raise e => fst (run env csv_path st) = Raise e
  end.
Proof.
  cbv zeta.
  destruct (read_csv env csv_path) as [df|e] eqn:E.
  - assert (Hb : build_rows env csv_path
                 = Ok (map (row_dict env (columns df)) (data df))).
    { unfold build_rows. rewrite E. reflexivity. }
    rewrite (csv_run_ok env st Hb). cbn [fst snd committed commits].
    unfold csv_committed, log_run.
    cbn [ingestion_log set_ingestion_log set_events data columns].
    rewrite !length_map. repeat split; reflexivity.
  - assert (Hb : build_rows env csv_path = Raise e).
    { unfold build_rows. rewrite E. reflexivity. }
    rewrite (csv_run_raise env st Hb). reflexivity.
Qed.

End CsvClaims.

(** C5 as stated does not hold.  On a file that does not exist the run
    raises pandas' [FileNotFoundError], not an error of the class the claim
    names, and it leaves the log without any record of the run: nothing
    was committed. *)
Lemma csv_run_missing_file :
  let env := Examples.example_env Examples.unavailable Examples.no_file in
  let outcome := CsvIngestor.run env "missing.csv" (initial_state empty_db) in
  fst outcome
  = Raise (Exc "FileNotFoundError"
               "[Errno 2] No such file or directory: 'missing.csv'")
  /\ ingestion_log (committed (snd outcome)) = []
  /\ commits (snd outcome) = [].
Proof. cbv zeta. repeat split; reflexivity. Qed.

Section CsvRows.
Variable env : Env.
Import CsvIngestor.

(** What the row dictionary holds for a column that goes through [str]:
    the empty string without the column, the text of the cell otherwise
    ([None] for a cell that is [None], [nan] for one that is NaN). *)
Definition stringified (cols : list string) (cells : list pyval)
           (label : string) : pyval :=
  match lookup label (combine cols cells) with
  | None => PStr ""
  | Some v => PStr (str (repr_container env) v)
  end.

(** What it holds for any other column: null without the column, the
    cell as it is otherwise. *)
Definition plain (cols : list string) (cells : list pyval) (label : string)
  : pyval :=
  match lookup label (combine cols cells) with
  | None => PNone
  | Some v => v
  end.

Lemma lookup_combine_absent (label : string) :
  forall cols cells, ~ In label cols -> lookup label (combine cols cells) = None.
Proof.
  induction cols as [|c cols IH]; intros [|v cells] H; simpl; try reflexivity.
  destruct (String.eqb_spec label c) as [->|_].
  - exfalso. apply H. left. reflexivity.
  - apply IH. intros Hin. apply H. right. exact Hin.
Qed.

Lemma row_get_plain cols cells label :
  row_get cols cells label PNone = plain cols cells label.
Proof. reflexivity. Qed.

Lemma row_get_stringified cols cells label :
  str_ env (row_get cols cells label (PStr "")) = stringified cols cells label.
Proof.
  unfold row_get, stringified, str_.
  destruct (lookup label (combine cols cells)) as [v|]; reflexivity.
Qed.

(** Every row of the frame gives one row dictionary, by a function that
    checks nothing and cannot fail. *)
Lemma row_dict_fields cols cells :
  row_dict env cols cells
  = mkRow (PStr "csv")
          (stringified cols cells "event_id")
          PNone
          (plain cols cells "event_name")
          (stringified cols cells "event_date")
          (stringified cols cells "event_time")
          (plain cols cells "venue_name")
          (plain cols cells "venue_city")
          (plain cols cells "venue_country")
          (plain cols cells "venue_lat")
          (plain cols cells "venue_lon")
          (plain cols cells "category")
          (plain cols cells "subcategory")
          (stringified cols cells "price_min")
          (stringified cols cells "price_max")
          (plain cols cells "currency")
          (plain cols cells "url")
          (plain cols cells "status").
Proof.
  unfold row_dict. rewrite !row_get_plain, !row_get_stringified. reflexivity.
Qed.

Lemma build_rows_ok csv_path df :
  read_csv env csv_path = Ok df ->
  build_rows env csv_path = Ok (map (row_dict env (columns df)) (data df)).
Proof. intros E. unfold build_rows. rewrite E. reflexivity. Qed.

(** All rows are handed to the bulk insert. *)
Lemma csv_run_inserts_all csv_path df st :
  read_csv env csv_path = Ok df ->
  events (committed (snd (run env csv_path st)))
  = execute_batch (events (committed st))
                  (map (row_dict env (columns df)) (data df)) 100.
Proof.
  intros E. rewrite (csv_run_ok env st (build_rows_ok csv_path df E)).
  reflexivity.
Qed.

(** Without the column the text is empty; a cell that is [None] gives the
    text [None] under [str] and stays null elsewhere; a cell that is NaN
    gives the text [nan] under [str] and stays NaN elsewhere. *)
Lemma null_cells cols cells label :
  (~ In label cols -> stringified cols cells label = PStr "")
  /\ (lookup label (combine cols cells) = Some PNone ->
      stringified cols cells label = PStr "None"
      /\ plain cols cells label = PNone)
  /\ (lookup label (combine cols cells) = Some (PFloat "nan") ->
      stringified cols cells label = PStr "nan"
      /\ plain cols cells label = PFloat "nan").
Proof.
  unfold stringified, plain. split; [|split].
  - intros H. rewrite lookup_combine_absent by exact H. reflexivity.
  - intros ->. split; reflexivity.
  - intros ->. split; reflexivity.
Qed.

End CsvRows.

(** C10.  The claim does not hold of the code, and the code is at odds
    with its own comment ("Convert NaN -> None for psycopg2", line 94).
    In a file whose price and latitude columns hold numbers, with the
    cells of the second row empty, pandas types the two columns as
    numbers and line 94 leaves their empty cells NaN.  The frame below is
    what the loop then sees.  The price of the second row is stored as
    the text [nan], not [None], and its latitude is handed to the insert
    as NaN, not as a null. *)
Theorem csv_null_numbers_stay_nan :
  let file := mkFrame ["event_id"; "event_name"; "venue_lat"; "price_min"]
                      [[PStr "A1"; PStr "Concert"; PFloat "52.5"; PFloat "20.0"];
                       [PStr "A2"; PStr "Match"; PFloat "nan"; PFloat "nan"]] in
  let env := Examples.example_env Examples.unavailable (fun _ => Ok file) in
  let final := snd (CsvIngestor.run env "events.csv" (initial_state empty_db)) in
  CsvIngestor.build_rows env "events.csv"
  = Ok (map (CsvIngestor.row_dict env (columns file)) (data file))
  /\ map (fun r => (raw_event_id r, venue_lat r, price_min r))
         (events (committed final))
     = [(PStr "A1", PFloat "52.5", PStr "20.0");
        (PStr "A2", PFloat "nan", PStr "nan")]
  /\ (forall r, In r (events (committed final)) ->
        price_min r <> PStr "None"
        /\ venue_lat r <> PNone).
Proof.
  cbv zeta. split; [reflexivity|]. split; [reflexivity|].
  intros r [<-|[<-|[]]]; split; discriminate.
Qed.

(** A frame in which pandas has turned the empty cells into [None] (a
    column of texts), and without the date, time and price columns: the
    two rows without an event id share the key [("csv", "None")], and
    only the first of them is stored. *)
Example csv_rows_example :
  let env := Examples.example_env Examples.unavailable
               (fun _ => Ok (mkFrame ["event_id"; "event_name"; "venue_city"]
                                     [[PStr "A1"; PStr "Concert"; PStr "Berlin"];
                                      [PNone; PStr "Match"; PNone];
                                      [PNone; PStr "Play"; PStr "Bonn"]])) in
  let final := snd (CsvIngestor.run env "events.csv" (initial_state empty_db)) in
  fst (CsvIngestor.run env "events.csv" (initial_state empty_db)) = Ok 3
  /\ map (fun r => (raw_event_id r, event_name r, venue_city r, event_date r))
         (events (committed final))
     = [(PStr "A1", PStr "Concert", PStr "Berlin", PStr "");
        (PStr "None", PStr "Match", PNone, PStr "")]
  /\ map log_records_loaded (ingestion_log (committed final)) = [Some 3].
Proof. cbv zeta. repeat split; reflexivity. Qed.

(** ** The normalizer of the API ingestor *)

Section ParseEvent.
Variable env : Env.
Import TicketmasterIngestor.

(** The exceptions the lookups of [parse_event] can raise. *)
Definition lookup_error (e : Exn) : Prop :=
  exists cls msg,
    e = Exc cls msg /\ In cls ["AttributeError"; "TypeError"; "KeyError"].

Definition raises_lookup_error {A} (r : result A) : Prop :=
  match r with
  | Ok _ => True
  | Raise e => lookup_error e
  end.

Lemma get_lookup_error v k default : raises_lookup_error (get v k default).
Proof.
  destruct v; simpl; try exact Logic.I;
    (eexists; eexists; split; [reflexivity|simpl; auto]).
Qed.

Lemma first_or_empty_lookup_error v : raises_lookup_error (first_or_empty v).
Proof.
  unfold first_or_empty.
  destruct v as [|b|z|r|s|l|d]; simpl.
  - exact Logic.I.
  - destruct b; simpl; [|exact Logic.I].
    eexists; eexists; split; [reflexivity|simpl; auto].
  - destruct (negb (z =? 0)%Z); simpl; [|exact Logic.I].
    eexists; eexists; split; [reflexivity|simpl; auto].
  - destruct (negb _); simpl; [|exact Logic.I].
    eexists; eexists; split; [reflexivity|simpl; auto].
  - destruct s; simpl; exact Logic.I.
  - destruct l; simpl; exact Logic.I.
  - destruct d; simpl; [exact Logic.I|].
    eexists; eexists; split; [reflexivity|simpl; auto].
Qed.

Lemma rbind_lookup_error {A B} (r : result A) (k : A -> result B) :
  raises_lookup_error r -> (forall a, raises_lookup_error (k a)) ->
  raises_lookup_error (rbind r k).
Proof. destruct r; simpl; auto. Qed.

Lemma parse_event_lookup_error event :
  raises_lookup_error (parse_event env event).
Proof.
  unfold parse_event.
  repeat (apply rbind_lookup_error;
          [first [apply get_lookup_error|apply first_or_empty_lookup_error]
          |intros ?]).
  exact Logic.I.
Qed.

(** Every row [parse_event] returns is tagged ticketmaster. *)
Lemma parse_event_source event r :
  parse_event env event = Ok r -> source r = PStr "ticketmaster".
Proof.
  unfold parse_event. intros H.
  repeat match type of H with
         | rbind ?x _ = Ok _ =>
             destruct x; cbn [rbind] in H; [|discriminate]
         end.
  injection H as <-. reflexivity.
Qed.

Lemma traverse_Forall {A B} (f : A -> result B) (P : B -> Prop) :
  (forall a b, f a = Ok b -> P b) ->
  forall l l', traverse f l = Ok l' -> Forall P l'.
Proof.
  intros Hf l; induction l as [|a l IH]; intros l' H; simpl in H.
  - injection H as <-. constructor.
  - destruct (f a) as [b|e] eqn:E; cbn [rbind] in H; [|discriminate].
    destruct (traverse f l) as [bs|e]; cbn [rbind] in H; [|discriminate].
    injection H as <-. constructor; [eapply Hf, E|apply IH; reflexivity].
Qed.

(** The row of an event that has none of the nested structures. *)
Definition bare_row (d : list (string * pyval)) : Row :=
  let field k := match lookup k d with Some v => v | None => PNone end in
  mkRow (PStr "ticketmaster") (field "id")
        (PStr (json_dumps env (PDict d))) (field "name")
        PNone PNone PNone PNone PNone PNone PNone PNone PNone
        (PStr "") (PStr "") PNone (field "url") PNone.

Lemma parse_event_bare (d : list (string * pyval)) :
  lookup "_embedded" d = None -> lookup "classifications" d = None ->
  lookup "priceRanges" d = None -> lookup "dates" d = None ->
  parse_event env (PDict d) = Ok (bare_row d).
Proof.
  intros H1 H2 H3 H4. unfold parse_event, get.
  rewrite H1, H2, H3, H4. reflexivity.
Qed.

End ParseEvent.

Section Normalizer.
Variable env : Env.
Import TicketmasterIngestor.

Ltac run_lookups H :=
  repeat (simpl in H;
          match type of H with
          | rbind (Ok _) _ = Ok _ => cbn [rbind] in H
          | rbind ?x _ = Ok _ =>
              destruct x; cbn [rbind] in H; [|discriminate]
          end);
  simpl in H; injection H as <-.

Lemma parse_event_no_venue d r :
  lookup "_embedded" d = None -> parse_event env (PDict d) = Ok r ->
  venue_name r = PNone /\ venue_city r = PNone /\ venue_country r = PNone
  /\ venue_lat r = PNone /\ venue_lon r = PNone.
Proof.
  intros H Hp. unfold parse_event in Hp. unfold get at 1 in Hp.
  rewrite H in Hp. run_lookups Hp. repeat split; reflexivity.
Qed.

Lemma parse_event_no_classification d r :
  lookup "classifications" d = None -> parse_event env (PDict d) = Ok r ->
  category r = PNone /\ subcategory r = PNone.
Proof.
  intros H Hp. unfold parse_event in Hp.
  change (get (PDict d) "classifications" one_empty_dict)
    with (Ok (match lookup "classifications" d with
              | Some x => x
              | None => one_empty_dict
              end)) in Hp.
  rewrite H in Hp. run_lookups Hp. repeat split; reflexivity.
Qed.

Lemma parse_event_no_price d r :
  lookup "priceRanges" d = None -> parse_event env (PDict d) = Ok r ->
  price_min r = PStr "" /\ price_max r = PStr "" /\ currency r = PNone.
Proof.
  intros H Hp. unfold parse_event in Hp.
  change (get (PDict d) "priceRanges" one_empty_dict)
    with (Ok (match lookup "priceRanges" d with
              | Some x => x
              | None => one_empty_dict
              end)) in Hp.
  rewrite H in Hp. run_lookups Hp. repeat split; reflexivity.
Qed.

(** C6, as the code has it.  On any record [parse_event] returns one row
    or raises the [AttributeError], [TypeError] or [KeyError] of the lookup
    that met a value of the wrong type.  A record without the embedded
    venue list gets null venue fields, one without classifications gets
    null category and subcategory, one without price ranges gets a null
    currency and the empty string for both prices; a record with none of
    the nested structures is normalized, whatever else it lacks: a missing
    event id or name is null like any other field.  The file ingestor
    builds its rows without any failure. *)
Theorem normalizer_tolerates_absence :
  (forall event,
      match parse_event env event with
      | Ok _ => True
      | Raise e =>
          exists cls msg,
            e = Exc cls msg
            /\ In cls ["AttributeError"; "TypeError"; "KeyError"]
      end)
  /\ (forall d r,
        parse_event env (PDict d) = Ok r ->
        (lookup "_embedded" d = None ->
         venue_name r = PNone /\ venue_city r = PNone
         /\ venue_country r = PNone /\ venue_lat r = PNone
         /\ venue_lon r = PNone)
        /\ (lookup "classifications" d = None ->
            category r = PNone /\ subcategory r = PNone)
        /\ (lookup "priceRanges" d = None ->
            price_min r = PStr "" /\ price_max r = PStr ""
            /\ currency r = PNone))
  /\ (forall d,
        lookup "_embedded" d = None -> lookup "classifications" d = None ->
        lookup "priceRanges" d = None -> lookup "dates" d = None ->
        parse_event env (PDict d)
        = Ok (mkRow (PStr "ticketmaster")
                    (match lookup "id" d with Some v => v | None => PNone end)
                    (PStr (json_dumps env (PDict d)))
                    (match lookup "name" d with Some v => v | None => PNone end)
                    PNone PNone PNone PNone PNone PNone PNone PNone PNone
                    (PStr "") (PStr "") PNone
                    (match lookup "url" d with Some v => v | None => PNone end)
                    PNone))
  /\ (forall csv_path df,
        read_csv env csv_path = Ok df ->
        exists rows,
          CsvIngestor.build_rows env csv_path = Ok rows
          /\ List.length rows = List.length (data df)).
Proof.
  split; [|split; [|split]].
  - intros event. apply (parse_event_lookup_error env event).
  - intros d r Hp. split; [|split]; intros H.
    + apply (parse_event_no_venue d r H Hp).
    + apply (parse_event_no_classification d r H Hp).
    + apply (parse_event_no_price d r H Hp).
  - intros d H1 H2 H3 H4. apply (parse_event_bare env d H1 H2 H3 H4).
  - intros csv_path df E. eexists. split; [apply build_rows_ok, E|].
    apply length_map.
Qed.

End Normalizer.

(** C6 as stated does not hold.  The empty record, which has no price
    sub-object, no event id and no event name, is normalized: its prices
    are the empty string, not null, and its id and name are null without
    any failure.  A record whose embedded part is null fails with an
    [AttributeError] whose message names no field. *)
Lemma normalizer_not_as_stated :
  let env := Examples.example_env Examples.unavailable Examples.no_file in
  (exists r,
      TicketmasterIngestor.parse_event env (PDict []) = Ok r
      /\ price_min r = PStr "" /\ price_min r <> PNone
      /\ price_max r = PStr "" /\ price_max r <> PNone
      /\ raw_event_id r = PNone /\ event_name r = PNone)
  /\ TicketmasterIngestor.parse_event env (PDict [("_embedded", PNone)])
     = Raise (Exc "AttributeError" "'NoneType' object has no attribute 'get'").
Proof.
  cbv zeta. split; [|reflexivity].
  eexists. split; [reflexivity|]. cbn.
  repeat split; try reflexivity; discriminate.
Qed.

(** A full record. *)
Example parse_event_example :
  let env := Examples.example_env Examples.unavailable Examples.no_file in
  let event :=
    PDict [("id", PStr "Z7"); ("name", PStr "Rock Night");
           ("url", PStr "https://example.com/z7");
           ("dates", PDict [("start", PDict [("localDate", PStr "2025-03-01");
                                             ("localTime", PStr "20:00:00")]);
                            ("status", PDict [("code", PStr "onsale")])]);
           ("classifications",
            PList [PDict [("segment", PDict [("name", PStr "Music")]);
                          ("genre", PDict [("name", PStr "Rock")])]]);
           ("priceRanges",
            PList [PDict [("min", PInt 20); ("max", PFloat "45.5");
                          ("currency", PStr "EUR")]]);
           ("_embedded",
            PDict [("venues",
                    PList [PDict [("name", PStr "Festhalle");
                                  ("city", PDict [("name", PStr "Frankfurt")]);
                                  ("country", PDict [("name", PStr "Germany")]);
                                  ("location",
                                   PDict [("latitude", PStr "50.1109");
                                          ("longitude", PStr "8.6569")])]])])] in
  TicketmasterIngestor.parse_event env event
  = Ok (mkRow (PStr "ticketmaster") (PStr "Z7") (PStr "<json>")
              (PStr "Rock Night") (PStr "2025-03-01") (PStr "20:00:00")
              (PStr "Festhalle") (PStr "Frankfurt") (PStr "Germany")
              (PStr "50.1109") (PStr "8.6569") (PStr "Music") (PStr "Rock")
              (PStr "20") (PStr "45.5") (PStr "EUR")
              (PStr "https://example.com/z7") (PStr "onsale")).
Proof. reflexivity. Qed.

(** ** The source identifier of a row *)

Section SourceTags.
Variable env : Env.
Import TicketmasterIngestor.

Definition from_csv (r : Row) : Prop := source r = PStr "csv".
Definition from_ticketmaster (r : Row) : Prop := source r = PStr "ticketmaster".
Definition tagged (r : Row) : Prop := from_csv r \/ from_ticketmaster r.

Lemma insert_all_Forall (P : Row -> Prop) (rows : list Row) :
  forall t, Forall P t -> Forall P rows -> Forall P (insert_all t rows).
Proof.
  induction rows as [|r rows IH]; intros t Ht Hrows; simpl; [exact Ht|].
  inversion Hrows as [|? ? Hr Hrest]; subst. apply IH; [|exact Hrest].
  unfold insert_on_conflict_do_nothing.
  destruct (has_key (key r) t); [exact Ht|].
  apply Forall_app. split; [exact Ht|constructor; [exact Hr|constructor]].
Qed.

Lemma build_rows_from_csv csv_path rows :
  CsvIngestor.build_rows env csv_path = Ok rows -> Forall from_csv rows.
Proof.
  unfold CsvIngestor.build_rows. intros H.
  destruct (read_csv env csv_path) as [df|e]; cbn [rbind] in H;
    [|discriminate].
  injection H as <-. apply Forall_forall. intros r Hr.
  apply in_map_iff in Hr. destruct Hr as [cells [<- _]]. reflexivity.
Qed.

Lemma parsed_from_ticketmaster items rows :
  traverse (parse_event env) items = Ok rows -> Forall from_ticketmaster rows.
Proof. apply traverse_Forall. intros a b. apply parse_event_source. Qed.

(** Every staged row, pending or committed, carries one of the two tags. *)
Definition staging_tagged (st : State) : Prop :=
  Forall tagged (events (session st)) /\ Forall tagged (events (committed st)).

Lemma staging_tagged_data_only : data_only staging_tagged.
Proof. intros st st' Hc Hs _ _ _ H. unfold staging_tagged. rewrite Hc, Hs. exact H. Qed.

Lemma tagged_load_to_raw rows run_id :
  Forall from_ticketmaster rows ->
  preserves staging_tagged (load_to_raw rows run_id).
Proof.
  intros Hrows st [Hs Hc]. destruct rows as [|r rows]; [split; assumption|].
  unfold load_to_raw, bind, statement, commit, modify, ret, staging_tagged.
  cbn [snd session committed set_session events set_events].
  rewrite execute_batch_insert_all by lia.
  assert (Forall tagged (r :: rows)).
  { eapply Forall_impl; [|exact Hrows]. intros a Ha. right. exact Ha. }
  split; apply insert_all_Forall; assumption.
Qed.

Lemma tagged_run_job (j : Job) : preserves staging_tagged (run_job env j).
Proof.
  intros st [Hs Hc]. destruct j as [csv_path|self country_code max_pages];
    cbn [run_job].
  - destruct (CsvIngestor.build_rows env csv_path) as [rows|e] eqn:E.
    + rewrite (csv_run_ok env st E). unfold staging_tagged, csv_committed.
      cbn [snd session committed events CsvIngestor.log_run set_ingestion_log
           set_events].
      rewrite execute_batch_insert_all by lia.
      assert (Forall tagged rows).
      { eapply Forall_impl; [|exact (build_rows_from_csv csv_path rows E)].
        intros a Ha. left. exact Ha. }
      split; apply insert_all_Forall; assumption.
    + rewrite (csv_run_raise env st E). split; assumption.
  - rewrite run_eq. cbv zeta.
    assert (H0 : staging_tagged (started env st)) by (split; exact Hc).
    pose proof (page_loop_preserves_rows env staging_tagged
                  (Forall from_ticketmaster) self country_code
                  (uuid4 env (uuid_calls st)) staging_tagged_data_only
                  parsed_from_ticketmaster
                  (fun rows H => tagged_load_to_raw rows (uuid4 env (uuid_calls st)) H)
                  (range max_pages) 0 (started env st) H0) as [Hs1 _].
    destruct (page_loop env self country_code _ _ 0 (started env st))
      as [[total|e] st1]; split; exact Hs1.
Qed.

(** C8, as the code has it.  The file ingestor tags every row it builds
    with the source identifier "csv", the API ingestor tags every row it
    parses with "ticketmaster", and after any sequence of ingestion runs
    from the empty database every staged row carries one of the two. *)
Theorem source_identifiers :
  (forall cols cells, source (CsvIngestor.row_dict env cols cells) = PStr "csv")
  /\ (forall csv_path rows,
        CsvIngestor.build_rows env csv_path = Ok rows ->
        Forall (fun r => source r = PStr "csv") rows)
  /\ (forall event r,
        parse_event env event = Ok r -> source r = PStr "ticketmaster")
  /\ (forall jobs,
        Forall (fun r => source r = PStr "csv"
                         \/ source r = PStr "ticketmaster")
               (events (committed (run_jobs env jobs
                                            (initial_state empty_db))))).
Proof.
  split; [reflexivity|]. split; [apply build_rows_from_csv|].
  split; [apply parse_event_source|].
  intros jobs.
  assert (H : forall st, staging_tagged st ->
                         staging_tagged (run_jobs env jobs st)).
  { induction jobs as [|j jobs IH]; intros st Hst; [exact Hst|].
    apply IH, tagged_run_job, Hst. }
  apply (H (initial_state empty_db)). split; constructor.
Qed.

End SourceTags.

(** C8 as stated does not hold: the tag of a row of the file ingestor is
    not "file", and the tag of a row of the API ingestor is not "api". *)
Lemma source_identifiers_not_as_stated :
  let env := Examples.example_env Examples.unavailable Examples.no_file in
  source (CsvIngestor.row_dict env ["event_id"] [PStr "A1"]) <> PStr "file"
  /\ exists r,
       TicketmasterIngestor.parse_event env Examples.event_E1 = Ok r
       /\ source r <> PStr "api".
Proof.
  cbv zeta. split; [discriminate|].
  eexists. split; [reflexivity|discriminate].
Qed.

(** ** The console *)

(** The state with some more lines on the console. *)
Definition say (evs : list Event) (st : State) : State :=
  mkState (committed st) (session st) (requests st) (sleeps st) (clock st)
          (uuid_calls st) (console st ++ evs) (commits st).

Lemma logger_eq (ev : Event) (st : State) : logger ev st = (Ok tt, say [ev] st).
Proof. reflexivity. Qed.

Lemma say_say (a b : list Event) (st : State) :
  say b (say a st) = say (a ++ b) st.
Proof. unfold say. simpl. rewrite <- app_assoc. reflexivity. Qed.

(** ** The summary *)

Section SummaryStage.
Variable env : Env.
Import Pipeline.

(** The line one summary query leaves on the console, given what
    [cur.execute] did. *)
Definition summary_event (label : string)
           (executed : result (list (list pyval))) : Event :=
  match executed with
  | Raise e => SummaryError label e
  | Ok rows =>
      match fetchone_0 rows with
      | Raise e => SummaryError label e
      | Ok v =>
          match format_count v with
          | Raise e => SummaryError label e
          | Ok shown => SummaryLine label shown
          end
      end
  end.

(** The state after a query: its line on the console, and the session as
    the database left it. *)
Definition after_query (label query : string) (st : State) : State :=
  let out := sql env query (session st) in
  mkState (committed st) (snd out) (requests st) (sleeps st) (clock st)
          (uuid_calls st) (console st ++ [summary_event label (fst out)])
          (commits st).

(** A summary query never raises. *)
Lemma summary_query_eq label query st :
  summary_query env label query st = (Ok tt, after_query label query st).
Proof.
  unfold summary_query, try_except, bind, execute, lift, logger, modify,
    after_query, summary_event.
  destruct (sql env query (session st)) as [[rows|e] d]; cbn [fst snd];
    [|reflexivity].
  destruct (fetchone_0 rows) as [v|e]; [|reflexivity].
  destruct (format_count v) as [shown|e]; reflexivity.
Qed.

(** The states the loop goes through. *)
Fixpoint after_queries (qs : list (string * string)) (st : State) : State :=
  match qs with
  | [] => st
  | (label, query) :: rest => after_queries rest (after_query label query st)
  end.

Lemma summary_loop_eq qs :
  forall st, summary_loop env qs st = (Ok tt, after_queries qs st).
Proof.
  induction qs as [|[label query] rest IH]; intros st; [reflexivity|].
  cbn [summary_loop after_queries]. unfold bind.
  rewrite summary_query_eq. apply IH.
Qed.

(** The lines of the queries [qs], run one after the other from the
    session [d]: each query is executed on the session the one before it
    left, whatever that one did. *)
Fixpoint summary_lines (qs : list (string * string)) (d : DB) : list Event :=
  match qs with
  | [] => []
  | (label, query) :: rest =>
      summary_event label (fst (sql env query d))
      :: summary_lines rest (snd (sql env query d))
  end.

Lemma after_queries_console qs :
  forall st,
    console (after_queries qs st) = console st ++ summary_lines qs (session st)
    /\ committed (after_queries qs st) = committed st
    /\ commits (after_queries qs st) = commits st.
Proof.
  induction qs as [|[label query] rest IH]; intros st.
  - simpl. rewrite app_nil_r. auto.
  - cbn [after_queries summary_lines].
    destruct (IH (after_query label query st)) as [Hc [Hd Hh]].
    rewrite Hc, Hd, Hh. unfold after_query. cbn [console session committed commits].
    rewrite <- app_assoc. auto.
Qed.

Definition event_label (ev : Event) : option string :=
  match ev with
  | SummaryLine label _ | SummaryError label _ => Some label
  | _ => None
  end.

Lemma summary_event_label label executed :
  event_label (summary_event label executed) = Some label.
Proof.
  unfold summary_event. destruct executed as [rows|e]; [|reflexivity].
  destruct (fetchone_0 rows) as [v|e]; [|reflexivity].
  destruct (format_count v); reflexivity.
Qed.

Lemma summary_lines_labels qs :
  forall d, map event_label (summary_lines qs d) = map (fun q => Some (fst q)) qs.
Proof.
  induction qs as [|[label query] rest IH]; intros d; [reflexivity|].
  cbn [summary_lines map fst]. rewrite summary_event_label, IH. reflexivity.
Qed.

Lemma print_pipeline_summary_eq st :
  print_pipeline_summary env st
  = (Ok tt, snd (print_pipeline_summary env st))
  /\ console (snd (print_pipeline_summary env st))
     = console st ++ [Rule; StepStarted Summary; Rule]
       ++ summary_lines queries (session st) ++ [Rule]
  /\ committed (snd (print_pipeline_summary env st)) = committed st
  /\ commits (snd (print_pipeline_summary env st)) = commits st.
Proof.
  assert (E : print_pipeline_summary env st
              = (Ok tt,
                 say [Rule]
                     (after_queries queries
                        (say [Rule; StepStarted Summary; Rule] st)))).
  { unfold print_pipeline_summary, bind. rewrite !logger_eq, !say_say.
    rewrite summary_loop_eq, logger_eq. reflexivity. }
  rewrite E. cbn [fst snd].
  destruct (after_queries_console queries
              (say [Rule; StepStarted Summary; Rule] st)) as [Hc [Hd Hh]].
  change (console (say [Rule] ?x)) with (console x ++ [Rule]).
  change (committed (say [Rule] ?x)) with (committed x).
  change (commits (say [Rule] ?x)) with (commits x).
  rewrite Hc, Hd, Hh. cbn [say console committed commits session].
  split; [reflexivity|]. split; [|split; reflexivity].
  rewrite <- !app_assoc. reflexivity.
Qed.

(** C9.  The summary never raises.  Between its header and its closing
    rule it writes one line per query of its fixed list, in the order of
    the list and under the label of the query: the count, or the error
    when executing the query, fetching its result or formatting it
    raised.  A query is executed whatever the queries before it did, on the
    session they left; nothing is committed. *)
Theorem summary_reports_every_query st :
  let lines := summary_lines queries (session st) in
  fst (print_pipeline_summary env st) = Ok tt
  /\ console (snd (print_pipeline_summary env st))
     = console st ++ [Rule; StepStarted Summary; Rule] ++ lines ++ [Rule]
  /\ map event_label lines
     = [Some "Total raw events"; Some "Unprocessed raw events";
        Some "Fact events loaded"; Some "Unique venues";
        Some "Unique categories"; Some "Quality checks run";
        Some "Failed quality checks"]
  /\ (forall label query rest d,
        summary_lines ((label, query) :: rest) d
        = summary_event label (fst (sql env query d))
          :: summary_lines rest (snd (sql env query d)))
  /\ (forall label e, summary_event label (Raise e) = SummaryError label e)
  /\ committed (snd (print_pipeline_summary env st)) = committed st
  /\ commits (snd (print_pipeline_summary env st)) = commits st.
Proof.
  cbv zeta. destruct (print_pipeline_summary_eq st) as [E [Hc [Hd Hh]]].
  split; [rewrite E; reflexivity|]. split; [exact Hc|].
  split; [apply (summary_lines_labels queries)|].
  repeat split; assumption.
Qed.

Lemma print_pipeline_summary_facts st :
  fst (print_pipeline_summary env st) = Ok tt
  /\ console (snd (print_pipeline_summary env st))
     = console st ++ [Rule; StepStarted Summary; Rule]
       ++ summary_lines queries (session st) ++ [Rule]
  /\ map event_label (summary_lines queries (session st))
     = [Some "Total raw events"; Some "Unprocessed raw events";
        Some "Fact events loaded"; Some "Unique venues";
        Some "Unique categories"; Some "Quality checks run";
        Some "Failed quality checks"].
Proof.
  destruct (print_pipeline_summary_eq st) as [-> [Hc _]].
  split; [reflexivity|]. split; [exact Hc|].
  apply (summary_lines_labels queries).
Qed.

End SummaryStage.

(** Every query fails once one of them has failed (the transaction is
    aborted): the seven lines are there all the same. *)
Example summary_example :
  let aborting (text : string) (d : DB) :=
    if String.eqb text "SELECT COUNT(*) FROM warehouse.fact_events"
    then (Raise (Exc "UndefinedTable" "relation does not exist"),
          mkDB [] [] [("aborted", [])])
    else match tables d with
         | [] => (Ok [[PInt 7]], d)
         | _ => (Raise (Exc "InFailedSqlTransaction"
                            "current transaction is aborted"), d)
         end in
  let env := mkEnv None (Ok 100%Z) Examples.unavailable Examples.no_file
                   (fun _ => Ok "") aborting (fun _ => "") (fun _ => "")
                   (fun _ => "") (fun _ _ => true) in
  Pipeline.print_pipeline_summary env (initial_state empty_db)
  = (Ok tt,
     mkState empty_db (mkDB [] [] [("aborted", [])]) [] [] 0 0
       [Rule; StepStarted Summary; Rule;
        SummaryLine "Total raw events" (PInt 7);
        SummaryLine "Unprocessed raw events" (PInt 7);
        SummaryError "Fact events loaded"
          (Exc "UndefinedTable" "relation does not exist");
        SummaryError "Unique venues"
          (Exc "InFailedSqlTransaction" "current transaction is aborted");
        SummaryError "Unique categories"
          (Exc "InFailedSqlTransaction" "current transaction is aborted");
        SummaryError "Quality checks run"
          (Exc "InFailedSqlTransaction" "current transaction is aborted");
        SummaryError "Failed quality checks"
          (Exc "InFailedSqlTransaction" "current transaction is aborted");
        Rule]
       []).
Proof. reflexivity. Qed.

(** ** The stages of the orchestrator *)

Section Stages.
Variable env : Env.
Import Pipeline.

(** The lines that mark the start and the completion of a stage. *)
Definition is_mark (ev : Event) : bool :=
  match ev with
  | StepStarted _ | StepDone _ => true
  | _ => false
  end.

Definition stage_marks (evs : list Event) : list Event := filter is_mark evs.

(** [m] writes the marks [ok_marks] when it returns, and one of
    [fail_marks] when it raises. *)
Definition logs {A} (m : M A) (ok_marks : list Event)
           (fail_marks : list (list Event)) : Prop :=
  forall st,
  exists tr,
    console (snd (m st)) = console st ++ tr
    /\ if is_ok (fst (m st)) then stage_marks tr = ok_marks
       else In (stage_marks tr) fail_marks.

Lemma logs_bind {A B} (m : M A) (k : A -> M B) ok1 fail1 ok2 fail2 :
  logs m ok1 fail1 -> (forall a, logs (k a) ok2 fail2) ->
  logs (bind m k) (ok1 ++ ok2) (fail1 ++ map (app ok1) fail2).
Proof.
  intros Hm Hk st. unfold bind. destruct (Hm st) as [tr1 [Hc1 Hr1]].
  destruct (m st) as [[a|e] st1]; cbn [fst snd is_ok] in *.
  - destruct (Hk a st1) as [tr2 [Hc2 Hr2]]. exists (tr1 ++ tr2).
    split; [rewrite Hc2, Hc1, app_assoc; reflexivity|].
    unfold stage_marks in *. rewrite filter_app, Hr1.
    destruct (is_ok (fst (k a st1))); [rewrite Hr2; reflexivity|].
    apply in_or_app. right. apply in_map, Hr2.
  - exists tr1. split; [exact Hc1|]. apply in_or_app. left. exact Hr1.
Qed.

Lemma logs_weaken {A} (m : M A) ok fail ok' fail' :
  logs m ok fail -> ok = ok' -> incl fail fail' -> logs m ok' fail'.
Proof.
  intros H <- Hi st. destruct (H st) as [tr [Hc Hr]]. exists tr.
  split; [exact Hc|]. destruct (is_ok _); [exact Hr|apply Hi, Hr].
Qed.

Ltac among := intros ? Hin; simpl in Hin |- *; intuition (subst; auto).

(** A computation that leaves the console alone. *)
Lemma logs_silent {A} (m : M A) :
  (forall st, console (snd (m st)) = console st) -> logs m [] [[]].
Proof.
  intros H st. exists []. rewrite app_nil_r. split; [apply H|].
  destruct (is_ok _); simpl; auto.
Qed.

Lemma logs_logger (ev : Event) :
  logs (logger ev) (stage_marks [ev]) [].
Proof. intros st. exists [ev]. split; reflexivity. Qed.

Lemma logs_execute text : logs (execute env text) [] [[]].
Proof.
  apply logs_silent. intros st. unfold execute.
  destruct (sql env text (session st)); reflexivity.
Qed.

Lemma logs_commit : logs commit [] [[]].
Proof. apply logs_silent. reflexivity. Qed.

Lemma logs_lift {A} (r : result A) : logs (lift r) [] [[]].
Proof. apply logs_silent. reflexivity. Qed.

Lemma logs_run_sql_file sql_path : logs (run_sql_file env sql_path) [] [[]].
Proof.
  unfold run_sql_file. eapply logs_weaken.
  - apply logs_bind; [apply logs_lift|intros text].
    apply logs_bind; [apply logs_execute|intros rows].
    apply logs_bind; [apply logs_commit|intros _].
    apply (logs_logger (Executed sql_path)).
  - reflexivity.
  - among.
Qed.

Lemma logs_create_transform_schema : logs (create_transform_schema env) [] [[]].
Proof.
  unfold create_transform_schema. eapply logs_weaken.
  - apply logs_bind; [apply logs_execute|intros rows].
    apply logs_bind; [apply logs_execute|intros rows'].
    apply logs_commit.
  - reflexivity.
  - among.
Qed.

(** A stage writes its start mark, and its completion mark when it
    returns. *)
Lemma logs_step_transform :
  logs (step_transform env)
       [StepStarted Transform; StepDone Transform] [[StepStarted Transform]].
Proof.
  unfold step_transform. eapply logs_weaken.
  - apply logs_bind; [apply logs_logger|intros _].
    apply logs_bind; [apply logs_create_transform_schema|intros _].
    apply logs_bind; [apply logs_run_sql_file|intros _].
    apply logs_logger.
  - reflexivity.
  - among.
Qed.

Lemma logs_step (s : Stage) (sql_path : string) :
  logs (logger (StepStarted s) ;; run_sql_file env sql_path ;;
        logger (StepDone s))
       [StepStarted s; StepDone s] [[StepStarted s]].
Proof.
  eapply logs_weaken.
  - apply logs_bind; [apply logs_logger|intros _].
    apply logs_bind; [apply logs_run_sql_file|intros _].
    apply logs_logger.
  - reflexivity.
  - among.
Qed.

Lemma logs_print_pipeline_summary :
  logs (print_pipeline_summary env) [StepStarted Summary] [].
Proof.
  intros st.
  destruct (print_pipeline_summary_facts env st) as [Hr [Hc Hl]].
  exists ([Rule; StepStarted Summary; Rule]
          ++ summary_lines env queries (session st) ++ [Rule]).
  split; [exact Hc|]. rewrite Hr. cbn [is_ok].
  unfold stage_marks. rewrite !filter_app. cbn [filter is_mark app].
  f_equal. rewrite app_nil_r.
  assert (H : forall l, Forall (fun ev => event_label ev <> None) l ->
                        filter is_mark l = []).
  { induction l as [|ev l IH]; intros Hf; [reflexivity|].
    inversion Hf as [|? ? Hev Hrest]; subst. simpl.
    destruct ev; simpl in *; try congruence; apply IH, Hrest. }
  apply H. apply Forall_forall. intros ev Hev.
  assert (Hin : In (event_label ev)
                   (map event_label (summary_lines env queries (session st))))
    by (apply in_map, Hev).
  rewrite Hl in Hin. simpl in Hin. intuition congruence.
Qed.

(** The marks of a complete run, in order. *)
Definition progress : list Event :=
  [StepStarted Transform; StepDone Transform;
   StepStarted LoadFacts; StepDone LoadFacts;
   StepStarted QualityChecks; StepDone QualityChecks;
   StepStarted CreateKpiViews; StepDone CreateKpiViews;
   StepStarted Summary].

(** The body of the [try] block of [main]. *)
Definition stages : M unit :=
  step_transform env ;;
  step_load_facts env ;;
  step_quality_checks env ;;
  step_create_kpi_views env ;;
  print_pipeline_summary env ;;
  logger PipelineCompleted.

Lemma logs_stages :
  logs stages progress
       [firstn 1 progress; firstn 3 progress; firstn 5 progress;
        firstn 7 progress].
Proof.
  unfold stages. eapply logs_weaken.
  - apply logs_bind; [apply logs_step_transform|intros _].
    apply logs_bind; [apply logs_step|intros _].
    apply logs_bind; [apply logs_step|intros _].
    apply logs_bind; [apply logs_step|intros _].
    apply logs_bind; [apply logs_print_pipeline_summary|intros _].
    apply logs_logger.
  - reflexivity.
  - among.
Qed.

(** [run_stages]: the stages between the opening and the closing of the
    connection; when they raise, one more line and the same exception. *)
Lemma run_stages_eq st :
  run_stages env st
  = match stages (set_session (committed st) st) with
    | (Ok u, st1) => (Ok u, set_session (committed st1) st1)
    | (Raise e, st1) =>
        (Raise e,
         set_session (committed st1) (say [PipelineFailed e] st1))
    end.
Proof.
  unfold run_stages, bind at 1, get_db_connection, modify.
  unfold finally, try_except. fold stages.
  destruct (stages (set_session (committed st) st)) as [[u|e] st1];
    reflexivity.
Qed.

(** C2.  On one connection [main] runs transform, load_facts,
    quality_checks, create_reporting_views and the summary in this order.
    The marks it writes are the first [2k - 1] marks of a complete run,
    [k] being the number of stages started: a stage starts if and only if
    the stage before it completed, and the run returns if and only if all
    five started.  When a stage raises, the exception is logged and raised
    again as it is, the connection is closed, and the database stays as
    the stages committed it: nothing is rolled back. *)
Theorem stages_run_in_order st :
  let body := stages (set_session (committed st) st) in
  let final := snd (run_stages env st) in
  fst (run_stages env st) = fst body
  /\ committed final = committed (snd body)
  /\ commits final = commits (snd body)
  /\ console final
     = console (snd body)
       ++ match fst body with
          | Ok _ => []
          | Raise e => [PipelineFailed e]
          end
  /\ exists tr k,
       console (snd body) = console st ++ tr
       /\ 1 <= k <= 5
       /\ stage_marks tr = firstn (2 * k - 1) progress
       /\ (k = 5 <-> fst body = Ok tt)
       /\ In (StepStarted Transform) tr
       /\ (In (StepStarted LoadFacts) tr <-> In (StepDone Transform) tr)
       /\ (In (StepStarted QualityChecks) tr <-> In (StepDone LoadFacts) tr)
       /\ (In (StepStarted CreateKpiViews) tr
           <-> In (StepDone QualityChecks) tr)
       /\ (In (StepStarted Summary) tr <-> In (StepDone CreateKpiViews) tr).
Proof.
  cbv zeta. rewrite run_stages_eq.
  destruct (logs_stages (set_session (committed st) st)) as [tr [Hc Hm]].
  destruct (stages (set_session (committed st) st)) as [[[]|e] st1];
    cbn [fst snd is_ok] in *.
  - split; [reflexivity|]. split; [reflexivity|]. split; [reflexivity|].
    split; [cbn; rewrite app_nil_r; reflexivity|].
    exists tr, 5. split; [exact Hc|]. split; [lia|].
    split; [exact Hm|]. split; [tauto|].
    assert (Hin : forall ev, In ev tr /\ is_mark ev = true <-> In ev progress).
    { intros ev. rewrite <- Hm. unfold stage_marks. symmetry. apply filter_In. }
    repeat split; intros; apply Hin; simpl; auto 12.
  - split; [reflexivity|]. split; [reflexivity|]. split; [reflexivity|].
    split; [reflexivity|].
    assert (Hin : forall ev, In ev tr /\ is_mark ev = true
                             <-> In ev (stage_marks tr)).
    { intros ev. unfold stage_marks. symmetry. apply filter_In. }
    exists tr.
    destruct Hm as [Hm|[Hm|[Hm|[Hm|[]]]]]; rewrite <- Hm in Hin;
      [exists 1|exists 2|exists 3|exists 4];
      (split; [exact Hc|]); (split; [lia|]); (split; [symmetry; exact Hm|]);
      (split; [split; [lia|discriminate]|]);
      repeat split; intros; try (apply Hin; simpl; auto 12);
      try (exfalso;
           match goal with
           | H : In ?ev tr |- _ =>
               assert (Hx : In ev tr /\ is_mark ev = true) by (split; [exact H|reflexivity]);
               apply Hin in Hx; simpl in Hx; intuition discriminate
           end).
Qed.

End Stages.

(** [main]: the stages are entered when ingestion is skipped or has
    returned; when ingestion raises, [main] raises before any stage. *)
Lemma main_eq env args st :
  Pipeline.main env args st
  = let st1 := say [PipelineStarting (Pipeline.arg_source args)] st in
    if Pipeline.arg_skip_ingest args then Pipeline.run_stages env st1
    else
      match Pipeline.step_extract_load env (Pipeline.arg_source args)
                                       (Pipeline.arg_csv_path args) st1 with
      | (Ok records, st2) =>
          Pipeline.run_stages env (say [RecordsIngested records] st2)
      | (Raise e, st2) => (Raise e, st2)
      end.
Proof.
  unfold Pipeline.main. unfold bind at 1. rewrite logger_eq. cbv zeta.
  destruct (Pipeline.arg_skip_ingest args); cbn [negb]; [reflexivity|].
  unfold bind at 1. unfold bind at 1.
  destruct (Pipeline.step_extract_load env _ _ _) as [[records|e] st2];
    reflexivity.
Qed.

(** A run without ingestion in which the script of the fact load fails:
    the transform is committed, the later stages never start. *)
Example main_example :
  let failing (text : string) (d : DB) :=
    if String.eqb text "load facts"
    then (Raise (Exc "UndefinedColumn" "column does not exist"), d)
    else (Ok [], mkDB (events d) (ingestion_log d) ((text, []) :: tables d)) in
  let scripts (path : string) :=
    if String.eqb path "files/load_facts.sql" then Ok "load facts"
    else Ok path in
  let env := mkEnv None (Ok 100%Z) Examples.unavailable Examples.no_file
                   scripts failing (fun _ => "") (fun _ => "") (fun _ => "")
                   (fun _ _ => true) in
  let out := Pipeline.main env (Pipeline.mkArgs "api" "sample_events.csv" true)
                           (initial_state empty_db) in
  fst out = Raise (Exc "UndefinedColumn" "column does not exist")
  /\ console (snd out)
     = [PipelineStarting "api";
        StepStarted Transform; Executed "transform/transform_events.sql";
        StepDone Transform;
        StepStarted LoadFacts;
        PipelineFailed (Exc "UndefinedColumn" "column does not exist")]
  /\ map fst (tables (committed (snd out)))
     = ["transform/transform_events.sql";
        "CREATE SCHEMA IF NOT EXISTS reporting;";
        "CREATE SCHEMA IF NOT EXISTS transform;"]
  /\ List.length (commits (snd out)) = 2.
Proof. cbv zeta. repeat split; reflexivity. Qed.

(** * Further properties of the code *)

(** ** What a batch does to the staging table *)

Section Batches.

(** The row stored under a key. *)
Definition find_key (k : pyval * pyval) (t : list Row) : option Row :=
  find (fun r => if key_eq_dec k (key r) then true else false) t.

Lemma find_key_app_l k t extra r :
  find_key k t = Some r -> find_key k (t ++ extra) = Some r.
Proof.
  unfold find_key. induction t as [|x t IH]; simpl; [discriminate|].
  destruct (key_eq_dec k (key x)); auto.
Qed.

(** A batch only appends: the table it leaves is the old one followed by
    some of the rows of the batch. *)
Lemma insert_all_appends (rows : list Row) :
  forall t,
  exists extra,
    insert_all t rows = t ++ extra
    /\ incl extra rows
    /\ List.length extra <= List.length rows.
Proof.
  induction rows as [|r rows IH]; intros t.
  - exists []. simpl. rewrite app_nil_r. repeat split; auto. apply incl_refl.
  - simpl. unfold insert_on_conflict_do_nothing.
    destruct (has_key (key r) t).
    + destruct (IH t) as [extra [He [Hi Hl]]]. exists extra.
      repeat split; [exact He|apply incl_tl, Hi|simpl; lia].
    + destruct (IH (t ++ [r])) as [extra [He [Hi Hl]]]. exists (r :: extra).
      rewrite He, <- app_assoc. repeat split.
      * apply incl_cons; [left; reflexivity|apply incl_tl, Hi].
      * simpl. lia.
Qed.

Lemma insert_all_length (t rows : list Row) :
  List.length t <= List.length (insert_all t rows)
  /\ List.length (insert_all t rows) <= List.length t + List.length rows.
Proof.
  destruct (insert_all_appends rows t) as [extra [-> [_ Hl]]].
  rewrite length_app. lia.
Qed.

Lemma insert_all_find k r (rows : list Row) :
  forall t, find_key k t = Some r -> find_key k (insert_all t rows) = Some r.
Proof.
  intros t H. destruct (insert_all_appends rows t) as [extra [-> _]].
  apply find_key_app_l, H.
Qed.

(** Rows with fresh, pairwise distinct keys are all stored. *)
Lemma insert_all_fresh (rows : list Row) :
  forall t,
    NoDup (map key rows) ->
    (forall r, In r rows -> has_key (key r) t = false) ->
    insert_all t rows = t ++ rows.
Proof.
  induction rows as [|r rows IH]; intros t Hnd Hfresh.
  - simpl. rewrite app_nil_r. reflexivity.
  - simpl. unfold insert_on_conflict_do_nothing.
    rewrite (Hfresh r (or_introl eq_refl)).
    inversion Hnd as [|? ? Hnotin Hnd']; subst.
    rewrite IH; [rewrite <- app_assoc; reflexivity|exact Hnd'|].
    intros r' Hr'. destruct (has_key (key r') (t ++ [r])) eqn:E; [|reflexivity].
    apply has_key_In in E. rewrite map_app, in_app_iff in E.
    destruct E as [E|E].
    + apply has_key_In in E. rewrite (Hfresh r' (or_intror Hr')) in E.
      discriminate.
    + simpl in E. destruct E as [E|[]]. exfalso. apply Hnotin.
      rewrite E. apply in_map, Hr'.
Qed.

End Batches.

(** ** Properties of the staging table that every run keeps *)

Section TableInvariants.
Variable env : Env.
Import TicketmasterIngestor.

(** [Q] holds of the staged rows, pending and committed. *)
Definition both (Q : list Row -> Prop) (st : State) : Prop :=
  Q (events (session st)) /\ Q (events (committed st)).

Lemma both_data_only Q : data_only (both Q).
Proof. intros st st' Hc Hs _ _ _ H. unfold both. rewrite Hc, Hs. exact H. Qed.

Lemma both_load_to_raw Q rows run_id :
  (forall t rows, Q t -> Q (insert_all t rows)) ->
  preserves (both Q) (load_to_raw rows run_id).
Proof.
  intros HQ st [Hs Hc]. destruct rows as [|r rows]; [split; assumption|].
  unfold load_to_raw, bind, statement, commit, modify, ret, both.
  cbn [snd session committed set_session events set_events].
  rewrite execute_batch_insert_all by lia. split; apply HQ, Hs.
Qed.

(** A property of the table that no batch breaks holds of the committed
    table after any run that found it there. *)
Lemma run_job_table_invariant (Q : list Row -> Prop) :
  (forall t rows, Q t -> Q (insert_all t rows)) ->
  forall j st,
    Q (events (committed st)) -> Q (events (committed (snd (run_job env j st)))).
Proof.
  intros HQ j st Hc. destruct j as [csv_path|self country_code max_pages];
    cbn [run_job].
  - destruct (CsvIngestor.build_rows env csv_path) as [rows|e] eqn:E.
    + rewrite (csv_run_ok env st E). unfold csv_committed.
      cbn [snd session committed events CsvIngestor.log_run set_ingestion_log
           set_events].
      rewrite execute_batch_insert_all by lia. apply HQ, Hc.
    + rewrite (csv_run_raise env st E). exact Hc.
  - rewrite run_eq. cbv zeta.
    assert (H0 : both Q (started env st)) by (split; exact Hc).
    pose proof (page_loop_preserves env (both Q) self country_code
                  (uuid4 env (uuid_calls st)) (both_data_only Q)
                  (fun rows => both_load_to_raw Q rows _ HQ)
                  (range max_pages) 0 (started env st) H0) as [Hs1 _].
    destruct (page_loop env self country_code _ _ 0 (started env st))
      as [[total|e] st1]; exact Hs1.
Qed.

Lemma run_jobs_table_invariant (Q : list Row -> Prop) :
  (forall t rows, Q t -> Q (insert_all t rows)) ->
  forall jobs st,
    Q (events (committed st)) -> Q (events (committed (run_jobs env jobs st))).
Proof.
  intros HQ jobs. induction jobs as [|j jobs IH]; intros st H; [exact H|].
  simpl. apply IH, run_job_table_invariant; assumption.
Qed.

Lemma run_jobs_append (jobs : list Job) (st : State) :
  exists extra,
    events (committed (run_jobs env jobs st)) = events (committed st) ++ extra.
Proof.
  apply (run_jobs_table_invariant
           (fun t => exists extra, t = events (committed st) ++ extra)).
  - intros t rows [extra ->].
    destruct (insert_all_appends rows (events (committed st) ++ extra))
      as [extra' [-> _]].
    exists (extra ++ extra'). rewrite app_assoc. reflexivity.
  - exists []. rewrite app_nil_r. reflexivity.
Qed.

(** X1.  Ingestion never replaces, removes or reorders a stored row: after
    any sequence of runs of the two ingestors the committed staging table
    is the one before followed by new rows, and the row found under a key
    is still the one that was stored first. *)
Theorem ingestion_only_appends (jobs : list Job) (st : State) :
  let final := run_jobs env jobs st in
  (exists extra, events (committed final) = events (committed st) ++ extra)
  /\ (forall k r,
        find_key k (events (committed st)) = Some r ->
        find_key k (events (committed final)) = Some r).
Proof.
  cbv zeta. split; [apply run_jobs_append|].
  intros k r H.
  apply (run_jobs_table_invariant (fun t => find_key k t = Some r));
    [|exact H].
  intros t rows. apply insert_all_find.
Qed.

End TableInvariants.

(** ** Loading a page, and the counts the runs report *)

Section Counts.
Variable env : Env.
Import TicketmasterIngestor.

(** X2.  Loading a non-empty batch returns its length and commits once:
    afterwards nothing is pending, the committed table is the table of the
    session before followed by rows of the batch, every row of the batch
    has its key in the committed table, and the log is as the session had
    it. *)
Theorem load_to_raw_stores_batch (rows : list Row) (run_id : string)
        (st : State) :
  rows <> [] ->
  let st' := snd (load_to_raw rows run_id st) in
  fst (load_to_raw rows run_id st) = Ok (List.length rows)
  /\ committed st' = session st'
  /\ commits st' = commits st ++ [committed st']
  /\ (exists extra,
        events (committed st') = events (session st) ++ extra
        /\ incl extra rows)
  /\ Forall (fun r => has_key (key r) (events (committed st')) = true) rows
  /\ ingestion_log (committed st') = ingestion_log (session st).
Proof.
  intros Hne. destruct rows as [|r rows]; [congruence|]. cbv zeta.
  unfold load_to_raw, bind, statement, commit, modify, ret.
  cbn [fst snd session committed commits set_session events set_events
       ingestion_log].
  rewrite execute_batch_insert_all by lia.
  repeat split.
  - destruct (insert_all_appends (r :: rows) (events (session st)))
      as [extra [He [Hi _]]].
    exists extra. split; assumption.
  - apply insert_all_has_keys.
Qed.

(** The staged rows of the session grow by at most the count the loop
    adds to [total_loaded]. *)
Lemma page_loop_count self country_code run_id pages :
  forall total st,
    match page_loop env self country_code run_id pages total st with
    | (Ok total', st') =>
        total <= total'
        /\ List.length (events (session st')) + total
           <= List.length (events (session st)) + total'
    | (Raise _, _) => True
    end.
Proof.
  induction pages as [|p rest IH]; intros total st.
  - simpl. unfold ret. lia.
  - rewrite page_loop_cons.
    pose proof (fetch_events_preserves env
                  (fun s => events (session s) = events (session st))
                  self country_code p) as Hf.
    specialize (Hf ltac:(intros a b _ Hs _ _ _ H; rewrite Hs; exact H)
                   st eq_refl).
    destruct (fetch_events env self country_code p st) as [[data|e] st1];
      cbn [snd] in Hf; [|exact Logic.I].
    destruct (page_events data) as [evs|e]; [|exact Logic.I].
    destruct (negb (truthy evs)); [rewrite Hf; lia|].
    destruct (page_rows env evs) as [rows|e]; [|exact Logic.I].
    cbv zeta.
    assert (Hl : List.length (events (session (snd (load_to_raw rows run_id st1))))
                 <= List.length (events (session st)) + List.length rows).
    { rewrite <- Hf. destruct rows as [|r rows]; [simpl; lia|].
      unfold load_to_raw, bind, statement, commit, modify, ret.
      cbn [snd session set_session events set_events].
      rewrite execute_batch_insert_all by lia. apply insert_all_length. }
    destruct (last_page env p data) as [[|]|e]; [lia| |exact Logic.I].
    specialize (IH (total + List.length rows)
                   (snd (load_to_raw rows run_id st1))).
    destruct (page_loop env self country_code run_id rest
                        (total + List.length rows)
                        (snd (load_to_raw rows run_id st1)))
      as [[total'|e] st']; [|exact Logic.I].
    lia.
Qed.

(** X3.  The count a run of the API ingestor returns (and records) is an
    upper bound on the rows it added to staging: it counts the rows of
    every loaded page, also those the insert skipped.  Whether the run
    returns or raises, staging never shrinks. *)
Theorem api_run_count_bound self country_code max_pages (st : State) :
  let out := run env self country_code max_pages st in
  let before := List.length (events (committed st)) in
  let after := List.length (events (committed (snd out))) in
  match fst out with
  | Ok total_loaded => before <= after <= before + total_loaded
  | Raise _ => before <= after
  end.
Proof.
  cbv zeta.
  assert (Hmono : List.length (events (committed st))
                  <= List.length (events (committed
                        (snd (run env self country_code max_pages st))))).
  { destruct (run_jobs_append env
                [ApiJob self country_code max_pages] st) as [extra He].
    cbn [run_jobs fold_left run_job] in He. rewrite He, length_app. lia. }
  revert Hmono. rewrite run_eq. cbv zeta.
  pose proof (page_loop_count self country_code (uuid4 env (uuid_calls st))
                (range max_pages) 0 (started env st)) as Hc.
  destruct (page_loop env self country_code _ (range max_pages) 0
                      (started env st)) as [[total|e] st1];
    cbn [fst snd]; intros Hmono; [|exact Hmono].
  split; [exact Hmono|].
  unfold finished, log_success in *.
  cbn [committed events set_ingestion_log started session log_start] in *.
  lia.
Qed.

(** X4.  The count a run of the file ingestor returns is an upper bound
    on the rows it added to staging, and staging does not shrink; when the
    run raises (the file could not be read), the database is the one
    before and nothing was committed. *)
Theorem csv_run_count_bound (csv_path : string) (st : State) :
  let out := CsvIngestor.run env csv_path st in
  let before := List.length (events (committed st)) in
  let after := List.length (events (committed (snd out))) in
  match fst out with
  | Ok n => before <= after <= before + n
  | Raise _ =>
      committed (snd out) = committed st /\ commits (snd out) = commits st
  end.
Proof.
  cbv zeta.
  destruct (CsvIngestor.build_rows env csv_path) as [rows|e] eqn:E.
  - rewrite (csv_run_ok env st E). unfold csv_committed, CsvIngestor.log_run.
    cbn [fst snd committed events set_ingestion_log set_events].
    rewrite execute_batch_insert_all by lia. apply insert_all_length.
  - rewrite (csv_run_raise env st E). split; reflexivity.
Qed.

(** X5.  When the rows built from the file have pairwise distinct keys,
    none of them staged yet, the run stores them all, in the order of the
    file, behind the rows that were there; the count it returns is then
    the number of rows added. *)
Theorem csv_run_stores_all (csv_path : string) (rows : list Row) (st : State) :
  CsvIngestor.build_rows env csv_path = Ok rows ->
  NoDup (map key rows) ->
  (forall r, In r rows -> has_key (key r) (events (committed st)) = false) ->
  fst (CsvIngestor.run env csv_path st) = Ok (List.length rows)
  /\ events (committed (snd (CsvIngestor.run env csv_path st)))
     = events (committed st) ++ rows.
Proof.
  intros E Hnd Hfresh. rewrite (csv_run_ok env st E).
  unfold csv_committed, CsvIngestor.log_run.
  cbn [fst snd committed events set_ingestion_log set_events].
  split; [reflexivity|].
  rewrite execute_batch_insert_all by lia.
  apply insert_all_fresh; assumption.
Qed.

End Counts.

Lemma load_to_raw_stores_batch_witness :
  let row := CsvIngestor.row_dict
               (Examples.example_env Examples.unavailable Examples.no_file)
               ["event_id"] [PStr "A1"] in
  fst (TicketmasterIngestor.load_to_raw [row; row] "run-0"
         (initial_state empty_db)) = Ok 2
  /\ List.length
       (events (committed
                  (snd (TicketmasterIngestor.load_to_raw [row; row] "run-0"
                          (initial_state empty_db))))) = 1.
Proof.
  cbv zeta. split; [|reflexivity].
  refine (proj1 (load_to_raw_stores_batch _ "run-0" (initial_state empty_db) _)).
  discriminate.
Defined.

Lemma csv_run_stores_all_witness :
  let file := mkFrame ["event_id"; "event_name"]
                      [[PStr "A1"; PStr "Concert"]; [PStr "A2"; PStr "Match"]] in
  let env := Examples.example_env Examples.unavailable (fun _ => Ok file) in
  map key (events (committed
                     (snd (CsvIngestor.run env "events.csv"
                             (initial_state empty_db)))))
  = [(PStr "csv", PStr "A1"); (PStr "csv", PStr "A2")].
Proof.
  cbv zeta.
  rewrite (proj2 (csv_run_stores_all
                    (Examples.example_env Examples.unavailable
                       (fun _ => Ok (mkFrame ["event_id"; "event_name"]
                                             [[PStr "A1"; PStr "Concert"];
                                              [PStr "A2"; PStr "Match"]])))
                    "events.csv" _ (initial_state empty_db) eq_refl
                    ltac:(repeat constructor; simpl; intuition discriminate)
                    ltac:(intros r _; reflexivity))).
  reflexivity.
Defined.

(** ** More on the runs of the API ingestor *)

Section ApiRuns.
Variable env : Env.
Variable self : TicketmasterIngestor.Ingestor.
Variable country_code : string.
Import TicketmasterIngestor.

Lemma update_where_other_run_id run_id f (log : list RunRecord) :
  Forall (fun r => log_run_id r <> run_id) log ->
  update_where_run_id run_id f log = log.
Proof.
  intros H. unfold update_where_run_id.
  induction H as [|r log Hr _ IH]; [reflexivity|]. simpl.
  destruct (String.eqb_spec (log_run_id r) run_id); [contradiction|].
  rewrite IH. reflexivity.
Qed.

Lemma update_where_last run_id f (log : list RunRecord) (r : RunRecord) :
  Forall (fun r => log_run_id r <> run_id) log -> log_run_id r = run_id ->
  update_where_run_id run_id f (log ++ [r]) = log ++ [f r].
Proof.
  intros Hfresh Hr.
  rewrite <- (update_where_other_run_id run_id f log Hfresh) at 2.
  unfold update_where_run_id. rewrite map_app. cbn [map].
  rewrite Hr, String.eqb_refl. reflexivity.
Qed.

(** X6.  A run whose id is not in the log yet leaves the log with exactly
    one more record, in a terminal status: success with the returned count
    as records loaded, or failed with the text of the exception; either
    way with a finish time, and with no count of records fetched. *)
Theorem api_run_leaves_one_record max_pages (st : State) :
  let run_id := uuid4 env (uuid_calls st) in
  let out := run env self country_code max_pages st in
  Forall (fun r => log_run_id r <> run_id) (ingestion_log (committed st)) ->
  ingestion_log (committed (snd out))
  = ingestion_log (committed st)
    ++ [match fst out with
        | Ok total_loaded =>
            mkRun run_id "ticketmaster" None (Some total_loaded) success None
                  (Some (clock (snd out)))
        | Raise e =>
            mkRun run_id "ticketmaster" None None failed (Some (exn_str e))
                  (Some (clock (snd out)))
        end].
Proof.
  cbv zeta. intros Hfresh.
  destruct (page_loop_end env self country_code max_pages st)
    as [_ [_ [_ Hlog]]].
  rewrite run_eq. cbv zeta in *. unfold log_is in Hlog.
  destruct (page_loop env self country_code _ (range max_pages) 0
                      (started env st)) as [[total|e] st1];
    cbn [fst snd] in *; unfold finished, log_success, log_failed;
    cbn [committed clock ingestion_log set_ingestion_log]; rewrite Hlog;
    (rewrite update_where_last by (exact Hfresh || reflexivity));
    reflexivity.
Qed.

(** X7.  With [max_pages] zero or negative a run sends no request and
    stages nothing; it returns 0. *)
Theorem api_run_without_pages max_pages (st : State) :
  (max_pages <= 0)%Z ->
  let out := run env self country_code max_pages st in
  fst out = Ok 0
  /\ requests (snd out) = requests st
  /\ sleeps (snd out) = sleeps st
  /\ events (committed (snd out)) = events (committed st).
Proof.
  intros Hle. cbv zeta. rewrite run_eq. cbv zeta. unfold range.
  replace (Z.to_nat max_pages) with 0 by lia. cbn. auto.
Qed.

End ApiRuns.

Lemma api_run_leaves_one_record_witness :
  let env := Examples.example_env Examples.two_pages Examples.no_file in
  let earlier := mkRun "run-7" "csv" (Some 3) (Some 3) success None (Some 0%Z) in
  let st := initial_state (set_ingestion_log [earlier] empty_db) in
  map log_run_id
      (ingestion_log
         (committed (snd (TicketmasterIngestor.run env Examples.ingestor "DE" 5
                            st))))
  = ["run-7"; "run-0"]%string.
Proof.
  cbv zeta.
  rewrite (api_run_leaves_one_record
             (Examples.example_env Examples.two_pages Examples.no_file)
             Examples.ingestor "DE" 5
             (initial_state
                (set_ingestion_log
                   [mkRun "run-7" "csv" (Some 3) (Some 3) success None
                          (Some 0%Z)] empty_db))
             ltac:(repeat constructor; discriminate)).
  reflexivity.
Defined.

Lemma api_run_without_pages_witness :
  let env := Examples.example_env Examples.two_pages Examples.no_file in
  let out := TicketmasterIngestor.run env Examples.ingestor "DE" 0
               (initial_state empty_db) in
  fst out = Ok 0 /\ requests (snd out) = [].
Proof.
  cbv zeta.
  destruct (api_run_without_pages
              (Examples.example_env Examples.two_pages Examples.no_file)
              Examples.ingestor "DE" 0 (initial_state empty_db)
              ltac:(discriminate)) as [H1 [H2 _]].
  split; [exact H1|exact H2].
Defined.

Section ApiPages.
Variable env : Env.
Variable self : TicketmasterIngestor.Ingestor.
Variable country_code : string.
Import TicketmasterIngestor.

(** The body has no [page] object, or a [page] object without
    [totalPages]. *)
Definition lacks_total_pages (d : list (string * pyval)) : Prop :=
  lookup "page" d = None
  \/ exists info, lookup "page" d = Some (PDict info)
                  /\ lookup "totalPages" info = None.

Lemma lacks_total_pages_last page d :
  lacks_total_pages d -> last_page env page (PDict d) = Ok true.
Proof.
  unfold last_page, get.
  assert (H0 : at_last_page env page (PInt 1) = Ok true).
  { unfold at_last_page. f_equal. apply Z.leb_le. lia. }
  intros [H|[info [H1 H2]]]; [rewrite H|rewrite H1]; cbn [rbind lookup empty_dict].
  - exact H0.
  - rewrite H2. exact H0.
Qed.

(** X8.  A page whose body carries no [totalPages] is taken for the last
    one (the default is one page): whatever the page index and the pages
    still allowed, the loop sends no request after it. *)
Theorem page_without_total_is_last run_id page rest total st d st1 :
  fetch_events env self country_code page st = (Ok (PDict d), st1) ->
  lacks_total_pages d ->
  requests (snd (page_loop env self country_code run_id (page :: rest) total st))
  = requests st1.
Proof.
  intros Hf Hd. rewrite page_loop_cons, Hf.
  destruct (page_events (PDict d)) as [evs|e]; [|reflexivity].
  destruct (negb (truthy evs)); [reflexivity|].
  destruct (page_rows env evs) as [rows|e]; [|reflexivity].
  cbv zeta. rewrite (lacks_total_pages_last page d Hd).
  apply load_to_raw_ok.
Qed.

Lemma traverse_fails {A B} (f : A -> result B) (l : list A) (bad : A) :
  In bad l -> is_ok (f bad) = false -> is_ok (traverse f l) = false.
Proof.
  induction l as [|x l IH]; intros Hin Hbad; [destruct Hin|].
  simpl. destruct (f x) as [y|e] eqn:E; [|reflexivity]. cbn [rbind].
  destruct Hin as [->|Hin]; [rewrite E in Hbad; discriminate|].
  specialize (IH Hin Hbad).
  destruct (traverse f l); [discriminate|reflexivity].
Qed.

(** X9.  One event that cannot be parsed aborts its whole page: the loop
    raises, and no row of the page, not even of the events before the bad
    one, is inserted or committed. *)
Theorem malformed_event_aborts_page run_id page rest total st data st1
        items bad :
  fetch_events env self country_code page st = (Ok data, st1) ->
  page_events data = Ok (PList items) ->
  In bad items ->
  is_ok (parse_event env bad) = false ->
  let out := page_loop env self country_code run_id (page :: rest) total st in
  is_ok (fst out) = false
  /\ snd out = st1
  /\ session st1 = session st
  /\ committed st1 = committed st
  /\ commits st1 = commits st.
Proof.
  intros Hf He Hin Hbad. cbv zeta.
  pose proof (fetch_events_preserves env
                (fun s => session s = session st /\ committed s = committed st
                          /\ commits s = commits st)
                self country_code page) as Hdb.
  specialize (Hdb ltac:(intros a b Hc Hs Hh _ _ H; rewrite Hc, Hs, Hh; exact H)
                  st (conj eq_refl (conj eq_refl eq_refl))).
  rewrite Hf in Hdb. cbn [snd] in Hdb. destruct Hdb as [Hs [Hc Hh]].
  rewrite page_loop_cons, Hf, He.
  destruct items as [|x items]; [destruct Hin|]. cbn [truthy negb].
  pose proof (traverse_fails (parse_event env) (x :: items) bad Hin Hbad) as Ht.
  unfold page_rows. cbn [iter rbind].
  destruct (traverse (parse_event env) (x :: items)); [discriminate|].
  auto.
Qed.

Lemma requests_of_params (tr : list (nat * result pyval)) :
  forall s,
    Forall (fun r => apikey r = api_key self /\ countryCode r = country_code
                     /\ size r = batch_size self /\ sort r = "date,asc"
                     /\ s <= page r < s + List.length tr)
           (requests_of self country_code s tr).
Proof.
  induction tr as [|[k a] tr IH]; intros s; [constructor|].
  cbn [requests_of List.length]. apply Forall_app. split.
  - apply Forall_forall. intros r Hr. apply repeat_spec in Hr. subst r.
    unfold params. cbn. repeat split; lia.
  - eapply Forall_impl; [|apply (IH (S s))]. cbn beta.
    intros r [H1 [H2 [H3 [H4 H5]]]]. repeat split; auto; lia.
Qed.

(** X10.  Every request a run sends carries the key and the batch size of
    the ingestor, the country code of the call and the sort order
    [date,asc], and asks for a page between 0 and [max_pages - 1]. *)
Theorem run_request_parameters max_pages (st : State) :
  exists sent,
    requests (snd (run env self country_code max_pages st))
    = requests st ++ sent
    /\ Forall (fun r => apikey r = api_key self
                        /\ countryCode r = country_code
                        /\ size r = batch_size self
                        /\ sort r = "date,asc"
                        /\ (Z.of_nat (page r) < max_pages)%Z)
              sent.
Proof.
  destruct (page_loop_trace env self country_code (uuid4 env (uuid_calls st))
              (Z.to_nat max_pages) 0 0 (started env st)) as [tr [Hlen [Hreq _]]].
  exists (requests_of self country_code 0 tr). split.
  { rewrite run_eq. cbv zeta. unfold range.
    destruct (page_loop env self country_code _ (seq 0 (Z.to_nat max_pages))
                        0 (started env st)) as [[total|e] st1];
      exact Hreq. }
  eapply Forall_impl; [|apply requests_of_params]. cbn beta.
  intros r [H1 [H2 [H3 [H4 H5]]]]. repeat split; auto. lia.
Qed.

End ApiPages.

Lemma page_without_total_is_last_witness :
  let body := PDict [("_embedded",
                      PDict [("events", PList [Examples.event_E1])])] in
  let env := Examples.example_env (fun _ _ => Response 200 (Ok body))
                                  Examples.no_file in
  map page
      (requests (snd (TicketmasterIngestor.page_loop env Examples.ingestor "DE"
                        "run-0" [0; 1; 2] 0 (initial_state empty_db))))
  = [0].
Proof.
  cbv zeta.
  rewrite (page_without_total_is_last
             (Examples.example_env
                (fun _ _ =>
                   Response 200
                     (Ok (PDict [("_embedded",
                                  PDict [("events",
                                          PList [Examples.event_E1])])])))
                Examples.no_file)
             Examples.ingestor "DE" "run-0" 0 [1; 2] 0
             (initial_state empty_db) _ _ eq_refl (or_introl eq_refl)).
  reflexivity.
Defined.

Lemma malformed_event_aborts_page_witness :
  let bad := PDict [("id", PStr "E9"); ("_embedded", PNone)] in
  let env := Examples.example_env
               (fun _ _ =>
                  Response 200 (Ok (Examples.page_of [Examples.event_E1; bad] 1)))
               Examples.no_file in
  let out := TicketmasterIngestor.page_loop env Examples.ingestor "DE" "run-0"
               [0; 1] 0 (initial_state empty_db) in
  is_ok (fst out) = false /\ events (committed (snd out)) = [].
Proof.
  cbv zeta.
  destruct (malformed_event_aborts_page
              (Examples.example_env
                 (fun _ _ =>
                    Response 200
                      (Ok (Examples.page_of
                             [Examples.event_E1;
                              PDict [("id", PStr "E9"); ("_embedded", PNone)]]
                             1)))
                 Examples.no_file)
              Examples.ingestor "DE" "run-0" 0 [1] 0 (initial_state empty_db)
              _ _ _ (PDict [("id", PStr "E9"); ("_embedded", PNone)])
              eq_refl eq_refl (or_intror (or_introl eq_refl)) eq_refl)
    as [H1 [H2 [_ [H3 _]]]].
  split; [exact H1|]. rewrite H2, H3. reflexivity.
Defined.

Section ApiSleeps.
Variable env : Env.
Variable self : TicketmasterIngestor.Ingestor.
Variable country_code : string.
Import TicketmasterIngestor.

Lemma fetch_events_sleeps page st :
  exists n,
    n <= 2
    /\ sleeps (snd (fetch_events env self country_code page st))
       = sleeps st ++ repeat 2%Z n
    /\ clock (snd (fetch_events env self country_code page st))
       = (clock st + 2 * Z.of_nat n)%Z.
Proof.
  destruct (retry_loop_attempts env self country_code (wait_exponential 2 10)
              page 2 1 st) as [k [Hk [Hst _]]].
  change (retry_loop (wait_exponential 2 10) 2 1
                     (fetch_events_body env self country_code page))
    with (fetch_events env self country_code page) in Hst.
  rewrite Hst. exists (k - 1). split; [lia|].
  unfold after_io. cbn [sleeps clock].
  assert (Hw : waits (wait_exponential 2 10) 1 (k - 1) = repeat 2%Z (k - 1)).
  { destruct k as [|[|[|[|k]]]]; try lia; reflexivity. }
  rewrite Hw. split; [reflexivity|]. f_equal.
  destruct k as [|[|[|[|k]]]]; try lia; reflexivity.
Qed.

Lemma load_to_raw_time rows run_id st :
  sleeps (snd (load_to_raw rows run_id st)) = sleeps st
  /\ clock (snd (load_to_raw rows run_id st)) = clock st.
Proof. destruct rows; split; reflexivity. Qed.

Lemma page_loop_sleeps run_id pages :
  forall total st,
  exists n,
    n <= 2 * List.length pages
    /\ sleeps (snd (page_loop env self country_code run_id pages total st))
       = sleeps st ++ repeat 2%Z n
    /\ clock (snd (page_loop env self country_code run_id pages total st))
       = (clock st + 2 * Z.of_nat n)%Z.
Proof.
  induction pages as [|p rest IH]; intros total st.
  - exists 0. simpl. rewrite app_nil_r. repeat split; lia.
  - rewrite page_loop_cons.
    destruct (fetch_events_sleeps p st) as [n [Hn [Hs Hc]]].
    assert (Hone : exists m,
               m <= 2 * List.length (p :: rest)
               /\ sleeps (snd (fetch_events env self country_code p st))
                  = sleeps st ++ repeat 2%Z m
               /\ clock (snd (fetch_events env self country_code p st))
                  = (clock st + 2 * Z.of_nat m)%Z).
    { exists n. simpl. repeat split; auto; lia. }
    destruct (fetch_events env self country_code p st) as [[data|e] st1];
      cbn [snd] in *; [|exact Hone].
    destruct (page_events data) as [evs|e]; [|exact Hone].
    destruct (negb (truthy evs)); [exact Hone|].
    destruct (page_rows env evs) as [rows|e]; [|exact Hone].
    cbv zeta. destruct (load_to_raw_time rows run_id st1) as [Hs2 Hc2].
    assert (Hone2 : exists m,
               m <= 2 * List.length (p :: rest)
               /\ sleeps (snd (load_to_raw rows run_id st1))
                  = sleeps st ++ repeat 2%Z m
               /\ clock (snd (load_to_raw rows run_id st1))
                  = (clock st + 2 * Z.of_nat m)%Z).
    { rewrite Hs2, Hc2. exact Hone. }
    destruct (last_page env p data) as [[|]|e]; try exact Hone2.
    destruct (IH (total + List.length rows) (snd (load_to_raw rows run_id st1)))
      as [m [Hm [Hsm Hcm]]].
    exists (n + m). split; [simpl; lia|].
    rewrite Hsm, Hcm, Hs2, Hc2, Hs, Hc, repeat_app, app_assoc.
    split; [reflexivity|lia].
Qed.

(** X11.  Between two attempts a fetch always waits 2 time units (with
    three attempts the exponential never leaves its floor), so a run
    sleeps at most twice per page, 2 units each. *)
Theorem run_sleeps max_pages (st : State) :
  exists n,
    n <= 2 * Z.to_nat max_pages
    /\ sleeps (snd (run env self country_code max_pages st))
       = sleeps st ++ repeat 2%Z n.
Proof.
  destruct (page_loop_sleeps (uuid4 env (uuid_calls st)) (range max_pages) 0
              (started env st)) as [n [Hn [Hs Hc]]].
  exists n. unfold range in Hn. rewrite length_seq in Hn.
  split; [exact Hn|]. rewrite run_eq. cbv zeta.
  destruct (page_loop env self country_code _ (range max_pages) 0
                      (started env st)) as [[total|e] st1];
    assumption.
Qed.

End ApiSleeps.

(** ** More on the two normalizers *)

Section ParsedRows.
Variable env : Env.
Import TicketmasterIngestor.

Ltac lookups H :=
  repeat (simpl in H;
          match type of H with
          | rbind (Ok _) _ = Ok _ => cbn [rbind] in H
          | rbind ?x _ = Ok _ =>
              destruct x; cbn [rbind] in H; [|discriminate]
          end);
  simpl in H; injection H as <-.

(** X12.  In every row [parse_event] returns, the payload is the
    serialized event itself and both prices are strings: a price is never
    stored as a number or as a null. *)
Theorem parsed_row_shape (event : pyval) (r : Row) :
  parse_event env event = Ok r ->
  raw_payload r = PStr (json_dumps env event)
  /\ (exists text, price_min r = PStr text)
  /\ (exists text, price_max r = PStr text).
Proof.
  intros H. unfold parse_event in H. lookups H. cbn.
  split; [reflexivity|]. split; eexists; reflexivity.
Qed.

Definition field (k : string) (d : list (string * pyval)) : pyval :=
  match lookup k d with
  | Some v => v
  | None => PNone
  end.

Lemma get_dict d k default :
  get (PDict d) k default
  = Ok (match lookup k d with Some v => v | None => default end).
Proof. reflexivity. Qed.

(** X13.  Of several venues, classifications or price ranges only the
    first is read: the venue name, the category and the currency of the
    row are those of the first entry, whatever follows it. *)
Theorem only_first_entry_is_used (d : list (string * pyval)) (r : Row) :
  parse_event env (PDict d) = Ok r ->
  (forall embedded venue others,
      lookup "_embedded" d = Some (PDict embedded) ->
      lookup "venues" embedded = Some (PList (PDict venue :: others)) ->
      venue_name r = field "name" venue)
  /\ (forall classification others segment,
        lookup "classifications" d
        = Some (PList (PDict classification :: others)) ->
        lookup "segment" classification = Some (PDict segment) ->
        category r = field "name" segment)
  /\ (forall price others,
        lookup "priceRanges" d = Some (PList (PDict price :: others)) ->
        currency r = field "currency" price).
Proof.
  intros Hp. split; [|split].
  - intros embedded venue others H1 H2. unfold parse_event in Hp.
    rewrite (get_dict d "_embedded"), H1 in Hp. cbn [rbind] in Hp.
    rewrite (get_dict embedded "venues"), H2 in Hp.
    cbn [rbind first_or_empty truthy index0] in Hp.
    lookups Hp. reflexivity.
  - intros classification others segment H1 H2. unfold parse_event in Hp.
    rewrite (get_dict d "classifications"), H1 in Hp.
    cbn [rbind first_or_empty truthy index0] in Hp.
    rewrite (get_dict classification "segment"), H2 in Hp.
    lookups Hp. reflexivity.
  - intros price others H1. unfold parse_event in Hp.
    rewrite (get_dict d "priceRanges"), H1 in Hp.
    lookups Hp. reflexivity.
Qed.

(** X14.  An empty or null list of venues, classifications or price
    ranges is read like a missing one: the fields that depend on it are
    null (the empty string for the prices) and nothing fails because of
    it. *)
Theorem empty_lists_are_like_missing (d : list (string * pyval)) (r : Row) :
  parse_event env (PDict d) = Ok r ->
  (forall embedded venues,
      lookup "_embedded" d = Some (PDict embedded) ->
      lookup "venues" embedded = Some venues -> truthy venues = false ->
      venue_name r = PNone /\ venue_city r = PNone /\ venue_country r = PNone
      /\ venue_lat r = PNone /\ venue_lon r = PNone)
  /\ (forall classifications,
        lookup "classifications" d = Some classifications ->
        truthy classifications = false ->
        category r = PNone /\ subcategory r = PNone)
  /\ (forall price_ranges,
        lookup "priceRanges" d = Some price_ranges ->
        truthy price_ranges = false ->
        price_min r = PStr "" /\ price_max r = PStr "" /\ currency r = PNone).
Proof.
  intros Hp. split; [|split].
  - intros embedded venues H1 H2 Hf. unfold parse_event in Hp.
    rewrite (get_dict d "_embedded"), H1 in Hp. cbn [rbind] in Hp.
    rewrite (get_dict embedded "venues"), H2 in Hp. cbn [rbind] in Hp.
    unfold first_or_empty at 1 in Hp. rewrite Hf in Hp.
    lookups Hp. repeat split; reflexivity.
  - intros classifications H1 Hf. unfold parse_event in Hp.
    rewrite (get_dict d "classifications"), H1 in Hp. cbn [rbind] in Hp.
    unfold first_or_empty at 2 in Hp. rewrite Hf in Hp.
    lookups Hp. repeat split; reflexivity.
  - intros price_ranges H1 Hf. unfold parse_event in Hp.
    rewrite (get_dict d "priceRanges"), H1 in Hp. cbn [rbind] in Hp.
    unfold first_or_empty at 3 in Hp. rewrite Hf in Hp.
    lookups Hp. repeat split; reflexivity.
Qed.

End ParsedRows.

Lemma parsed_row_shape_witness :
  let env := Examples.example_env Examples.unavailable Examples.no_file in
  exists r,
    TicketmasterIngestor.parse_event env Examples.event_E1 = Ok r
    /\ raw_payload r = PStr "<json>".
Proof.
  cbv zeta. eexists. split; [reflexivity|].
  exact (proj1 (parsed_row_shape
                  (Examples.example_env Examples.unavailable Examples.no_file)
                  Examples.event_E1 _ eq_refl)).
Defined.

Lemma only_first_entry_is_used_witness :
  let env := Examples.example_env Examples.unavailable Examples.no_file in
  let event :=
    [("id", PStr "E1");
     ("_embedded",
      PDict [("venues", PList [PDict [("name", PStr "Arena")];
                               PDict [("name", PStr "Club")]])])] in
  exists r,
    TicketmasterIngestor.parse_event env (PDict event) = Ok r
    /\ venue_name r = PStr "Arena".
Proof.
  cbv zeta. eexists. split; [reflexivity|].
  exact (proj1 (only_first_entry_is_used
                  (Examples.example_env Examples.unavailable Examples.no_file)
                  [("id", PStr "E1");
                   ("_embedded",
                    PDict [("venues",
                            PList [PDict [("name", PStr "Arena")];
                                   PDict [("name", PStr "Club")]])])]
                  _ eq_refl)
               [("venues", PList [PDict [("name", PStr "Arena")];
                                  PDict [("name", PStr "Club")]])]
               [("name", PStr "Arena")] [PDict [("name", PStr "Club")]]
               eq_refl eq_refl).
Defined.

Lemma empty_lists_are_like_missing_witness :
  let env := Examples.example_env Examples.unavailable Examples.no_file in
  let event := [("id", PStr "E1"); ("priceRanges", PList [])] in
  exists r,
    TicketmasterIngestor.parse_event env (PDict event) = Ok r
    /\ price_min r = PStr "" /\ price_max r = PStr "" /\ currency r = PNone.
Proof.
  cbv zeta. eexists. split; [reflexivity|].
  exact (proj2 (proj2 (empty_lists_are_like_missing
                         (Examples.example_env Examples.unavailable
                                               Examples.no_file)
                         [("id", PStr "E1"); ("priceRanges", PList [])]
                         _ eq_refl))
               (PList []) eq_refl eq_refl).
Defined.

(** ** More on the orchestrator *)

Section Growth.

(** [m] extends the list [mu] of the state by [ok] when it returns, and by
    one of [fails] when it raises. *)
Definition grows {A X} (mu : State -> list X) (m : M A) (ok : list X)
           (fails : list (list X)) : Prop :=
  forall st,
  exists tr,
    mu (snd (m st)) = mu st ++ tr
    /\ if is_ok (fst (m st)) then tr = ok else In tr fails.

Context {X : Type} (mu : State -> list X).

Lemma grows_bind {A B} (m : M A) (k : A -> M B) ok1 fail1 ok2 fail2 :
  grows mu m ok1 fail1 -> (forall a, grows mu (k a) ok2 fail2) ->
  grows mu (bind m k) (ok1 ++ ok2) (fail1 ++ map (app ok1) fail2).
Proof.
  intros Hm Hk st. unfold bind. destruct (Hm st) as [tr1 [Hc1 Hr1]].
  destruct (m st) as [[a|e] st1]; cbn [fst snd is_ok] in *.
  - destruct (Hk a st1) as [tr2 [Hc2 Hr2]]. exists (tr1 ++ tr2).
    split; [rewrite Hc2, Hc1, app_assoc; reflexivity|]. rewrite Hr1.
    destruct (is_ok (fst (k a st1))); [rewrite Hr2; reflexivity|].
    apply in_or_app. right. apply in_map, Hr2.
  - exists tr1. split; [exact Hc1|]. apply in_or_app. left. exact Hr1.
Qed.

Lemma grows_weaken {A} (m : M A) ok fail ok' fail' :
  grows mu m ok fail -> ok = ok' -> incl fail fail' -> grows mu m ok' fail'.
Proof.
  intros H <- Hi st. destruct (H st) as [tr [Hc Hr]]. exists tr.
  split; [exact Hc|]. destruct (is_ok _); [exact Hr|apply Hi, Hr].
Qed.

Lemma grows_still {A} (m : M A) :
  (forall st, mu (snd (m st)) = mu st) -> grows mu m [] [[]].
Proof.
  intros H st. exists []. rewrite app_nil_r. split; [apply H|].
  destruct (is_ok _); simpl; auto.
Qed.

Lemma grows_always {A} (m : M A) (tr : list X) :
  (forall st, is_ok (fst (m st)) = true /\ mu (snd (m st)) = mu st ++ tr) ->
  grows mu m tr [].
Proof.
  intros H st. destruct (H st) as [Hok Hmu]. exists tr.
  split; [exact Hmu|]. rewrite Hok. reflexivity.
Qed.

End Growth.

Section StageGrowth.
Variable env : Env.
Import Pipeline.

(** A measure of the state to which a console line [ev] adds [w ev], a
    commit adds [c], and a change of the session nothing. *)
Context {X : Type} (mu : State -> list X) (w : Event -> list X) (c : list X).
Hypothesis mu_say : forall ev st, mu (say [ev] st) = mu st ++ w ev.
Hypothesis mu_commit : forall st, mu (snd (commit st)) = mu st ++ c.
Hypothesis mu_session : forall d st, mu (set_session d st) = mu st.
Hypothesis w_summary_line : forall label v, w (SummaryLine label v) = [].
Hypothesis w_summary_error : forall label e, w (SummaryError label e) = [].

Lemma grows_logger ev : grows mu (logger ev) (w ev) [].
Proof.
  apply grows_always. intros st. rewrite logger_eq. split; [reflexivity|].
  apply mu_say.
Qed.

Lemma grows_commit : grows mu commit c [].
Proof. apply grows_always. intros st. split; [reflexivity|apply mu_commit]. Qed.

Lemma grows_execute text : grows mu (execute env text) [] [[]].
Proof.
  apply grows_still. intros st. unfold execute.
  destruct (sql env text (session st)). apply mu_session.
Qed.

Lemma grows_lift {A} (r : result A) : grows mu (lift r) [] [[]].
Proof. apply grows_still. reflexivity. Qed.

Ltac among := intros ? Hin; simpl in Hin |- *; intuition (subst; auto).

Lemma grows_run_sql_file sql_path :
  grows mu (run_sql_file env sql_path) (c ++ w (Executed sql_path)) [[]].
Proof.
  unfold run_sql_file. eapply grows_weaken.
  - apply grows_bind; [apply grows_lift|intros text].
    apply grows_bind; [apply grows_execute|intros rows].
    apply grows_bind; [apply grows_commit|intros _].
    apply grows_logger.
  - reflexivity.
  - among.
Qed.

Lemma grows_create_transform_schema :
  grows mu (create_transform_schema env) c [[]].
Proof.
  unfold create_transform_schema. eapply grows_weaken.
  - apply grows_bind; [apply grows_execute|intros rows].
    apply grows_bind; [apply grows_execute|intros rows'].
    apply grows_commit.
  - reflexivity.
  - among.
Qed.

Lemma grows_step_transform :
  grows mu (step_transform env)
        (w (StepStarted Transform) ++ c
         ++ (c ++ w (Executed "transform/transform_events.sql"))
         ++ w (StepDone Transform))
        [w (StepStarted Transform); w (StepStarted Transform) ++ c].
Proof.
  unfold step_transform. eapply grows_weaken.
  - apply grows_bind; [apply grows_logger|intros _].
    apply grows_bind; [apply grows_create_transform_schema|intros _].
    apply grows_bind; [apply grows_run_sql_file|intros _].
    apply grows_logger.
  - reflexivity.
  - intros x Hin. simpl in Hin. rewrite !app_nil_r in Hin. simpl.
    intuition.
Qed.

Lemma grows_step (s : Stage) (sql_path : string) :
  grows mu (logger (StepStarted s) ;; run_sql_file env sql_path ;;
            logger (StepDone s))
        (w (StepStarted s) ++ (c ++ w (Executed sql_path)) ++ w (StepDone s))
        [w (StepStarted s)].
Proof.
  eapply grows_weaken.
  - apply grows_bind; [apply grows_logger|intros _].
    apply grows_bind; [apply grows_run_sql_file|intros _].
    apply grows_logger.
  - reflexivity.
  - intros x Hin. simpl in Hin. rewrite !app_nil_r in Hin. simpl.
    intuition.
Qed.

Lemma mu_after_queries qs :
  forall st, mu (after_queries env qs st) = mu st.
Proof.
  induction qs as [|[label query] rest IH]; intros st; [reflexivity|].
  cbn [after_queries]. rewrite IH. unfold after_query.
  change (mkState (committed st) ?d (requests st) (sleeps st) (clock st)
                  (uuid_calls st) (console st ++ [?ev]) (commits st))
    with (say [ev] (set_session d st)).
  rewrite mu_say, mu_session. unfold summary_event.
  destruct (fst (sql env query (session st))) as [rows|e];
    [|rewrite w_summary_error; apply app_nil_r].
  destruct (fetchone_0 rows) as [v|e];
    [|rewrite w_summary_error; apply app_nil_r].
  destruct (format_count v);
    [rewrite w_summary_line|rewrite w_summary_error]; apply app_nil_r.
Qed.

Lemma grows_print_pipeline_summary :
  grows mu (print_pipeline_summary env)
        (w Rule ++ w (StepStarted Summary) ++ w Rule ++ w Rule) [].
Proof.
  apply grows_always. intros st.
  assert (E : print_pipeline_summary env st
              = (Ok tt,
                 say [Rule]
                     (after_queries env queries
                        (say [Rule]
                           (say [StepStarted Summary] (say [Rule] st)))))).
  { unfold print_pipeline_summary, bind. rewrite !logger_eq.
    rewrite summary_loop_eq, logger_eq. reflexivity. }
  rewrite E. split; [reflexivity|]. cbn [snd].
  rewrite mu_say, mu_after_queries, !mu_say, <- !app_assoc. reflexivity.
Qed.

(** What [m1 ;; m2] adds when it raises, from what the two add. *)
Definition then_fails (ok1 : list X) (fail1 fail2 : list (list X))
  : list (list X) :=
  fail1 ++ map (app ok1) fail2.

Definition added_by_transform : list X :=
  w (StepStarted Transform) ++ c
  ++ (c ++ w (Executed "transform/transform_events.sql"))
  ++ w (StepDone Transform).

Definition added_by_step (s : Stage) (sql_path : string) : list X :=
  w (StepStarted s) ++ (c ++ w (Executed sql_path)) ++ w (StepDone s).

Definition added_by_summary : list X :=
  w Rule ++ w (StepStarted Summary) ++ w Rule ++ w Rule.

Lemma grows_stages :
  grows mu (stages env)
    (added_by_transform
     ++ added_by_step LoadFacts "files/load_facts.sql"
     ++ added_by_step QualityChecks "files/data_quality.sql"
     ++ added_by_step CreateKpiViews "kpi_queries.sql"
     ++ added_by_summary ++ w PipelineCompleted)
    (then_fails added_by_transform
       [w (StepStarted Transform); w (StepStarted Transform) ++ c]
       (then_fails (added_by_step LoadFacts "files/load_facts.sql")
          [w (StepStarted LoadFacts)]
          (then_fails (added_by_step QualityChecks "files/data_quality.sql")
             [w (StepStarted QualityChecks)]
             (then_fails (added_by_step CreateKpiViews "kpi_queries.sql")
                [w (StepStarted CreateKpiViews)]
                (then_fails added_by_summary [] []))))).
Proof.
  unfold stages, then_fails.
  apply grows_bind; [apply grows_step_transform|intros _].
  apply grows_bind; [apply grows_step|intros _].
  apply grows_bind; [apply grows_step|intros _].
  apply grows_bind; [apply grows_step|intros _].
  apply grows_bind; [apply grows_print_pipeline_summary|intros _].
  apply grows_logger.
Qed.

End StageGrowth.

Section StageOutcomes.
Variable env : Env.
Import Pipeline.

(** The two lines that close a run of the stages. *)
Definition is_verdict (ev : Event) : bool :=
  match ev with
  | PipelineCompleted | PipelineFailed _ => true
  | _ => false
  end.

Definition verdicts (st : State) : list Event := filter is_verdict (console st).

Lemma stages_verdicts (st : State) :
  verdicts (snd (stages env st))
  = verdicts st
    ++ (if is_ok (fst (stages env st)) then [PipelineCompleted] else []).
Proof.
  destruct (grows_stages env verdicts (fun ev => filter is_verdict [ev]) []
              ltac:(intros ev s; unfold verdicts, say; cbn [console];
                    apply filter_app)
              ltac:(intros s; symmetry; apply app_nil_r)
              ltac:(reflexivity) ltac:(reflexivity) ltac:(reflexivity) st)
    as [tr [Hmu Htr]].
  rewrite Hmu. f_equal.
  destruct (is_ok (fst (stages env st))); [exact Htr|].
  cbn in Htr. intuition.
Qed.

(** X16.  Every run of the stages writes exactly one closing line, and it
    tells the outcome: "completed" if and only if the run returns, "failed"
    with the exception if and only if it raises that exception. *)
Theorem run_stages_verdict (st : State) :
  filter is_verdict (console (snd (run_stages env st)))
  = filter is_verdict (console st)
    ++ [match fst (run_stages env st) with
        | Ok _ => PipelineCompleted
        | Raise e => PipelineFailed e
        end].
Proof.
  rewrite run_stages_eq.
  pose proof (stages_verdicts (set_session (committed st) st)) as H.
  unfold verdicts in H.
  destruct (stages env (set_session (committed st) st)) as [[u|e] st1];
    cbn [fst snd is_ok set_session console say] in *.
  - exact H.
  - rewrite filter_app, H, app_nil_r. reflexivity.
Qed.

Definition commit_count (st : State) : list unit :=
  map (fun _ => tt) (commits st).

Lemma stages_commit_count (st : State) :
  exists n,
    List.length (commits (snd (stages env st))) = List.length (commits st) + n
    /\ if is_ok (fst (stages env st)) then n = 5 else n <= 4.
Proof.
  destruct (grows_stages env commit_count (fun _ => []) [tt]
              ltac:(intros ev s; symmetry; apply app_nil_r)
              ltac:(intros s; unfold commit_count, commit, modify;
                    cbn [snd commits]; apply map_app)
              ltac:(reflexivity) ltac:(reflexivity) ltac:(reflexivity) st)
    as [tr [Hmu Htr]].
  exists (List.length tr).
  apply (f_equal (@List.length unit)) in Hmu.
  unfold commit_count in Hmu. rewrite length_app, !length_map in Hmu.
  split; [exact Hmu|].
  destruct (is_ok (fst (stages env st))); [rewrite Htr; reflexivity|].
  cbn in Htr. intuition; subst; simpl; lia.
Qed.

(** X17.  The stages commit five times when they all succeed (the two
    schemas, then each of the four scripts; the summary commits nothing)
    and at most four times when one fails; at the end the connection is
    closed, so nothing uncommitted of a failed script is left. *)
Theorem run_stages_commits (st : State) :
  let out := run_stages env st in
  session (snd out) = committed (snd out)
  /\ exists n,
       List.length (commits (snd out)) = List.length (commits st) + n
       /\ match fst out with
          | Ok _ => n = 5
          | Raise _ => n <= 4
          end.
Proof.
  cbv zeta. rewrite run_stages_eq.
  destruct (stages_commit_count (set_session (committed st) st))
    as [n [Hn Hok]].
  destruct (stages env (set_session (committed st) st)) as [[u|e] st1];
    cbn [fst snd is_ok set_session session committed commits say] in *;
    (split; [reflexivity|]); exists n; split; assumption.
Qed.

Lemma stages_io (st : State) :
  requests (snd (stages env st)) = requests st
  /\ sleeps (snd (stages env st)) = sleeps st.
Proof.
  split.
  - destruct (grows_stages env requests (fun _ => []) []
                ltac:(intros ev s; symmetry; apply app_nil_r)
                ltac:(intros s; symmetry; apply app_nil_r)
                ltac:(reflexivity) ltac:(reflexivity) ltac:(reflexivity) st)
      as [tr [Hmu Htr]].
    rewrite Hmu.
    destruct (is_ok (fst (stages env st)));
      [rewrite Htr|cbn in Htr; intuition; subst]; apply app_nil_r.
  - destruct (grows_stages env sleeps (fun _ => []) []
                ltac:(intros ev s; symmetry; apply app_nil_r)
                ltac:(intros s; symmetry; apply app_nil_r)
                ltac:(reflexivity) ltac:(reflexivity) ltac:(reflexivity) st)
      as [tr [Hmu Htr]].
    rewrite Hmu.
    destruct (is_ok (fst (stages env st)));
      [rewrite Htr|cbn in Htr; intuition; subst]; apply app_nil_r.
Qed.

(** X18.  With [--skip-ingest], [main] sends no request to the API and
    never waits for a retry: it goes straight to the stages. *)
Theorem skip_ingest_sends_nothing (args : Args) (st : State) :
  arg_skip_ingest args = true ->
  requests (snd (main env args st)) = requests st
  /\ sleeps (snd (main env args st)) = sleeps st
  /\ main env args st
     = run_stages env (say [PipelineStarting (arg_source args)] st).
Proof.
  intros Hskip. rewrite main_eq. cbv zeta. rewrite Hskip.
  split; [|split; [|reflexivity]]; rewrite run_stages_eq;
    destruct (stages_io (set_session
                           (committed (say [PipelineStarting (arg_source args)] st))
                           (say [PipelineStarting (arg_source args)] st)))
      as [Hr Hs];
    destruct (stages env _) as [[u|e] st1]; cbn [snd] in *;
    try exact Hr; try exact Hs.
Qed.

End StageOutcomes.

Lemma skip_ingest_sends_nothing_witness :
  let env := Examples.example_env Examples.two_pages Examples.no_file in
  let args := Pipeline.mkArgs "api" "data/events.csv" true in
  requests (snd (Pipeline.main env args (initial_state empty_db))) = [].
Proof.
  cbv zeta.
  exact (proj1 (skip_ingest_sends_nothing
                  (Examples.example_env Examples.two_pages Examples.no_file)
                  (Pipeline.mkArgs "api" "data/events.csv" true)
                  (initial_state empty_db) eq_refl)).
Defined.

Section MainIngest.
Variable env : Env.
Import Pipeline.

(** The console holds the lines of the orchestrator; the log lines of the
    ingestors themselves are not modelled, so a run of either leaves it as
    it is. *)
Lemma run_job_console (j : Job) (st : State) :
  console (snd (run_job env j st)) = console st.
Proof.
  destruct j as [csv_path|self country_code max_pages]; cbn [run_job].
  - destruct (CsvIngestor.build_rows env csv_path) as [rows|e] eqn:E;
      [rewrite (csv_run_ok env st E)|rewrite (csv_run_raise env st E)];
      reflexivity.
  - rewrite run_eq. cbv zeta.
    assert (H : console (snd (TicketmasterIngestor.page_loop env self
                  country_code (uuid4 env (uuid_calls st))
                  (TicketmasterIngestor.range max_pages) 0 (started env st)))
                = console st).
    { apply (page_loop_preserves env (fun s => console s = console st)).
      - intros s s' _ _ _ Hc _ H. rewrite Hc. exact H.
      - intros rows s H. destruct rows; exact H.
      - reflexivity. }
    destruct (TicketmasterIngestor.page_loop env self country_code _ _ 0
                (started env st)) as [[total|e] st1]; exact H.
Qed.

Lemma step_extract_load_console (source csv_path : string) (st : State) :
  console (snd (step_extract_load env source csv_path st))
  = console st ++ [ExtractLoad source].
Proof.
  unfold step_extract_load. unfold bind at 1. rewrite logger_eq.
  destruct (String.eqb source "api").
  - unfold bind, lift.
    destruct (TicketmasterIngestor.init env) as [ingestor|e]; [|reflexivity].
    apply (run_job_console (ApiJob ingestor "DE" 5)).
  - destruct (String.eqb source "csv"); [|reflexivity].
    apply (run_job_console (CsvJob csv_path)).
Qed.

(** X19.  A failed ingestion ends [main] at once: the exception of the
    ingestor is the one [main] raises, no stage is started, and as the
    ingestion is outside the handler of the stages no "pipeline failed"
    line is written; of the lines of the orchestrator only the two opening
    ones are there, and nothing is committed after the ingestion. *)
Theorem failed_ingestion_stops_main (args : Args) (e : Exn) (st : State) :
  arg_skip_ingest args = false ->
  fst (step_extract_load env (arg_source args) (arg_csv_path args)
         (say [PipelineStarting (arg_source args)] st)) = Raise e ->
  fst (main env args st) = Raise e
  /\ console (snd (main env args st))
     = console st ++ [PipelineStarting (arg_source args);
                      ExtractLoad (arg_source args)]
  /\ commits (snd (main env args st))
     = commits (snd (step_extract_load env (arg_source args)
                       (arg_csv_path args)
                       (say [PipelineStarting (arg_source args)] st))).
Proof.
  intros Hskip He. rewrite main_eq. cbv zeta. rewrite Hskip.
  pose proof (step_extract_load_console (arg_source args) (arg_csv_path args)
                (say [PipelineStarting (arg_source args)] st)) as Hc.
  destruct (step_extract_load env _ _ _) as [[records|e'] st2];
    cbn [fst snd] in *; [discriminate|].
  split; [congruence|]. split; [|reflexivity].
  rewrite Hc. unfold say. cbn [console]. rewrite <- app_assoc. reflexivity.
Qed.

(** X20.  A source that cannot be ingested from is rejected before
    anything is touched: when the API is selected and the ingestor cannot
    be constructed (no key, an empty key, an unreadable batch size), or
    when the source is neither "api" nor "csv" (a [ValueError] naming it),
    [step_extract_load] raises that exception after its opening line,
    having sent no request, opened no connection and drawn no run id. *)
Theorem unusable_source_touches_nothing (source csv_path : string) (e : Exn)
        (st : State) :
  (source = "api"%string /\ TicketmasterIngestor.init env = Raise e)
  \/ (source <> "api"%string /\ source <> "csv"%string
      /\ e = Exc "ValueError" ("Unknown source: " ++ source)%string) ->
  step_extract_load env source csv_path st
  = (Raise e, say [ExtractLoad source] st).
Proof.
  intros H. unfold step_extract_load. unfold bind at 1. rewrite logger_eq.
  destruct H as [[Hsrc Hinit]|[Hapi [Hcsv ->]]].
  - rewrite Hsrc. cbn [String.eqb Ascii.eqb Bool.eqb]. unfold bind, lift.
    rewrite Hinit. reflexivity.
  - apply String.eqb_neq in Hapi, Hcsv. rewrite Hapi, Hcsv. reflexivity.
Qed.

(** [__init__] refuses a missing or empty key whenever the batch size
    is readable. *)
Lemma init_without_key (size : Z) :
  env_batch_size env = Ok size ->
  env_api_key env = None \/ env_api_key env = Some ""%string ->
  TicketmasterIngestor.init env
  = Raise (Exc "ValueError" "TICKETMASTER_API_KEY not set in .env").
Proof.
  intros Hsize [Hkey|Hkey]; unfold TicketmasterIngestor.init;
    rewrite Hsize, Hkey; reflexivity.
Qed.

End MainIngest.

Lemma failed_ingestion_stops_main_witness :
  let env := Examples.example_env Examples.unavailable Examples.no_file in
  let args := Pipeline.mkArgs "csv" "data/events.csv" false in
  console (snd (Pipeline.main env args (initial_state empty_db)))
  = [PipelineStarting "csv"; ExtractLoad "csv"].
Proof.
  cbv zeta.
  exact (proj1 (proj2
    (failed_ingestion_stops_main
       (Examples.example_env Examples.unavailable Examples.no_file)
       (Pipeline.mkArgs "csv" "data/events.csv" false)
       (Exc "FileNotFoundError"
            "[Errno 2] No such file or directory: 'data/events.csv'")
       (initial_state empty_db) eq_refl eq_refl))).
Defined.

Lemma unusable_source_touches_nothing_witness :
  let env := mkEnv None (Ok 100%Z) Examples.two_pages Examples.no_file
                   (fun _ => Ok "SELECT 1;"%string)
                   (fun _ d => (Ok [[PInt 0]], d))
                   (fun _ => "run"%string) (fun _ => "<json>"%string)
                   (fun _ => "<repr>"%string) (fun _ _ => true) in
  Pipeline.step_extract_load env "api" "data/events.csv"
                             (initial_state empty_db)
  = (Raise (Exc "ValueError" "TICKETMASTER_API_KEY not set in .env"),
     say [ExtractLoad "api"] (initial_state empty_db)).
Proof.
  cbv zeta.
  exact (unusable_source_touches_nothing
           (mkEnv None (Ok 100%Z) Examples.two_pages Examples.no_file
                  (fun _ => Ok "SELECT 1;"%string)
                  (fun _ d => (Ok [[PInt 0]], d))
                  (fun _ => "run"%string) (fun _ => "<json>"%string)
                  (fun _ => "<repr>"%string) (fun _ _ => true))
           "api" "data/events.csv"
           (Exc "ValueError" "TICKETMASTER_API_KEY not set in .env")
           (initial_state empty_db)
           (or_introl (conj eq_refl eq_refl))).
Defined.
